(** * SCT Fusion Query: checkpointed embedding builder, intent classifier,
      context fusion and answer orchestration

    A shallow embedding of the retrieval core of the repository
    (embed_chunks.py, build_faiss_index.py, SCT_fusion_query.py,
    intent_classifier.py, gpt_client.py and the follow-up parser of app.py),
    followed by the properties its specification states about it.

    Python [str] values are modelled as lists of characters with code points
    0..255 (Latin-1); whitespace, case mapping and the regular-expression
    word class are Python's for that range.  Remote services (embedding,
    generation, authentication) are explicit state machines that the
    functions thread through their calls. *)

From Stdlib Require Import String Ascii ZArith NArith Lia Bool Arith List.
From Stdlib Require Import PrimFloat.
Import ListNotations.

Set Implicit Arguments.
Set Warnings "-inexact-float".

(* ================================================================== *)
(** ** Python strings *)
(* ================================================================== *)

Module PyStr.

Definition str := list ascii.

(** Literals are written as Rocq strings. *)
Definition lit (s : string) : str := list_ascii_of_string s.

Definition code (c : ascii) : N := N_of_ascii c.

Definition between (lo hi n : N) : bool := (N.leb lo n && N.leb n hi)%bool.

(** [str.isspace] on one character: the class [str.split()] and
    [str.strip()] use. *)
Definition isspace (c : ascii) : bool :=
  let n := code c in
  (between 9 13 n || between 28 32 n || N.eqb n 133 || N.eqb n 160)%bool.

(** Upper-case letters, the ones [str.lower] changes. *)
Definition isupper (c : ascii) : bool :=
  let n := code c in
  (between 65 90 n || between 192 214 n || between 216 222 n)%bool.

Definition lower_char (c : ascii) : ascii :=
  if isupper c then ascii_of_N (code c + 32) else c.

(** [s.lower()] *)
Definition lower (s : str) : str := map lower_char s.

Definition eqb_str (a b : str) : bool :=
  if list_eq_dec ascii_dec a b then true else false.

(** [s.startswith(p)] *)
Fixpoint startswith (p s : str) : bool :=
  match p, s with
  | [], _ => true
  | _ :: _, [] => false
  | a :: p', b :: s' => (Ascii.eqb a b && startswith p' s')%bool
  end.

(** [sub in s] *)
Fixpoint contains (sub s : str) : bool :=
  (startswith sub s ||
   match s with
   | [] => false
   | _ :: s' => contains sub s'
   end)%bool.

(** A word of [s.split()]: not empty, no whitespace in it. *)
Definition is_word_of_split (w : str) : Prop :=
  w <> [] /\ Forall (fun c => isspace c = false) w.

(** What [sub in s] decides. *)
Definition substring (sub s : str) : Prop :=
  exists pre post, s = pre ++ sub ++ post.

(** [s.lstrip()], [s.rstrip()], [s.strip()] *)
Fixpoint lstrip (s : str) : str :=
  match s with
  | c :: s' => if isspace c then lstrip s' else s
  | [] => []
  end.

Definition rstrip (s : str) : str := rev (lstrip (rev s)).

Definition strip (s : str) : str := rstrip (lstrip s).

(** [s.split()]: the maximal runs of non-whitespace characters.  [cur] is
    the run being read, most recent character first. *)
Fixpoint split_ws_from (cur s : str) : list str :=
  match s with
  | [] => match cur with [] => [] | _ => [rev cur] end
  | c :: s' =>
      if isspace c then
        match cur with
        | [] => split_ws_from [] s'
        | _ => rev cur :: split_ws_from [] s'
        end
      else split_ws_from (c :: cur) s'
  end.

Definition split_ws (s : str) : list str := split_ws_from [] s.

(** The leftmost occurrence of [sep] in [s]: what is before and after. *)
Fixpoint find_sep (sep s : str) : option (str * str) :=
  if startswith sep s then Some ([], skipn (length sep) s)
  else
    match s with
    | [] => None
    | c :: s' =>
        match find_sep sep s' with
        | Some (a, b) => Some (c :: a, b)
        | None => None
        end
    end.

(** [s.split(sep, maxsplit)] for a non-empty [sep]: at most [maxsplit]
    cuts, left to right. *)
Fixpoint split_max (maxsplit : nat) (sep s : str) : list str :=
  match maxsplit with
  | O => [s]
  | S k =>
      match find_sep sep s with
      | None => [s]
      | Some (a, b) => a :: split_max k sep b
      end
  end.

(** [s.split(sep)]: no bound on the cuts; a string has at most
    [len(s)] of them. *)
Definition split_sep (sep s : str) : list str := split_max (length s) sep s.

(** [sep.join(l)] *)
Fixpoint join (sep : str) (l : list str) : str :=
  match l with
  | [] => []
  | [x] => x
  | x :: l' => x ++ sep ++ join sep l'
  end.

(** [l[:n]] for a Python integer [n]: a negative bound counts from the
    end. *)
Definition slice_to {A : Type} (n : Z) (l : list A) : list A :=
  if (0 <=? n)%Z then firstn (Z.to_nat n) l
  else firstn (Z.to_nat (Z.of_nat (length l) + n)) l.

(** [l[-1]] on a non-empty list ([default] stands for the IndexError). *)
Definition last_item {A : Type} (l : list A) (default : A) : A :=
  last l default.

(** [str(n)] for an integer. *)
Definition digit_char (d : nat) : ascii := ascii_of_nat (48 + d).

Fixpoint digits_fuel (fuel n : nat) (acc : str) : str :=
  match fuel with
  | O => acc
  | S f =>
      let acc' := digit_char (n mod 10) :: acc in
      if n / 10 =? 0 then acc' else digits_fuel f (n / 10) acc'
  end.

Definition str_of_nat (n : nat) : str := digits_fuel (S n) n [].

Definition str_of_Z (z : Z) : str :=
  if (z <? 0)%Z then lit "-" ++ str_of_nat (Z.to_nat (- z))
  else str_of_nat (Z.to_nat z).

End PyStr.

Import PyStr.

(* ================================================================== *)
(** ** Regular expressions (the fragment [intent_classifier.py] uses) *)
(* ================================================================== *)

Module Regex.

Inductive re : Type :=
| Lit (l : str)          (* literal characters *)
| Boundary               (* \b *)
| Seq (r1 r2 : re)       (* r1 r2 *)
| Alt (r1 r2 : re)       (* r1|r2 *)
| Opt (r : re).          (* (?:r)? *)

(** The class \w of a Python [str] pattern: alphanumeric or underscore. *)
Definition is_word (c : ascii) : bool :=
  let n := code c in
  (between 48 57 n || between 65 90 n || between 97 122 n || N.eqb n 95
   || N.eqb n 170 || N.eqb n 178 || N.eqb n 179 || N.eqb n 181
   || N.eqb n 185 || N.eqb n 186 || between 188 190 n
   || between 192 214 n || between 216 246 n || between 248 255 n)%bool.

Definition word_before (prev : option ascii) : bool :=
  match prev with Some c => is_word c | None => false end.

Definition word_after (s : str) : bool :=
  match s with c :: _ => is_word c | [] => false end.

(** \b holds between a word character and a non-word character (the
    ends of the string count as non-word). *)
Definition at_boundary (prev : option ascii) (s : str) : bool :=
  xorb (word_before prev) (word_after s).

(** Backtracking matcher in continuation style: [matches r prev s k] tries
    [r] at the position whose previous character is [prev] and whose
    remaining input is [s], then hands the position reached to [k]. *)
Fixpoint matches (r : re) (prev : option ascii) (s : str)
         (k : option ascii -> str -> bool) : bool :=
  match r with
  | Lit l =>
      if startswith l s
      then k (last (map Some l) prev) (skipn (length l) s)
      else false
  | Boundary => (at_boundary prev s && k prev s)%bool
  | Seq r1 r2 => matches r1 prev s (fun p' s' => matches r2 p' s' k)
  | Alt r1 r2 => (matches r1 prev s k || matches r2 prev s k)%bool
  | Opt r1 => (matches r1 prev s k || k prev s)%bool
  end.

(** [re.search(r, s)] as a truth value: a match at some start position. *)
Fixpoint search_from (r : re) (prev : option ascii) (s : str) : bool :=
  (matches r prev s (fun _ _ => true) ||
   match s with
   | [] => false
   | c :: s' => search_from r (Some c) s'
   end)%bool.

Definition search (r : re) (s : str) : bool := search_from r None s.

(** The character before the position reached after reading [c] from a
    position whose previous character is [prev]. *)
Definition prev_after (c : str) (prev : option ascii) : option ascii :=
  last (map Some c) prev.

(** What a pattern matches: [denotes r prev c rest] says that [r], tried
    after the character [prev] with [c ++ rest] ahead, can consume exactly
    [c]. *)
Fixpoint denotes (r : re) (prev : option ascii) (c rest : str) : Prop :=
  match r with
  | Lit l => c = l
  | Boundary => c = [] /\ at_boundary prev rest = true
  | Seq r1 r2 =>
      exists c1 c2,
        c = c1 ++ c2 /\
        denotes r1 prev c1 (c2 ++ rest) /\
        denotes r2 (prev_after c1 prev) c2 rest
  | Alt r1 r2 => denotes r1 prev c rest \/ denotes r2 prev c rest
  | Opt r1 => denotes r1 prev c rest \/ c = []
  end.

End Regex.

(* ================================================================== *)
(** ** intent_classifier.py *)
(* ================================================================== *)

Module IntentClassifier.
Import Regex.

(** Strong binning-specific keywords, matched as substrings. *)
Definition strong : list str :=
  [ lit "binning"; lit "bin yield"; lit "test bin"; lit "binning yield";
    lit "product bin"; lit "bin distribution" ].

(** r'\bbin(?:s|ned|ning)?\b' *)
Definition bin_pattern : re :=
  Seq Boundary
    (Seq (Lit (lit "bin"))
       (Seq (Opt (Alt (Lit (lit "s")) (Alt (Lit (lit "ned")) (Lit (lit "ning")))))
          Boundary)).

(** "bin" and its inflections. *)
Definition bin_forms : list str :=
  [ lit "bin"; lit "bins"; lit "binned"; lit "binning" ].

(** [q] has a form of "bin" as a token of its own: an occurrence with no
    word character next to it on either side. *)
Definition standalone_bin_token (q : str) : Prop :=
  exists pre tok post,
    q = pre ++ tok ++ post /\
    In tok bin_forms /\
    word_before (prev_after pre None) = false /\
    word_after post = false.

Definition is_binning_question (question : str) : bool :=
  let q := lower question in
  if existsb (fun w => contains w q) strong then true
  else if search bin_pattern q then true
  else false.

End IntentClassifier.

(* ================================================================== *)
(** ** numpy arrays and the FAISS flat index, as far as the code uses them *)
(* ================================================================== *)

Module Numpy.

(** A one-dimensional float array. *)
Definition vector := list float.

(** A two-dimensional array, by rows. *)
Definition matrix := list vector.

(** [np.zeros(n, dtype="float32")] *)
Definition zeros (n : nat) : vector := repeat 0%float n.

(** [np.vstack(vs)]: raises ValueError (here [None]) on an empty list and
    on rows of different lengths. *)
Definition vstack (vs : list vector) : option matrix :=
  match vs with
  | [] => None
  | v :: _ =>
      if forallb (fun w => length w =? length v) vs then Some vs else None
  end.

(** [m.shape[1]] *)
Definition shape1 (m : matrix) : nat :=
  match m with
  | v :: _ => length v
  | [] => 0
  end.

End Numpy.

Module Faiss.
Import Numpy.

(** [faiss.IndexFlatIP(d)] after [index.add(m)]. *)
Record IndexFlatIP : Type := mkIndex { d : nat; stored : matrix }.

End Faiss.

(** What a sequence of statements does: runs to its end, or stops at a
    raised exception, in both cases leaving a state behind. *)
Inductive outcome (E S : Type) : Type :=
| Finished (s : S)
| Crashed (e : E) (s : S).

Arguments Finished {E S} s.
Arguments Crashed {E S} e s.

Definition final_state {E S : Type} (o : outcome E S) : S :=
  match o with
  | Finished s => s
  | Crashed _ s => s
  end.

Definition and_then {E S : Type} (o : outcome E S) (f : S -> outcome E S)
  : outcome E S :=
  match o with
  | Finished s => f s
  | Crashed e s => Crashed e s
  end.

Notation "o >>= f" := (and_then o f) (at level 50, left associativity).

(* ================================================================== *)
(** ** embed_chunks.py: the checkpointed embedding builder *)
(* ================================================================== *)

(** The prints and the sleeps between requests (time.sleep(SLEEP),
    time.sleep(2) before the retry) have no part in what follows and are
    left out; everything else of the module is here, in its order. *)

Module EmbedChunks.
Import Numpy Faiss.

(** One line of rag_chunks.jsonl. *)
Record chunk : Type := mkChunk {
  chunk_id : str;
  chunk_source : str;
  chunk_index : Z;
  chunk_text : str
}.

(** What [embed_text] does on one call: returns the vector, raises
    [openai.BadRequestError], or raises any other exception. *)
Inductive embed_reply : Type :=
| Embedding (v : vector)
| BadRequestError (msg : str)
| OtherException (msg : str).

(** The exceptions that leave [main] by what the service and the arrays
    do.  An error of the file system (the OSError of open, json.dump,
    np.save or unlink) and an interrupt can stop a run at any statement;
    they are not modelled: a run is followed as far as its inputs decide
    it. *)
Inductive exn : Type :=
| RefreshFailed        (* raised inside refresh_client() *)
| ValueError.          (* raised by np.vstack *)

(** The checkpoint files: embedding_checkpoint.json holds
    {last_index, vectors_count}; embedding_checkpoint.npy the matrix. *)
Record files : Type := mkFiles {
  checkpoint_json : option (Z * Z);
  checkpoint_npy : option matrix
}.

Definition no_files : files := mkFiles None None.

(** What the run does, in order. *)
Inductive event : Type :=
| EvEmbed (i : nat) (text : str)        (* embed_text(d["text"]) for chunk i *)
| EvRefresh                              (* refresh_client() *)
| EvAppend (i : nat) (v : vector)        (* vectors.append(v) for chunk i *)
| EvCheckpoint (last_index vectors_count : Z).  (* the json record written *)

(** The requests, appends and checkpoint records of a trace. *)
Definition embeds (tr : list event) : list (nat * str) :=
  flat_map (fun e => match e with EvEmbed i t => [(i, t)] | _ => [] end) tr.

Definition appends (tr : list event) : list (nat * vector) :=
  flat_map (fun e => match e with EvAppend i v => [(i, v)] | _ => [] end) tr.

Definition checkpoints (tr : list event) : list (Z * Z) :=
  flat_map (fun e => match e with EvCheckpoint i c => [(i, c)] | _ => [] end) tr.

Definition load_checkpoint (fs : files) : Z * list vector :=
  match checkpoint_json fs with
  | Some (last_index, _) =>
      match checkpoint_npy fs with
      | Some m => (last_index, m)
      | None => ((-1)%Z, [])
      end
  | None => ((-1)%Z, [])
  end.

Section Builder.

(** The global [client] together with the remote service behind it. *)
Variable service : Type.
Variable embed_text : service -> str -> embed_reply * service.
(** [refresh_client()]; [None] when acquiring the token or building the
    client raises. *)
Variable refresh_client : service -> option service.
(** [faiss.normalize_L2] *)
Variable normalize_L2 : matrix -> matrix.

Record state : Type := mkState {
  svc : service;
  vectors : list vector;
  disk : files;
  trace : list event
}.

Definition log (e : event) (st : state) : state :=
  mkState (svc st) (vectors st) (disk st) (trace st ++ [e]).

Definition with_svc (w : service) (st : state) : state :=
  mkState w (vectors st) (disk st) (trace st).

(** vectors.append(v) while chunk [i] is processed *)
Definition append (i : nat) (v : vector) (st : state) : state :=
  log (EvAppend i v) (mkState (svc st) (vectors st ++ [v]) (disk st) (trace st)).

Definition do_refresh (st : state) : outcome exn state :=
  match refresh_client (svc st) with
  | Some w => Finished (with_svc w (log EvRefresh st))
  | None => Crashed RefreshFailed (log EvRefresh st)
  end.

Definition call_embed (i : nat) (t : str) (st : state) : embed_reply * state :=
  let (r, w) := embed_text (svc st) t in
  (r, with_svc w (log (EvEmbed i t) st)).

(** save_checkpoint(index, vectors): the json record first, then the
    matrix when there is at least one vector. *)
Definition save_checkpoint (index : Z) (st : state) : outcome exn state :=
  let vs := vectors st in
  let count := Z.of_nat (length vs) in
  let st1 :=
    log (EvCheckpoint index count)
      (mkState (svc st) vs
         (mkFiles (Some (index, count)) (checkpoint_npy (disk st)))
         (trace st)) in
  match vs with
  | [] => Finished st1
  | _ =>
      match vstack vs with
      | Some m =>
          Finished (mkState (svc st1) vs
                      (mkFiles (checkpoint_json (disk st1)) (Some m))
                      (trace st1))
      | None => Crashed ValueError st1
      end
  end.

(** The try/except block of the loop body. *)
Definition embed_chunk (i : nat) (dd : chunk) (st : state) : outcome exn state :=
  match call_embed i (chunk_text dd) st with
  | (Embedding v, st1) => Finished (append i v st1)
  | (BadRequestError _, st1) =>
      (* refresh the token and retry once *)
      do_refresh st1 >>= fun st2 =>
      match call_embed i (chunk_text dd) st2 with
      | (Embedding v, st3) => Finished (append i v st3)
      | (_, st3) => Finished (append i (zeros 4096) st3)
      end
  | (OtherException _, st1) => Finished (append i (zeros 4096) st1)
  end.

(** One pass through the loop body for an unprocessed chunk. *)
Definition iteration (i : nat) (dd : chunk) (st : state) : outcome exn state :=
  (if ((0 <? i) && (i mod 500 =? 0))%bool then do_refresh st else Finished st)
  >>= embed_chunk i dd
  >>= fun st2 =>
      if (i + 1) mod 10 =? 0 then save_checkpoint (Z.of_nat i) st2
      else Finished st2.

(** for i, d in enumerate(docs), from position [i] on. *)
Fixpoint embed_loop (start_index : Z) (i : nat) (docs : list chunk)
         (st : state) : outcome exn state :=
  match docs with
  | [] => Finished st
  | dd :: rest =>
      if (Z.of_nat i <=? start_index)%Z
      then embed_loop start_index (S i) rest st
      else iteration i dd st >>= embed_loop start_index (S i) rest
  end.

Inductive run_result : Type :=
| NoChunks (printed : str)      (* the error line printed before the early return *)
| Built (index : IndexFlatIP) (out_docs : list chunk) (st : state)
| Failed (e : exn) (st : state).

Definition delete_checkpoint (st : state) : state :=
  mkState (svc st) (vectors st) no_files (trace st).

Definition main (fs : files) (w : service) (docs : list chunk) : run_result :=
  let (start_index, vs) := load_checkpoint fs in
  match docs with
  | [] =>
      NoChunks
        (lit "[ERROR] No chunks found. Run load_pdfs.py first to generate chunks.")
  | _ =>
      match embed_loop start_index 0 docs (mkState w vs fs []) with
      | Crashed e st => Failed e st
      | Finished st =>
          let st' := delete_checkpoint st in
          match vstack (vectors st') with
          | None => Failed ValueError st'
          | Some m =>
              let emb_matrix := normalize_L2 m in
              Built (mkIndex (shape1 m) emb_matrix) docs st'
          end
      end
  end.

(** What one pass over chunk [i] adds to a state: [evs] are its events. *)
Record adds (i : nat) (dd : chunk) (st st' : state) (evs : list event) : Prop := {
  adds_trace : trace st' = trace st ++ evs;
  adds_vectors : vectors st' = vectors st ++ map snd (appends evs);
  adds_embeds : Forall (fun e => e = (i, chunk_text dd)) (embeds evs);
  adds_checkpoints :
    Forall (fun c => c = (Z.of_nat i, Z.of_nat (length (vectors st'))))
           (checkpoints evs);
  adds_at_most_one : appends evs = [] \/ exists v, appends evs = [(i, v)];
  adds_checkpoint_after : checkpoints evs = [] \/ exists v, appends evs = [(i, v)]
}.

(** Index alignment of a state reached from the loaded vectors [vs] over the
    chunk sequence [docs], after [m] appends: the vectors are the loaded
    ones followed by one appended vector per chunk [len(vs)], [len(vs)+1],
    ... in order; every request was for a chunk at or after [len(vs)], with
    that chunk's text; every checkpoint record written satisfies
    vectors_count == last_index + 1. *)
Record aligned (docs : list chunk) (vs : list vector) (m : nat) (st : state)
  : Prop := {
  al_vectors : vectors st = vs ++ map snd (appends (trace st));
  al_indices : map fst (appends (trace st)) = seq (length vs) m;
  al_embeds :
    Forall (fun e => length vs <= fst e /\
                     exists dd, nth_error docs (fst e) = Some dd /\
                                chunk_text dd = snd e)
           (embeds (trace st));
  al_checkpoints :
    Forall (fun c => snd c = (fst c + 1)%Z) (checkpoints (trace st))
}.

(** Two states with the same session and the same vectors: the progress
    of a run, apart from its files and its trace. *)
Definition same_progress (a b : state) : Prop :=
  svc a = svc b /\ vectors a = vectors b.

Definition same_outcome (oa ob : outcome exn state) : Prop :=
  match oa, ob with
  | Finished a, Finished b => same_progress a b
  | Crashed e a, Crashed e' b => e = e' /\ same_progress a b
  | _, _ => False
  end.

(** The state a run ends in, when it gets past the input check. *)
Definition result_state (r : run_result) : option state :=
  match r with
  | NoChunks _ => None
  | Built _ _ st => Some st
  | Failed _ st => Some st
  end.

End Builder.

End EmbedChunks.

(* ================================================================== *)
(** ** build_faiss_index.py: the Digital Reference index *)
(* ================================================================== *)

Module BuildFaissIndex.
Import Numpy Faiss.

(** One line of DR_corpus.jsonl. *)
Record entry : Type := mkEntry { entry_id : str; entry_text : str }.

Definition BATCH_SIZE : nat := 128.

(** texts[i:i + BATCH_SIZE] for i in range(0, len(texts), BATCH_SIZE);
    [fuel] bounds the number of batches. *)
Fixpoint batches (fuel : nat) (texts : list str) : list (list str) :=
  match fuel with
  | O => []
  | S f =>
      match texts with
      | [] => []
      | _ => firstn BATCH_SIZE texts :: batches f (skipn BATCH_SIZE texts)
      end
  end.

Inductive build_result : Type :=
| SystemExit (msg : str)
| RaisedValueError
| Saved (index : IndexFlatIP) (ids : list str).

Section Build.

Variable service : Type.
(** client.embeddings.create on a batch; [None] when it raises. *)
Variable embed_batch : service -> list str -> option (list vector) * service.
Variable normalize_L2 : matrix -> matrix.

(** for attempt in range(3): try ... break / except ... else: skip *)
Fixpoint try_batch (attempts : nat) (w : service) (batch : list str)
  : list vector * service :=
  match attempts with
  | O => ([], w)
  | S k =>
      match embed_batch w batch with
      | (Some vs, w') => (vs, w')
      | (None, w') => try_batch k w' batch
      end
  end.

Fixpoint embed_all (w : service) (bs : list (list str)) (vectors : list vector)
  : list vector * service :=
  match bs with
  | [] => (vectors, w)
  | b :: bs' =>
      let (vs, w') := try_batch 3 w b in
      embed_all w' bs' (vectors ++ vs)
  end.

Definition build (w : service) (corpus : list entry) : build_result :=
  let texts := map entry_text corpus in
  let ids := map entry_id corpus in
  let (vectors, _) := embed_all w (batches (length texts) texts) [] in
  match vectors with
  | [] =>
      SystemExit
        (lit "[ERROR] No embeddings generated. Check credentials or network/VPN.")
  | _ =>
      match vstack vectors with
      | None => RaisedValueError
      | Some m => Saved (mkIndex (shape1 m) (normalize_L2 m)) ids
      end
  end.

End Build.

End BuildFaissIndex.

(* ================================================================== *)
(** ** SCT_fusion_query.py: index load, compression and fusion *)
(* ================================================================== *)

Module FusionQuery.
Import Numpy Faiss.

Definition nl : str := ["010"%char].

Definition TOP_K_SCT : Z := 3.
Definition TOP_K_RAG : Z := 5.
Definition TEMPERATURE : float := 0.15%float.
Definition MODEL_LLM : str := lit "gpt-4o".

(** One object of semantic_conditions.jsonl. *)
Record condition : Type := mkCondition {
  cond_label : str;
  cond_context_text : str;
  cond_embedding : vector
}.

Inductive load_result : Type :=
| LoadRaisedValueError                    (* np.vstack raised *)
| Loaded (index : IndexFlatIP) (labels contexts : list str).

Section Load.

(** json.loads(line) followed by the three field reads. *)
Variable parse_line : str -> condition.
Variable normalize_L2 : matrix -> matrix.

(** The module-level load of semantic_conditions.jsonl, from its lines. *)
Definition load_semantic_conditions (lines : list str) : load_result :=
  let objs :=
    map parse_line
      (filter (fun line => match strip line with [] => false | _ => true end)
         lines) in
  let labels := map cond_label objs in
  let contexts := map cond_context_text objs in
  let vectors := map cond_embedding objs in
  match vstack vectors with
  | None => LoadRaisedValueError
  | Some m => Loaded (mkIndex (shape1 m) (normalize_L2 m)) labels contexts
  end.

End Load.

(** One element of what retrieve_sct_context returns. *)
Record retrieved : Type := mkRetrieved {
  label : str;
  context : str;
  score : float
}.

(** [p for p in r["context"].split(" | ") if "subClassOf" not in p][:10] *)
Definition kept_parts (r : retrieved) : list str :=
  slice_to 10
    (filter (fun p => negb (contains (lit "subClassOf") p))
       (split_sep (lit " | ") (context r))).

(** f"[{r['label']}]\n" + " | ".join(parts) *)
Definition compress_one (r : retrieved) : str :=
  lit "[" ++ label r ++ lit "]" ++ nl ++ join (lit " | ") (kept_parts r).

Definition compress_sct (retrieved_list : list retrieved) (max_chars : Z) : str :=
  let merged := map compress_one retrieved_list in
  let full := join (nl ++ nl) merged in
  slice_to max_chars full.

Definition default_max_chars : Z := 1200.

(** The constant RULES.  Its few characters beyond U+00FF (arrows, dashes,
    curly quotes) stand as their UTF-8 bytes; the prompt is only
    concatenated, never split or case-mapped. *)
Definition RULES : str := lit "
You are an Infineon semiconductor domain assistant.

General expectations:
1. Start with a direct, one-sentence definition or conclusion that answers the question.
2. Structure every answer as: Definition → Short Explanation → Optional Supporting Detail.
3. Keep total length within ~200 words (≈3–6 sentences).
4. Provide clear cause–effect or process reasoning rather than listing entities.
5. Use precise semiconductor terminology (wafer, lithography, GOX, linewidth, binning, yield).
6. Mention formulas or standards (Cp, Cpk, ISO, SPC) only if relevant and factual.
7. Keep discussion tied to semiconductor manufacturing, yield, or process control.
8. Write in clear, professional technical language; use short paragraphs or bullet points when needed.
9. Maintain a neutral, factual tone—no speculation or narrative phrasing.
10. Add an “Additional Notes:” section only if genuinely valuable (e.g., limitation, brief example).

Always combine your own engineering knowledge with the Digital Reference context to produce clear, concise, and technically sound answers.

If binning applies, integrate RAG engineering text directly.
".

Definition rag_heading : str := lit "Relevant Binning Research (RAG):".

(** The f-string of fused_reasoning. *)
Definition fusion_prompt (question sct_text rag_text : str) : str :=
  nl ++ RULES ++ nl ++ nl
  ++ lit "Digital Reference Context:" ++ nl
  ++ sct_text ++ nl ++ nl
  ++ (match rag_text with
      | [] => []
      | _ => rag_heading ++ nl ++ rag_text
      end) ++ nl ++ nl
  ++ lit "Question: " ++ question ++ nl ++ nl
  ++ lit "Provide a clear, technically correct, concise answer." ++ nl.

(** A chat.completions.create request. *)
Record request : Type := mkRequest {
  req_model : str;
  req_temperature : float;
  req_prompt : str            (* the content of the single user message *)
}.

Section Fusion.

(** The embedding call and the FAISS search behind retrieve_sct_context. *)
Variable retrieve_sct_context : str -> Z -> list retrieved.
(** rag_retriever.retrieve_binning_chunks, by the text of each chunk. *)
Variable retrieve_binning_chunks : str -> Z -> list str.
(** client.chat.completions.create(...).choices[0].message.content *)
Variable chat_create : request -> str.

Definition fused_reasoning (question : str) : str * str * str * bool :=
  let is_bin := IntentClassifier.is_binning_question question in
  let sct := retrieve_sct_context question TOP_K_SCT in
  let sct_text := compress_sct sct default_max_chars in
  let rag_text :=
    if is_bin
    then join nl (map (fun c => lit "- " ++ c)
                      (retrieve_binning_chunks question TOP_K_RAG))
    else [] in
  let prompt := fusion_prompt question sct_text rag_text in
  (strip (chat_create (mkRequest MODEL_LLM TEMPERATURE prompt)),
   sct_text, rag_text, is_bin).

(** The prompt fused_reasoning sends for [question]. *)
Definition prompt_sent (question : str) : str :=
  let '(_, sct_text, rag_text, _) := fused_reasoning question in
  fusion_prompt question sct_text rag_text.

End Fusion.

End FusionQuery.

(* ================================================================== *)
(** ** gpt_client.py: the answer orchestrator *)
(* ================================================================== *)

Module GptClient.

(** What requests.get on /auth/token does. *)
Inductive auth_outcome : Type :=
| Response (status_code : Z) (token_header : option str)
| RequestException (msg : str).

(** An OpenAI SDK client object. *)
Inductive openai_client : Type :=
| Gpt4ifxClient (token : str)       (* OpenAI(api_key=token, base_url=..., ...) *)
| DefaultClient (api_key : str).    (* OpenAI() *)

Inductive exn : Type :=
| ImportError
| FileNotFoundError
| OpenAIError.

Inductive result (A : Type) : Type :=
| Returned (a : A)
| Raised (e : exn).

Arguments Returned {A} a.
Arguments Raised {A} e.

(** The process environment of a construction. *)
Record environment : Type := mkEnv {
  sdk_available : bool;               (* OpenAI is not None *)
  rules_file : option str;            (* the content of the rules file, if it exists *)
  auth : auth_outcome;                (* the answer to the token request *)
  default_openai : option openai_client
    (* what OpenAI() without arguments does here: a client, or
       (None) the SDK's error when no API key is configured *)
}.

Record GPTClient : Type := mkClient {
  rules : str;
  model : str;
  temperature : float;
  client : openai_client
}.

(** _setup_gpt4ifx_client: the client it stores in self.client, and what
    it prints. *)
(** The three ways the token request fails: a status other than 200, no
    (or an empty) token header, an exception. *)
Definition auth_failed (a : auth_outcome) : Prop :=
  match a with
  | Response status_code token_header =>
      status_code <> 200%Z \/ token_header = None \/ token_header = Some []
  | RequestException _ => True
  end.

Definition _setup_gpt4ifx_client (env : environment)
  : result openai_client * list str :=
  let fallback (e : str) :=
    (match default_openai env with
     | Some c => Returned c
     | None => Raised OpenAIError
     end,
     [lit "Failed to setup GPT4IFX client: " ++ e]) in
  match auth env with
  | Response status_code token_header =>
      let failed :=
        fallback (lit "Authentication failed with status " ++ str_of_Z status_code) in
      if (status_code =? 200)%Z then
        match token_header with
        | Some (c :: t) => (Returned (Gpt4ifxClient (c :: t)), [])
        | _ => failed
        end
      else failed
  | RequestException msg => fallback msg
  end.

(** GPTClient.__init__ *)
Definition init (env : environment) (model : str) (temperature : float)
  : result GPTClient :=
  if negb (sdk_available env) then Raised ImportError
  else
    match rules_file env with
    | None => Raised FileNotFoundError
    | Some content =>
        match fst (_setup_gpt4ifx_client env) with
        | Returned c => Returned (mkClient (strip content) model temperature c)
        | Raised e => Raised e
        end
    end.

Record message : Type := mkMessage { role : str; content : str }.

(** One chat.completions.create call: the client it goes through and the
    arguments. *)
Record call : Type := mkCall {
  call_client : openai_client;
  call_model : str;
  call_messages : list message;
  call_temperature : float;
  call_timeout : Z
}.

(** What a call does: a completion whose first choice has this content,
    or an exception with this text. *)
Inductive reply : Type :=
| Completion (content : str)
| Raises (msg : str).

Definition WORD_LIMIT : nat := 200.

Definition shorter_please (word_count : nat) : str :=
  lit "Please provide a shorter response (under 200 words). Current response has "
  ++ str_of_nat word_count ++ lit " words.".

Definition no_response : str :=
  lit "No response received from GPT. Please check connection or credentials.".

Section Ask.

(** The generation service. *)
Variable backend : Type.
Variable create : backend -> call -> reply * backend.

Variable self : GPTClient.

(** The loop [for attempt in range(1, max_retries + 1)] from [attempt]
    on, with [remaining] passes left.  Returns the text, the service
    state and the calls issued, oldest first. *)
Fixpoint ask_loop (remaining : nat) (attempt max_retries : Z)
         (messages : list message) (b : backend) (calls : list call)
  : str * backend * list call :=
  match remaining with
  | O => (no_response, b, calls)
  | S k =>
      let c := mkCall (client self) (model self) messages (temperature self) 10 in
      let (r, b1) := create b c in
      let calls1 := calls ++ [c] in
      match r with
      | Completion content =>
          let text := strip content in
          let word_count := length (split_ws text) in
          if WORD_LIMIT <? word_count then
            if (attempt <? max_retries)%Z then
              ask_loop k (attempt + 1)%Z max_retries
                (messages ++
                   [ mkMessage (lit "assistant") text;
                     mkMessage (lit "user") (shorter_please word_count) ])
                b1 calls1
            else
              let words := split_ws text in
              (join (lit " ") (slice_to 200 words) ++ lit "...", b1, calls1)
          else (text, b1, calls1)
      | Raises e =>
          if (attempt >=? max_retries)%Z then
            (lit "API Error after " ++ str_of_Z max_retries
             ++ lit " attempts: " ++ slice_to 100 e ++ lit "...", b1, calls1)
          else ask_loop k (attempt + 1)%Z max_retries messages b1 calls1
      end
  end.

Definition ask (query : str) (max_retries : Z) (b : backend)
  : str * backend * list call :=
  ask_loop (Z.to_nat max_retries) 1 max_retries
    [ mkMessage (lit "system") (rules self); mkMessage (lit "user") query ]
    b [].

End Ask.

End GptClient.

(* ================================================================== *)
(** ** app.py: parsing the follow-up suggestions *)
(* ================================================================== *)

Module App.

(** any(line.startswith(f"{i}.") or line.startswith(f"{i})")
        for i in range(1, 10)) *)
Definition numbered (line : str) : bool :=
  existsb
    (fun i => (startswith (str_of_nat i ++ lit ".") line
               || startswith (str_of_nat i ++ lit ")") line)%bool)
    (seq 1 9).

(** line.split('.', 1)[-1].split(')', 1)[-1].strip() *)
Definition remove_prefix (line : str) : str :=
  strip
    (last_item
       (split_max 1 (lit ")") (last_item (split_max 1 (lit ".") line) []))
       []).

(** The loop of get_response over followup_text.split('\n'). *)
Definition parse_followups (followup_text : str) : list str :=
  flat_map
    (fun raw =>
       let line := strip raw in
       match line with
       | [] => []
       | _ =>
           if numbered line then
             match remove_prefix line with
             | [] => []
             | question => [question]
             end
           else []
       end)
    (split_sep FusionQuery.nl followup_text).

End App.

(* ================================================================== *)
(** ** load_pdfs.py: text extraction and chunking *)
(* ================================================================== *)

Module LoadPdfs.

(** A slice bound of a sequence of length [n], as Python normalises it: a
    negative bound counts from the end, and the result is clamped to
    0..n. *)
Definition clamp_index (n : nat) (i : Z) : nat :=
  let len := Z.of_nat n in
  let j := if (i <? 0)%Z then (i + len)%Z else i in
  Z.to_nat (Z.min (Z.max j 0) len).

(** [l[a:b]] *)
Definition slice {A : Type} (a b : Z) (l : list A) : list A :=
  let lo := clamp_index (length l) a in
  let hi := clamp_index (length l) b in
  firstn (hi - lo) (skipn lo l).

(** What one page of a PDF gives: page.extract_text() returns a string,
    returns None, or raises. *)
Inductive page : Type :=
| PageText (t : str)
| PageNone
| PageRaises.

Inductive extracted : Type :=
| Text (t : str)
| FailedToRead.            (* Exception("Failed to read PDF: ...") *)

(** extract_text(pdf_path); [None] stands for a PdfReader that raises. *)
Definition extract_text (pdf : option (list page)) : extracted :=
  match pdf with
  | None => FailedToRead
  | Some pages =>
      Text (join ["010"%char]
              (flat_map (fun pg => match pg with
                                   | PageText t => [t]
                                   | PageNone => [[]]
                                   | PageRaises => []
                                   end) pages))
  end.

(** " ".join(text.split()) *)
Definition normalize_whitespace (text : str) : str :=
  join (lit " ") (split_ws text).

(** The while loop of split_into_chunks from position [start]; [text] is
    the normalised text.  [fuel] bounds the passes: [None] says that the
    loop has not ended within them. *)
Fixpoint chunk_loop (fuel : nat) (text : str) (max_len overlap start : Z)
  : option (list str) :=
  let len := Z.of_nat (length text) in
  if (start <? len)%Z then
    match fuel with
    | O => None
    | S f =>
        let end_ := Z.min (start + max_len) len in
        let c := slice start end_ text in
        if (end_ >=? len)%Z then Some [c]
        else
          match chunk_loop f text max_len overlap (end_ - overlap) with
          | Some cs => Some (c :: cs)
          | None => None
          end
    end
  else Some [].

(** split_into_chunks(text, max_len, overlap).  The loop is given as many
    passes as the normalised text has characters; it needs no more when it
    ends at all. *)
Definition split_into_chunks (text : str) (max_len overlap : Z)
  : option (list str) :=
  let text := normalize_whitespace text in
  if (Z.of_nat (length text) <=? max_len)%Z then Some [text]
  else chunk_loop (length text) text max_len overlap 0.

Definition DEFAULT_MAX_LEN : Z := 1200.
Definition DEFAULT_OVERLAP : Z := 200.

(** The records main writes for one PDF whose chunks are [chunks]. *)
Fixpoint records_from (name : str) (i : nat) (chunks : list str)
  : list EmbedChunks.chunk :=
  match chunks with
  | [] => []
  | c :: rest =>
      EmbedChunks.mkChunk (name ++ lit "::chunk_" ++ str_of_nat i) name
        (Z.of_nat i) c
      :: records_from name (S i) rest
  end.

(** One pass of main's loop over the PDFs: the lines appended to
    rag_chunks.jsonl for the file [name]; none when the file cannot be
    read. *)
Definition records_of (name : str) (pdf : option (list page))
  : list EmbedChunks.chunk :=
  match extract_text pdf with
  | FailedToRead => []
  | Text raw =>
      match split_into_chunks raw DEFAULT_MAX_LEN DEFAULT_OVERLAP with
      | Some chunks => records_from name 0 chunks
      | None => []
      end
  end.

(** main(): the content of rag_chunks.jsonl, written afresh. *)
Definition main (pdfs : list (str * option (list page))) : list EmbedChunks.chunk :=
  flat_map (fun f => records_of (fst f) (snd f)) pdfs.

(** Consecutive chunks share [ov] characters: the end of one is the start
    of the next. *)
Fixpoint chained (ov : nat) (cs : list str) : Prop :=
  match cs with
  | c :: ((c' :: _) as rest) =>
      skipn (length c - ov) c = firstn ov c' /\ chained ov rest
  | _ => True
  end.

(** The text the chunks were cut from: the first chunk, then every later
    chunk without the [ov] characters it repeats. *)
Definition reassemble (ov : nat) (cs : list str) : str :=
  match cs with
  | [] => []
  | c :: rest => c ++ concat (map (skipn ov) rest)
  end.

End LoadPdfs.

(* ================================================================== *)
(** ** embed_chunks.py: the checkpoint a run leaves behind *)
(* ================================================================== *)

Module Checkpoint.
Import Numpy EmbedChunks.

(** The state of a run over [n] chunks that started from last_index
    [start]: its vectors have the model's dimension, and what
    load_checkpoint would read from its files is a last_index [j] at or
    after [start] and inside the chunk list, with exactly [j + 1] vectors,
    the first [j + 1] vectors of the run. *)
Definition checkpoint_ok {service : Type} (start : Z) (n : nat)
           (st : state service) : Prop :=
  Forall (fun v => length v = 4096) (vectors st) /\
  let (j, vs) := load_checkpoint (disk st) in
  Z.of_nat (length vs) = (j + 1)%Z /\
  (start <= j)%Z /\
  (j + 1 <= Z.of_nat n)%Z /\
  exists rest, vectors st = vs ++ rest.

(** A sequence of statements keeps that, and no exception but one of
    refresh_client() stops it. *)
Definition stops_resumable {service : Type} (start : Z) (n : nat)
           (o : outcome exn (state service)) : Prop :=
  match o with
  | Finished st => checkpoint_ok start n st
  | Crashed e st => e = RefreshFailed /\ checkpoint_ok start n st
  end.

End Checkpoint.

(* ================================================================== *)
(** ** ontotune_detect.py: new Digital Reference concepts *)
(* ================================================================== *)

(** The parsed graph is the input (Graph().parse is rdflib's); the prints
    are left out.  A Python set is a list without repetitions, in the order
    of insertion: the program reads its sets through [in], [len], [-] and
    [sorted] only, none of which depends on the order. *)

Module OntotuneDetect.
Import PyStr.

Definition DR_PREFIXES : list str :=
  [ lit "http://www.w3id.org/ecsel-dr";
    lit "https://www.w3id.org/ecsel-dr";
    lit "http://w3id.org/ecsel-dr";
    lit "https://w3id.org/ecsel-dr" ].

(** uri.startswith(DR_PREFIXES), after the blank-node test *)
Definition is_dr_uri (uri : str) : bool :=
  if startswith (lit "_:") uri then false
  else existsb (fun p => startswith p uri) DR_PREFIXES.

(** An rdflib term; [str_of_node] is str(term). *)
Inductive node : Type :=
| URIRef (iri : str)
| BNode (id : str)
| Literal (lexical : str).

Definition str_of_node (x : node) : str :=
  match x with
  | URIRef s => s
  | BNode s => s
  | Literal s => s
  end.

Definition eqb_node (a b : node) : bool :=
  match a, b with
  | URIRef x, URIRef y => eqb_str x y
  | BNode x, BNode y => eqb_str x y
  | Literal x, Literal y => eqb_str x y
  | _, _ => false
  end.

Record triple : Type := mkTriple { subject : node; predicate : node; object : node }.

Definition graph := list triple.

Definition RDF_type : node :=
  URIRef (lit "http://www.w3.org/1999/02/22-rdf-syntax-ns#type").
Definition OWL_Class : node := URIRef (lit "http://www.w3.org/2002/07/owl#Class").
Definition OWL_ObjectProperty : node :=
  URIRef (lit "http://www.w3.org/2002/07/owl#ObjectProperty").
Definition OWL_DatatypeProperty : node :=
  URIRef (lit "http://www.w3.org/2002/07/owl#DatatypeProperty").

(** g.subjects(p, o) *)
Definition subjects (g : graph) (p o : node) : list node :=
  map subject
      (filter (fun t => (eqb_node (predicate t) p && eqb_node (object t) o)%bool) g).

(** [u in s], [s.add(u)], [a - b], [set(l)] *)
Definition mem (u : str) (s : list str) : bool := existsb (eqb_str u) s.

Definition add (u : str) (s : list str) : list str :=
  if mem u s then s else s ++ [u].

Definition difference (a b : list str) : list str :=
  filter (fun u => negb (mem u b)) a.

Definition set_of (l : list str) : list str :=
  fold_left (fun s u => add u s) l [].

(** The order of str: by code points, a proper prefix first. *)
Fixpoint str_leb (a b : str) : bool :=
  match a, b with
  | [], _ => true
  | _ :: _, [] => false
  | x :: a', y :: b' =>
      if N.ltb (code x) (code y) then true
      else if N.eqb (code x) (code y) then str_leb a' b'
      else false
  end.

Fixpoint insert (u : str) (l : list str) : list str :=
  match l with
  | [] => [u]
  | v :: l' => if str_leb u v then u :: l else v :: insert u l'
  end.

(** sorted(s) *)
Definition sorted (s : list str) : list str := fold_right insert [] s.

(** One loop of collect_current_entities. *)
Definition collect (g : graph) (type : node) : list str :=
  fold_left
    (fun s c => let u := str_of_node c in if is_dr_uri u then add u s else s)
    (subjects g RDF_type type) [].

Definition collect_current_entities (g : graph)
  : list str * list str * list str :=
  (collect g OWL_Class, collect g OWL_ObjectProperty, collect g OWL_DatatypeProperty).

(** previous_entities.json; a key that is missing reads as the empty
    list. *)
Record baseline : Type := mkBaseline {
  classes : list str;
  object_properties : list str;
  datatype_properties : list str
}.

Definition load_previous_entities (file : option baseline)
  : list str * list str * list str :=
  match file with
  | None => ([], [], [])
  | Some data =>
      (set_of (classes data), set_of (object_properties data),
       set_of (datatype_properties data))
  end.

(** A line of ontotune_lessons.jsonl: blank, not a JSON object (json.loads
    or rec.get raises), or an object with its "uri" entry. *)
Inductive lesson_line : Type :=
| BlankLine
| Malformed
| LessonRecord (uri : option str).

Definition load_existing_lesson_uris (file : option (list lesson_line))
  : list str :=
  match file with
  | None => []
  | Some lines =>
      fold_left
        (fun uris line =>
           match line with
           | LessonRecord (Some (c :: u)) => add (c :: u) uris
           | _ => uris
           end)
        lines []
  end.

(** A line of new_concepts.jsonl. *)
Record concept : Type := mkConcept { concept_type : str; concept_uri : str }.

Record files : Type := mkFiles {
  previous_entities : option baseline;
  new_concepts : option (list concept);
  lessons : option (list lesson_line)
}.

(** for u in sorted(new): if u in lesson_uris: continue; append *)
Definition unlearned (type : str) (new lesson_uris : list str) : list concept :=
  map (mkConcept type)
      (filter (fun u => negb (mem u lesson_uris)) (sorted new)).

(** The main block. *)
Definition detect (g : graph) (fs : files) : files :=
  let '(curr_classes, curr_obj, curr_data) := collect_current_entities g in
  let '(prev_classes, prev_obj, prev_data) :=
    load_previous_entities (previous_entities fs) in
  let first_run :=
    ((length prev_classes =? 0) && (length prev_obj =? 0)
     && (length prev_data =? 0))%bool in
  let lesson_uris := load_existing_lesson_uris (lessons fs) in
  let baseline :=
    mkBaseline (sorted curr_classes) (sorted curr_obj) (sorted curr_data) in
  if first_run then mkFiles (Some baseline) (Some []) (lessons fs)
  else
    let new_classes := difference curr_classes prev_classes in
    let new_obj := difference curr_obj prev_obj in
    let new_data := difference curr_data prev_data in
    let filtered_new :=
      unlearned (lit "Class") new_classes lesson_uris
      ++ unlearned (lit "ObjectProperty") new_obj lesson_uris
      ++ unlearned (lit "DatatypeProperty") new_data lesson_uris in
    mkFiles (Some baseline) (Some filtered_new) (lessons fs).

(** [u] is typed [type] in the graph. *)
Definition declared (g : graph) (type : node) (u : str) : Prop :=
  exists c, In (mkTriple c RDF_type type) g /\ str_of_node c = u.

(** [u] has a micro-lesson. *)
Definition has_lesson (file : option (list lesson_line)) (u : str) : Prop :=
  u <> [] /\ exists lines, file = Some lines /\ In (LessonRecord (Some u)) lines.

End OntotuneDetect.

(* ================================================================== *)
(** ** SCT_semantic_graph.py: semantic conditions of the entities *)
(* ================================================================== *)

(** The download, the digest, the parser and the embedding service are
    parameters; the prints and the sleeps are left out.  The entities are
    listed from a Python set, in an order of its own: the list is a
    parameter of the loop. *)

Module SemanticGraph.
Import PyStr Numpy OntotuneDetect.

Definition RDFS_label : node :=
  URIRef (lit "http://www.w3.org/2000/01/rdf-schema#label").

Definition MAX_RETRIES : nat := 5.

(** DigitalReference.hash and semantic_conditions.jsonl. *)
Record condition : Type := mkCondition {
  entity_uri : str;
  label : str;
  context_text : str;
  embedding : vector
}.

(** A line of semantic_conditions.jsonl: a record with its "label", or a
    line json.loads rejects or that has no "label". *)
Inductive out_line : Type :=
| Line (rec : condition)
| BadLine.

Record files : Type := mkFiles {
  hash_file : option str;
  out_file : option (list out_line)
}.

(** get_label(x): the first rdfs:label, or the end of the URI. *)
Definition get_label (g : graph) (x : node) : str :=
  match find (fun t => (eqb_node (subject t) x
                        && eqb_node (predicate t) RDFS_label)%bool) g with
  | Some t => str_of_node (object t)
  | None =>
      last_item
        (split_sep (lit "/") (last_item (split_sep (lit "#") (str_of_node x)) []))
        []
  end.

(** get_local_context(x): the outgoing triples, then the incoming ones. *)
Definition get_local_context (g : graph) (x : node) : list triple :=
  filter (fun t => eqb_node (subject t) x) g
  ++ filter (fun t => eqb_node (object t) x) g.

Section Loop.

(** The two characters of the format string that are outside the code
    points [str] holds: U+2014 and U+2192. *)
Variable em_dash arrow : str.

(** client.embeddings.create on one text; [None] when it raises. *)
Variable service : Type.
Variable create : service -> str -> option vector * service.

(** triples_to_text(tr) *)
Definition triples_to_text (g : graph) (tr : list triple) : str :=
  join (lit " | ")
    (map (fun t =>
            get_label g (subject t) ++ lit " " ++ em_dash
            ++ get_label g (predicate t) ++ arrow ++ lit " "
            ++ get_label g (object t))
         tr).

(** What the loop holds: the session, the lines appended to the output
    file, done_labels, and the texts sent to the service, in order. *)
Record state : Type := mkState {
  svc : service;
  appended : list condition;
  done_labels : list str;
  requests : list str
}.

(** safe_embed(t): up to [attempts] requests. *)
Fixpoint safe_embed (attempts : nat) (t : str) (st : state)
  : option vector * state :=
  match attempts with
  | O => (None, st)
  | S k =>
      let (r, w) := create (svc st) t in
      let st1 := mkState w (appended st) (done_labels st) (requests st ++ [t]) in
      match r with
      | Some emb => (Some emb, st1)
      | None => safe_embed k t st1
      end
  end.

(** The body of the loop for one entity. *)
Definition process (g : graph) (entity : node) (st : state) : state :=
  let label := get_label g entity in
  if mem label (done_labels st) then st
  else
    match get_local_context g entity with
    | [] => st
    | triples =>
        let context := triples_to_text g triples in
        match safe_embed MAX_RETRIES context st with
        | (None, st1) => st1
        | (Some emb, st1) =>
            mkState (svc st1)
              (appended st1
               ++ [mkCondition (str_of_node entity) label context emb])
              (add label (done_labels st1))
              (requests st1)
        end
    end.

Definition embed_entities (g : graph) (entities : list node) (st : state)
  : state :=
  fold_left (fun s entity => process g entity s) entities st.

(** The labels of the lines already in the output file. *)
Definition load_done_labels (file : option (list out_line)) : list str :=
  match file with
  | None => []
  | Some lines =>
      fold_left
        (fun s line => match line with Line rec => add (label rec) s | BadLine => s end)
        lines []
  end.

(** hashlib.sha256 of the downloaded bytes, as hexdigest. *)
Variable sha256 : str -> str.

(** ttl_updated(): [None] when the download raises (an exception of
    requests, or a status other than 200). *)
Definition ttl_updated (download : option str) (fs : files)
  : option (bool * files) :=
  match download with
  | None => None
  | Some content =>
      let new := sha256 content in
      match hash_file fs with
      | None => Some (true, mkFiles (Some new) (out_file fs))
      | Some stored =>
          let old := strip stored in
          if negb (eqb_str new old)
          then Some (true, mkFiles (Some new) (out_file fs))
          else Some (false, fs)
      end
  end.

Inductive ending : Type :=
| DownloadRaised
| Unchanged          (* "No need to regenerate semantic conditions." *)
| Declined           (* "Skipping embedding generation." *)
| Regenerated.

(** The main block: [choice] is what the user types when asked, [g] the
    parsed graph and [entities] its entities as listed. *)
Definition main (download : option str) (choice : str) (g : graph)
           (entities : list node) (fs : files) (w : service)
  : ending * files * list str * service :=
  match ttl_updated download fs with
  | None => (DownloadRaised, fs, [], w)
  | Some (false, fs1) => (Unchanged, fs1, [], w)
  | Some (true, fs1) =>
      if negb (eqb_str (lower (strip choice)) (lit "y"))
      then (Declined, fs1, [], w)
      else
        let done := load_done_labels (out_file fs1) in
        let st := embed_entities g entities (mkState w [] done []) in
        (Regenerated,
         mkFiles (hash_file fs1)
           (Some (match out_file fs1 with Some lines => lines | None => [] end
                  ++ map Line (appended st))),
         requests st, svc st)
  end.

End Loop.

(** The labels of the records of a file. *)
Definition labels_of (lines : list out_line) : list str :=
  flat_map (fun line => match line with Line rec => [label rec] | BadLine => [] end)
           lines.

End SemanticGraph.

(* ================================================================== *)
(** ** build_corpus.py: the unified corpus *)
(* ================================================================== *)

Module BuildCorpus.
Import PyStr.

(** A line of DR_classes.jsonl, and a line of DR_object_properties.jsonl
    or DR_datatype_properties.jsonl; a missing value is the empty
    string. *)
Record class_record : Type := mkClass {
  class_uri : str;
  class_label : str;
  class_definition : str
}.

Record property_record : Type := mkProperty {
  property_uri : str;
  property_label : str;
  property_domain : str;
  property_range : str;
  property_comment : str
}.

(** A line of DR_corpus.jsonl. *)
Record corpus_entry : Type := mkCorpusEntry {
  corpus_id : str;
  corpus_type : str;
  corpus_text : str
}.

(** text.replace("\n", " ").strip() *)
Definition clean (text : str) : str :=
  strip (map (fun c => if Ascii.eqb c "010"%char then " "%char else c) text).

(** [a or b] on strings *)
Definition or_else (a b : str) : str :=
  match a with
  | [] => b
  | _ => a
  end.

Definition class_entry (c : class_record) : corpus_entry :=
  mkCorpusEntry (lit "class::" ++ class_uri c) (lit "class")
    (lit "Class: " ++ class_label c ++ lit ". Definition: "
     ++ or_else (clean (class_definition c)) (lit "No definition provided.")).

Definition object_property_entry (p : property_record) : corpus_entry :=
  mkCorpusEntry (lit "objprop::" ++ property_uri p) (lit "object_property")
    (lit "ObjectProperty: " ++ property_label p ++ lit " "
     ++ lit "(Domain: " ++ or_else (property_domain p) (lit "unknown")
     ++ lit ", Range: " ++ or_else (property_range p) (lit "unknown") ++ lit "). "
     ++ lit "Description: "
     ++ or_else (clean (property_comment p)) (lit "No comment provided.")).

Definition datatype_property_entry (p : property_record) : corpus_entry :=
  mkCorpusEntry (lit "dataprop::" ++ property_uri p) (lit "datatype_property")
    (lit "DatatypeProperty: " ++ property_label p ++ lit " "
     ++ lit "(Domain: " ++ or_else (property_domain p) (lit "unknown")
     ++ lit ", Range: " ++ or_else (property_range p) (lit "Literal") ++ lit "). "
     ++ lit "Description: "
     ++ or_else (clean (property_comment p)) (lit "No comment provided.")).

(** The three loops, in their order. *)
Definition corpus (classes : list class_record)
           (obj_props data_props : list property_record) : list corpus_entry :=
  map class_entry classes
  ++ map object_property_entry obj_props
  ++ map datatype_property_entry data_props.

End BuildCorpus.

(* ================================================================== *)
(** ** Concrete inputs used by the examples below *)
(* ================================================================== *)

Module Demo.
Import Numpy EmbedChunks.

Definition unit_vector : vector := repeat 1%float 4096.

(** An embedding service that has answered [n] requests: the second
    request raises BadRequestError, the fourth another exception, every
    other one returns a vector. *)
Definition embed_text (n : nat) (t : str) : embed_reply * nat :=
  (match n with
   | 1 => BadRequestError (lit "token expired")
   | 3 => OtherException (lit "connection reset")
   | _ => Embedding unit_vector
   end, S n).

Definition refresh_client (n : nat) : option nat := Some n.

(** A service on which every request fails for a reason other than a bad
    request. *)
Definition always_timeout (n : nat) (t : str) : embed_reply * nat :=
  (OtherException (lit "timed out"), S n).

Definition normalize_L2 (m : matrix) : matrix := m.

Definition chunk_of (n : Z) (t : string) : chunk :=
  mkChunk (lit "paper.pdf::chunk_" ++ str_of_Z n) (lit "paper.pdf") n (lit t).

Definition docs : list chunk :=
  [ chunk_of 0 "wafer sort"; chunk_of 1 "bin map"; chunk_of 2 "yield loss" ].

(** A checkpoint with last_index = 0 and one vector. *)
Definition checkpoint : files :=
  mkFiles (Some (0%Z, 1%Z)) (Some [unit_vector]).

Definition fresh_state : state nat := mkState 0 [] no_files [].

(** Two retrieved Digital Reference contexts. *)
Definition retrieved_list : list FusionQuery.retrieved :=
  [ FusionQuery.mkRetrieved (lit "Wafer")
      (lit "Wafer subClassOf Material | hasProcess Lithography | hasTest WaferSort")
      0.9%float;
    FusionQuery.mkRetrieved (lit "Lot") (lit "Lot hasPart Wafer") 0.5%float ].

(** A primary index whose best match carries, as its label, the text of the
    secondary heading; and stubs for the other two services. *)
Definition heading_in_index (question : str) (k : Z) : list FusionQuery.retrieved :=
  [ FusionQuery.mkRetrieved FusionQuery.rag_heading (lit "isDefinedBy Glossary")
      0.7%float ].

Definition plain_index (question : str) (k : Z) : list FusionQuery.retrieved :=
  retrieved_list.

Definition no_chunks (question : str) (k : Z) : list str := [].

Definition echo (r : FusionQuery.request) : str := lit " A wafer is a thin slice. ".

(** A generation stub that answers every call with the same 250 words. *)
Definition long_answer : str :=
  join (lit " ") (repeat (lit "yield") 250).

Definition verbose_stub (n : nat) (c : GptClient.call) : GptClient.reply * nat :=
  (GptClient.Completion long_answer, S n).

Definition gpt : GptClient.GPTClient :=
  GptClient.mkClient (lit "Answer as an Infineon assistant.") (lit "gpt-4o")
    0.4%float (GptClient.Gpt4ifxClient (lit "token")).

(** A process with the SDK and the rules file, a token request answered
    with status 401, and no API key configured for OpenAI(). *)
Definition env_without_api_key : GptClient.environment :=
  GptClient.mkEnv true (Some (lit "Answer as an Infineon assistant."))
    (GptClient.Response 401 None) None.

(** The same process with an API key of some other service configured. *)
Definition env_with_api_key : GptClient.environment :=
  GptClient.mkEnv true (Some (lit "Answer as an Infineon assistant."))
    (GptClient.Response 401 None)
    (Some (GptClient.DefaultClient (lit "sk-unrelated"))).

(** The uninterrupted run over [docs] after its first chunk. *)
Definition after_first_chunk : state nat :=
  mkState 1 [unit_vector] no_files
    [ EvEmbed 0 (lit "wafer sort"); EvAppend 0 unit_vector ].

End Demo.

(* ================================================================== *)
(** ** Further concrete inputs *)
(* ================================================================== *)

Module Cases.

(** A text of ten words, with a newline and a double space in it. *)
Definition page_text : str :=
  lit "wafer  sort data
for lot seven of the bin map".

(** Two PDFs: one with a page of text, a page without text and a page that
    cannot be extracted; one that cannot be opened. *)
Definition pdfs : list (str * option (list LoadPdfs.page)) :=
  [ (lit "binning.pdf",
     Some [LoadPdfs.PageText page_text; LoadPdfs.PageNone; LoadPdfs.PageRaises]);
    (lit "scan.pdf", None) ].

(** A generation service on which every request raises, with the number
    of the request in the message. *)
Definition failing_stub (n : nat) (c : GptClient.call) : GptClient.reply * nat :=
  (GptClient.Raises (lit "connection refused, request " ++ str_of_nat n), S n).

(** Twelve chunks, and a session that expires after ten requests and
    cannot be renewed. *)
Definition twelve_docs : list EmbedChunks.chunk :=
  map (fun n => Demo.chunk_of (Z.of_nat n) "die sort") (seq 0 12).

Definition expires_after_ten (n : nat) (t : str) : EmbedChunks.embed_reply * nat :=
  (if n <? 10 then EmbedChunks.Embedding Demo.unit_vector
   else EmbedChunks.BadRequestError (lit "token expired"), S n).

Definition refresh_fails (n : nat) : option nat := None.

(** A corpus of 130 entries, and an embedding service that raises on its
    first three requests and answers every later one with one vector per
    text. *)
Definition corpus_130 : list BuildFaissIndex.entry :=
  map (fun n => BuildFaissIndex.mkEntry (lit "dr_" ++ str_of_nat n) (lit "Wafer"))
      (seq 0 130).

Definition down_at_first (n : nat) (batch : list str)
  : option (list Numpy.vector) * nat :=
  (if n <? 3 then None else Some (map (fun _ => [1%float; 0%float]) batch), S n).

Definition keep_rows (m : Numpy.matrix) : Numpy.matrix := m.

(** A graph with two Digital Reference classes, one class of another
    vocabulary and one Digital Reference object property; a baseline that
    knows the first class; a lesson file with a lesson for the property. *)
Definition dr (name : string) : OntotuneDetect.node :=
  OntotuneDetect.URIRef (lit "http://www.w3id.org/ecsel-dr/" ++ lit name).

Definition dr_graph : OntotuneDetect.graph :=
  [ OntotuneDetect.mkTriple (dr "Wafer") OntotuneDetect.RDF_type OntotuneDetect.OWL_Class;
    OntotuneDetect.mkTriple (dr "Lot") OntotuneDetect.RDF_type OntotuneDetect.OWL_Class;
    OntotuneDetect.mkTriple (OntotuneDetect.URIRef (lit "http://xmlns.com/foaf/0.1/Agent"))
      OntotuneDetect.RDF_type OntotuneDetect.OWL_Class;
    OntotuneDetect.mkTriple (dr "hasLot") OntotuneDetect.RDF_type
      OntotuneDetect.OWL_ObjectProperty ].

Definition known_wafer : OntotuneDetect.baseline :=
  OntotuneDetect.mkBaseline [lit "http://www.w3id.org/ecsel-dr/Wafer"] [] [].

Definition detect_files : OntotuneDetect.files :=
  OntotuneDetect.mkFiles (Some known_wafer) None
    (Some [ OntotuneDetect.BlankLine;
            OntotuneDetect.LessonRecord (Some (lit "http://www.w3id.org/ecsel-dr/hasLot"));
            OntotuneDetect.Malformed ]).

(** A graph with two entities that share the label "Lot", a service that
    raises on every second request, and a digest without whitespace. *)
Definition lot_graph : OntotuneDetect.graph :=
  [ OntotuneDetect.mkTriple (dr "Lot") OntotuneDetect.RDF_type OntotuneDetect.OWL_Class;
    OntotuneDetect.mkTriple
      (OntotuneDetect.URIRef (lit "http://example.org/legacy#Lot"))
      OntotuneDetect.RDF_type OntotuneDetect.OWL_Class ].

Definition lot_entities : list OntotuneDetect.node :=
  [ dr "Lot"; OntotuneDetect.URIRef (lit "http://example.org/legacy#Lot") ].

Definition every_second (n : nat) (t : str) : option Numpy.vector * nat :=
  (if Nat.even n then None else Some [1%float], S n).

Definition digest (content : str) : str := lit "9f86d081884c7d65".

Definition no_semantic_files : SemanticGraph.files :=
  SemanticGraph.mkFiles None None.

(** A class and an object property with the same URI. *)
Definition wafer_class : BuildCorpus.class_record :=
  BuildCorpus.mkClass (lit "http://www.w3id.org/ecsel-dr/Wafer") (lit "Wafer") [].

Definition wafer_property : BuildCorpus.property_record :=
  BuildCorpus.mkProperty (lit "http://www.w3id.org/ecsel-dr/Wafer") (lit "Wafer")
    [] [] (lit "links a lot
to its wafers ").



(** A service whose first five requests raise. *)
Definition down_for_five (n : nat) (t : str) : option Numpy.vector * nat :=
  (if n <? 5 then None else Some [1%float], S n).

End Cases.

(* ================================================================== *)
(** * The docstring examples, evaluated *)
(* ================================================================== *)

Example ex_split_ws :
  split_ws (lit "  a bc   d ") = [lit "a"; lit "bc"; lit "d"].
Proof. reflexivity. Qed.

Example ex_split_sep :
  split_sep (lit " | ") (lit "a | b |  | c") = [lit "a"; lit "b"; []; lit "c"] /\
  split_sep (lit " | ") [] = [[]] /\
  split_max 1 (lit ".") (lit "1. a.b") = [lit "1"; lit " a.b"].
Proof. repeat split; reflexivity. Qed.

Example ex_str_of_Z :
  str_of_Z 250 = lit "250" /\ str_of_Z 0 = lit "0" /\ str_of_Z (-17) = lit "-17".
Proof. repeat split; reflexivity. Qed.

Example ex_strip : strip (lit "  a b  ") = lit "a b" /\ lower (lit "Bin Y") = lit "bin y".
Proof. split; reflexivity. Qed.

Example ex_classifier :
  IntentClassifier.is_binning_question (lit "What is the bin yield for product X?") = true /\
  IntentClassifier.is_binning_question (lit "The chips are binned into categories") = true /\
  IntentClassifier.is_binning_question (lit "Show me binning results") = true /\
  IntentClassifier.is_binning_question (lit "What are the specifications for temperature?") = false /\
  IntentClassifier.is_binning_question (lit "Combine the results") = false /\
  IntentClassifier.is_binning_question (lit "How many bins?") = true /\
  IntentClassifier.is_binning_question (lit "a binary cabin") = false.
Proof. repeat split; reflexivity. Qed.

Example ex_followups :
  App.parse_followups
    (lit "1. What is yield?" ++ FusionQuery.nl ++ lit "2) How is Cpk used?"
     ++ FusionQuery.nl ++ FusionQuery.nl ++ lit "note")
  = [lit "What is yield?"; lit "How is Cpk used?"].
Proof. reflexivity. Qed.

(* ================================================================== *)
(** * Properties of the builder loop *)
(* ================================================================== *)

Section BuilderProofs.
Import Numpy Faiss EmbedChunks.

Variable service : Type.
Variable embed_text : service -> str -> embed_reply * service.
Variable refresh_client : service -> option service.
Variable normalize_L2 : matrix -> matrix.

#[local] Abbreviation state := (state service).
#[local] Abbreviation iteration := (iteration embed_text refresh_client).
#[local] Abbreviation embed_chunk := (embed_chunk embed_text refresh_client).
#[local] Abbreviation embed_loop := (embed_loop embed_text refresh_client).
#[local] Abbreviation main := (main embed_text refresh_client normalize_L2).

Lemma embeds_app a b : embeds (a ++ b) = embeds a ++ embeds b.
Proof. apply flat_map_app. Qed.

Lemma appends_app a b : appends (a ++ b) = appends a ++ appends b.
Proof. apply flat_map_app. Qed.

Lemma checkpoints_app a b : checkpoints (a ++ b) = checkpoints a ++ checkpoints b.
Proof. apply flat_map_app. Qed.

Lemma embed_chunk_adds i dd (st : state) :
  exists evs,
    adds i dd st (final_state (embed_chunk i dd st)) evs /\
    checkpoints evs = [] /\
    (forall st', embed_chunk i dd st = Finished st' ->
                 exists v, appends evs = [(i, v)]).
Proof.
  unfold EmbedChunks.embed_chunk, call_embed, do_refresh.
  destruct (embed_text (svc st) (chunk_text dd)) as [[v|m|m] w1] eqn:E1; simpl.
  - exists [EvEmbed i (chunk_text dd); EvAppend i v].
    split; [constructor|split]; simpl; eauto using app_assoc.
    now rewrite <- app_assoc.
  - destruct (refresh_client w1) as [w2|] eqn:R; simpl.
    + destruct (embed_text w2 (chunk_text dd)) as [[v|m'|m'] w3] eqn:E2; simpl.
      * exists [EvEmbed i (chunk_text dd); EvRefresh; EvEmbed i (chunk_text dd);
                EvAppend i v].
        split; [constructor|split]; simpl; eauto.
        now rewrite <- !app_assoc.
      * exists [EvEmbed i (chunk_text dd); EvRefresh; EvEmbed i (chunk_text dd);
                EvAppend i (zeros 4096)].
        split; [constructor|split]; simpl; eauto.
        now rewrite <- !app_assoc.
      * exists [EvEmbed i (chunk_text dd); EvRefresh; EvEmbed i (chunk_text dd);
                EvAppend i (zeros 4096)].
        split; [constructor|split]; simpl; eauto.
        now rewrite <- !app_assoc.
    + exists [EvEmbed i (chunk_text dd); EvRefresh].
      split; [constructor|split]; simpl; eauto.
      * now rewrite <- !app_assoc.
      * now rewrite app_nil_r.
      * discriminate.
  - exists [EvEmbed i (chunk_text dd); EvAppend i (zeros 4096)].
    split; [constructor|split]; simpl; eauto.
    now rewrite <- app_assoc.
Qed.

(** Events before the request (the periodic refresh) change no vector. *)
Lemma adds_after_refresh i dd (st : state) w evs st' :
  adds i dd (with_svc w (log EvRefresh st)) st' evs ->
  adds i dd st st' (EvRefresh :: evs).
Proof.
  intros [Ht Hv He Hc Ho Ha]; simpl in *.
  constructor; simpl; auto.
  now rewrite Ht, <- app_assoc.
Qed.

(** The checkpoint that closes a pass records the pass's own append. *)
Lemma save_checkpoint_adds i dd (st0 st : state) evs :
  adds i dd st0 st evs ->
  checkpoints evs = [] ->
  (exists v, appends evs = [(i, v)]) ->
  exists evs',
    adds i dd st0 (final_state (save_checkpoint (Z.of_nat i) st)) evs' /\
    appends evs' = appends evs.
Proof.
  intros [Ht Hv He Hc Ho Ha] Hck Hv1.
  exists (evs ++ [EvCheckpoint (Z.of_nat i) (Z.of_nat (length (vectors st)))]).
  assert (Hfin : vectors (final_state (save_checkpoint (Z.of_nat i) st)) = vectors st
                 /\ trace (final_state (save_checkpoint (Z.of_nat i) st))
                    = trace st ++ [EvCheckpoint (Z.of_nat i) (Z.of_nat (length (vectors st)))]).
  { unfold save_checkpoint.
    cbv zeta.
    destruct (vectors st) eqn:V; [simpl; auto|].
    destruct (vstack (v :: l)); simpl; auto. }
  destruct Hfin as [Fv Ft].
  split.
  - constructor.
    + now rewrite Ft, Ht, app_assoc.
    + rewrite Fv, Hv, appends_app; simpl. now rewrite app_nil_r.
    + rewrite embeds_app; simpl. now rewrite app_nil_r.
    + rewrite checkpoints_app, Hck, Fv; simpl. auto.
    + rewrite appends_app; simpl. now rewrite app_nil_r.
    + right. rewrite appends_app; simpl. now rewrite app_nil_r.
  - rewrite appends_app; simpl. now rewrite app_nil_r.
Qed.

Lemma iteration_adds i dd (st : state) :
  exists evs,
    adds i dd st (final_state (iteration i dd st)) evs /\
    (forall st', iteration i dd st = Finished st' ->
                 exists v, appends evs = [(i, v)]).
Proof.
  unfold EmbedChunks.iteration.
  assert (Body : forall st1,
    exists evs,
      adds i dd st1
        (final_state
           (embed_chunk i dd st1 >>= fun st2 =>
            if (i + 1) mod 10 =? 0 then save_checkpoint (Z.of_nat i) st2
            else Finished st2)) evs /\
      (forall st',
          (embed_chunk i dd st1 >>= fun st2 =>
           if (i + 1) mod 10 =? 0 then save_checkpoint (Z.of_nat i) st2
           else Finished st2) = Finished st' ->
          exists v, appends evs = [(i, v)])).
  { intros st1.
    destruct (embed_chunk_adds i dd st1) as (evs & Hadds & Hck & Hfin).
    destruct (embed_chunk i dd st1) as [st2|e st2] eqn:E;
      cbn [and_then final_state] in *.
    - destruct (Hfin st2 eq_refl) as [v Hv].
      destruct ((i + 1) mod 10 =? 0).
      + destruct (save_checkpoint_adds (st := st2) Hadds Hck (ex_intro _ v Hv))
          as (evs' & Hadds' & Happ).
        exists evs'. split; [exact Hadds'|]. intros _ _. exists v. congruence.
      + exists evs. split; [exact Hadds|]. eauto.
    - exists evs. split; [exact Hadds|]. discriminate. }
  destruct ((0 <? i) && (i mod 500 =? 0))%bool.
  - unfold do_refresh.
    destruct (refresh_client (svc st)) as [w|] eqn:R; cbn [and_then final_state].
    + destruct (Body (with_svc w (log EvRefresh st))) as (evs & Hadds & Hfin).
      exists (EvRefresh :: evs). split.
      * now apply adds_after_refresh with (w := w).
      * intros st' H. simpl. eauto.
    + exists [EvRefresh]. split; [|discriminate].
      constructor; simpl; auto. now rewrite app_nil_r.
  - cbn [and_then]. apply Body.
Qed.

Lemma aligned_length docs vs m (st : state) :
  aligned docs vs m st -> length (vectors st) = length vs + m.
Proof.
  intros [Hv Hi _ _].
  rewrite Hv, length_app, length_map.
  rewrite <- (length_map fst), Hi, length_seq. reflexivity.
Qed.

(** One pass over chunk [i], the next one to embed, keeps a state aligned. *)
Lemma adds_aligned docs vs i dd (st st' : state) evs :
  aligned docs vs (i - length vs) st ->
  length vs <= i ->
  nth_error docs i = Some dd ->
  adds i dd st st' evs ->
  (appends evs = [] -> aligned docs vs (i - length vs) st') /\
  (forall v, appends evs = [(i, v)] -> aligned docs vs (S i - length vs) st').
Proof.
  intros Hal Hle Hnth [Ht Hv He Hc Ho Ha].
  pose proof (aligned_length Hal) as Hlen.
  destruct Hal as [Av Ai Ae Ac].
  assert (Emb : Forall (fun e => length vs <= fst e /\
                     exists dd, nth_error docs (fst e) = Some dd /\
                                chunk_text dd = snd e) (embeds (trace st'))).
  { rewrite Ht, embeds_app. apply Forall_app. split; [exact Ae|].
    eapply Forall_impl; [|exact He]. intros e ->. simpl. eauto. }
  split.
  - intros Hnil. constructor; auto.
    + rewrite Hv, Hnil, Ht, appends_app, Hnil; simpl.
      now rewrite !app_nil_r.
    + now rewrite Ht, appends_app, Hnil, app_nil_r.
    + rewrite Ht, checkpoints_app. apply Forall_app. split; [exact Ac|].
      destruct Ha as [Ha|[v Ha]]; [rewrite Ha; constructor | congruence].
  - intros v Hone. constructor; auto.
    + rewrite Hv, Hone, Ht, appends_app, Hone, Av, map_app; simpl.
      now rewrite <- app_assoc.
    + rewrite Ht, appends_app, Hone, map_app, Ai. cbn [map fst].
      replace (S i - length vs) with (S (i - length vs)) by lia.
      rewrite seq_S. repeat f_equal. lia.
    + rewrite Ht, checkpoints_app. apply Forall_app. split; [exact Ac|].
      eapply Forall_impl; [|exact Hc]. intros c ->. simpl.
      rewrite Hv, Hone, length_app; simpl. lia.
Qed.

(** The loop keeps the state aligned, pass after pass, and a crash leaves
    an aligned state behind. *)
Lemma embed_loop_aligned docs vs start :
  Z.of_nat (length vs) = (start + 1)%Z ->
  forall rest pre (st : state),
    docs = pre ++ rest ->
    aligned docs vs (Nat.max (length pre) (length vs) - length vs) st ->
    match embed_loop start (length pre) rest st with
    | Finished st' =>
        aligned docs vs (Nat.max (length docs) (length vs) - length vs) st'
    | Crashed _ st' => exists m, aligned docs vs m st'
    end.
Proof.
  intros Hstart rest.
  induction rest as [|dd rest IH]; intros pre st Hdocs Hal; simpl.
  - rewrite app_nil_r in Hdocs. now subst pre.
  - assert (Hnext : docs = (pre ++ [dd]) ++ rest) by now rewrite <- app_assoc.
    assert (Hlen : length (pre ++ [dd]) = S (length pre))
      by (rewrite length_app; simpl; lia).
    specialize (IH (pre ++ [dd])). rewrite Hlen in IH.
    destruct (Z.of_nat (length pre) <=? start)%Z eqn:Hskip.
    + apply Z.leb_le in Hskip.
      apply IH; auto.
      replace (Nat.max (S (length pre)) (length vs) - length vs)
        with (Nat.max (length pre) (length vs) - length vs) by lia.
      exact Hal.
    + apply Z.leb_gt in Hskip.
      assert (Hle : length vs <= length pre) by lia.
      replace (Nat.max (length pre) (length vs)) with (length pre) in Hal by lia.
      assert (Hnth : nth_error docs (length pre) = Some dd).
      { subst docs. rewrite nth_error_app2 by lia.
        now rewrite Nat.sub_diag. }
      destruct (iteration_adds (length pre) dd st) as (evs & Hadds & Hfin).
      destruct (adds_aligned Hal Hle Hnth Hadds) as [Hnone Hsome].
      destruct (iteration (length pre) dd st) as [st1|e st1] eqn:E;
        cbn [and_then final_state] in *.
      * destruct (Hfin st1 eq_refl) as [v Hv].
        apply IH; auto.
        replace (Nat.max (S (length pre)) (length vs)) with (S (length pre)) by lia.
        eauto.
      * destruct (adds_at_most_one Hadds) as [Hn|[v Hv]]; eauto.
Qed.


(** What save_checkpoint persists is what its event records: the json file
    holds (index, len(vectors)) whether or not the matrix could be written,
    and a save that ends leaves the whole vector list in the matrix file. *)
Lemma save_checkpoint_persists idx (st : state) :
  checkpoint_json (disk (final_state (save_checkpoint idx st)))
    = Some (idx, Z.of_nat (length (vectors st))) /\
  trace (final_state (save_checkpoint idx st))
    = trace st ++ [EvCheckpoint idx (Z.of_nat (length (vectors st)))] /\
  (forall st', save_checkpoint idx st = Finished st' -> vectors st <> [] ->
               checkpoint_npy (disk st') = Some (vectors st)).
Proof.
  unfold save_checkpoint. cbv zeta.
  destruct (vectors st) as [|v l] eqn:V.
  - simpl. repeat split; auto. congruence.
  - unfold vstack.
    destruct (forallb (fun w => length w =? length v) (v :: l)); simpl;
      repeat split; auto; intros st' E; [now injection E as <-|discriminate].
Qed.



(** The state [main] hands to the loop is aligned, whatever was loaded. *)
Lemma initial_aligned docs vs (w : service) fs :
  aligned docs vs 0 (mkState w vs fs []).
Proof.
  constructor; simpl; auto. now rewrite app_nil_r.
Qed.

Lemma loop_from_checkpoint (w : service) fs docs start vs :
  Z.of_nat (length vs) = (start + 1)%Z ->
  (start + 1 <= Z.of_nat (length docs))%Z ->
  match embed_loop start 0 docs (mkState w vs fs []) with
  | Finished st' => aligned docs vs (length docs - length vs) st'
  | Crashed _ st' => exists m, aligned docs vs m st'
  end.
Proof.
  intros Hlen Hn.
  pose proof (@embed_loop_aligned docs vs start Hlen docs [] (mkState w vs fs [])
                eq_refl) as Hloop.
  change (length (@nil chunk)) with 0 in Hloop.
  replace (Nat.max 0 (length vs) - length vs) with 0 in Hloop by lia.
  replace (Nat.max (length docs) (length vs)) with (length docs) in Hloop by lia.
  exact (Hloop (initial_aligned docs vs w fs)).
Qed.

(** What the loop of [main] leaves behind, from an aligned checkpoint. *)
Lemma main_loop_aligned fs w docs start vs :
  load_checkpoint fs = (start, vs) ->
  Z.of_nat (length vs) = (start + 1)%Z ->
  (start + 1 <= Z.of_nat (length docs))%Z ->
  (forall st, result_state (main fs w docs) = Some st ->
              exists m, aligned docs vs m st) /\
  (forall idx out st, main fs w docs = Built idx out st ->
                      out = docs /\ aligned docs vs (length docs - length vs) st).
Proof.
  intros Hload Hlen Hn.
  pose proof (@loop_from_checkpoint w fs docs start vs Hlen Hn) as Hloop.
  unfold EmbedChunks.main. rewrite Hload.
  destruct docs as [|d0 docs']; [split; intros; discriminate|].
  set (ds := d0 :: docs') in *.
  destruct (embed_loop start 0 ds (mkState w vs fs [])) as [st1|e st1].
  - assert (Hdel : aligned ds vs (length ds - length vs) (delete_checkpoint st1)).
    { destruct Hloop as [A B C D]. constructor; auto. }
    destruct (vstack (vectors (delete_checkpoint st1))) as [m|];
      split; intros; cbn [result_state] in *;
      repeat match goal with
             | H : Some _ = Some _ |- _ => injection H as <-
             | H : Built _ _ _ = Built _ _ _ |- _ => injection H as <- <- <-
             | H : Failed _ _ = Built _ _ _ |- _ => discriminate H
             end; eauto.
  - split; intros; cbn [result_state] in *;
      [injection H as <-; exact Hloop | discriminate].
Qed.

Lemma vstack_same_length d (vs : list vector) :
  vs <> [] -> Forall (fun v => length v = d) vs -> vstack vs = Some vs.
Proof.
  intros Hne Hall. destruct vs as [|v vs]; [congruence|].
  unfold vstack.
  replace (forallb (fun w => length w =? length v) (v :: vs)) with true; auto.
  symmetry. apply forallb_forall. intros x Hx.
  rewrite Forall_forall in Hall.
  rewrite (Hall x Hx), (Hall v (or_introl eq_refl)). apply Nat.eqb_refl.
Qed.

Lemma zeros_length n : length (zeros n) = n.
Proof. apply repeat_length. Qed.

Section Completion.

(** A session refresh never raises, and the service answers with vectors
    of the model's dimension. *)
Hypothesis refresh_succeeds : forall w, refresh_client w <> None.
Hypothesis embedding_dimension :
  forall w t v w', embed_text w t = (Embedding v, w') -> length v = 4096.

Lemma iteration_completes i dd (st : state) :
  Forall (fun v => length v = 4096) (vectors st) ->
  exists st', iteration i dd st = Finished st' /\
              Forall (fun v => length v = 4096) (vectors st').
Proof.
  intros Hdim.
  assert (Happ : forall (s : state) v,
             Forall (fun v => length v = 4096) (vectors s) -> length v = 4096 ->
             Forall (fun v => length v = 4096) (vectors (append i v s))).
  { intros s v Hs Hv. simpl. apply Forall_app. split; auto. }
  assert (Hrefresh : forall s : state,
             Forall (fun v => length v = 4096) (vectors s) ->
             exists s', do_refresh refresh_client s = Finished s' /\
                        Forall (fun v => length v = 4096) (vectors s')).
  { intros s Hs. unfold do_refresh.
    destruct (refresh_client (svc s)) eqn:R; [|now apply refresh_succeeds in R].
    eexists. split; [reflexivity|exact Hs]. }
  assert (Hchunk : forall s : state,
             Forall (fun v => length v = 4096) (vectors s) ->
             exists s', embed_chunk i dd s = Finished s' /\
                        Forall (fun v => length v = 4096) (vectors s') /\
                        vectors s' <> []).
  { intros s Hs. unfold EmbedChunks.embed_chunk, call_embed.
    destruct (embed_text (svc s) (chunk_text dd)) as [[v|m|m] w1] eqn:E1.
    - eexists. split; [reflexivity|]. split.
      + apply Happ; eauto.
      + simpl. now destruct (vectors s).
    - destruct (Hrefresh (with_svc w1 (log (EvEmbed i (chunk_text dd)) s)) Hs)
        as (s2 & -> & Hs2).
      cbn [and_then].
      destruct (embed_text (svc s2) (chunk_text dd)) as [[v|m'|m'] w3] eqn:E2;
        (eexists; split; [reflexivity|]; split;
         [ apply Happ; eauto using zeros_length
         | simpl; now destruct (vectors s2) ]).
    - eexists. split; [reflexivity|]. split.
      + apply Happ; auto using zeros_length.
      + simpl. now destruct (vectors s). }
  assert (Hsave : forall s : state,
             Forall (fun v => length v = 4096) (vectors s) -> vectors s <> [] ->
             exists s', save_checkpoint (Z.of_nat i) s = Finished s' /\
                        Forall (fun v => length v = 4096) (vectors s')).
  { intros s Hs Hne. unfold save_checkpoint. cbv zeta.
    rewrite (vstack_same_length Hne Hs).
    destruct (vectors s) eqn:V; [congruence|].
    eexists. split; [reflexivity|]. simpl. exact Hs. }
  unfold EmbedChunks.iteration.
  assert (Hpre : exists s1,
             (if ((0 <? i) && (i mod 500 =? 0))%bool
              then do_refresh refresh_client st else Finished st) = Finished s1 /\
             Forall (fun v => length v = 4096) (vectors s1)).
  { destruct ((0 <? i) && (i mod 500 =? 0))%bool; eauto. }
  destruct Hpre as (s1 & -> & Hs1). cbn [and_then].
  destruct (Hchunk s1 Hs1) as (s2 & -> & Hs2 & Hne). cbn [and_then].
  destruct ((i + 1) mod 10 =? 0); eauto.
Qed.

Lemma embed_loop_completes start rest :
  forall i (st : state),
    Forall (fun v => length v = 4096) (vectors st) ->
    exists st', embed_loop start i rest st = Finished st' /\
                Forall (fun v => length v = 4096) (vectors st').
Proof.
  induction rest as [|dd rest IH]; intros i st Hdim; simpl; eauto.
  destruct (Z.of_nat i <=? start)%Z; auto.
  destruct (iteration_completes i dd st Hdim) as (st1 & -> & H1).
  cbn [and_then]. auto.
Qed.

(** Under those two conditions a run over at least one chunk, from an
    aligned checkpoint of vectors of that dimension, builds the index. *)
Lemma main_completes fs w docs start vs :
  load_checkpoint fs = (start, vs) ->
  Z.of_nat (length vs) = (start + 1)%Z ->
  (start + 1 <= Z.of_nat (length docs))%Z ->
  Forall (fun v => length v = 4096) vs ->
  docs <> [] ->
  exists idx st, main fs w docs = Built idx docs st.
Proof.
  intros Hload Hlen Hn Hdim Hne.
  destruct (main_loop_aligned fs w docs Hload Hlen Hn) as [_ Hbuilt].
  pose proof (@loop_from_checkpoint w fs docs start vs Hlen Hn) as Hloop.
  unfold EmbedChunks.main in *. rewrite Hload in *.
  destruct docs as [|d0 docs']; [congruence|].
  set (ds := d0 :: docs') in *.
  destruct (embed_loop_completes start ds 0 (mkState w vs fs []) Hdim)
    as (st1 & E & Hdim1).
  rewrite E in *.
  apply aligned_length in Hloop.
  assert (Hnonempty : vectors (delete_checkpoint st1) <> []).
  { intros Hnil. cbn [delete_checkpoint vectors] in Hnil.
    rewrite Hnil in Hloop. cbn [length] in Hloop.
    assert (length ds = S (length docs')) by reflexivity. lia. }
  rewrite (vstack_same_length Hnonempty Hdim1). eauto.
Qed.

End Completion.





(** C1. Resuming from a checkpoint with last_index = i and i + 1 vectors,
    for a chunk sequence that has a chunk i (or i = -1), ends with a
    vector sequence of the same length as an uninterrupted run over the
    same chunks, one vector per chunk; both are index-aligned: the loaded
    vectors keep positions 0..i and position j > i holds the one vector
    appended for chunk j; and no request is issued for a chunk at or before
    i (each request carries the text of a chunk after i), also in a run
    that an exception stops.  When a session refresh never raises and the
    vectors all have the model's dimension, both runs do build the index. *)
Theorem resume_aligned_with_uninterrupted_run :
  forall fs (w w0 : service) docs i vs,
    load_checkpoint fs = (i, vs) ->
    Z.of_nat (length vs) = (i + 1)%Z ->
    (i + 1 <= Z.of_nat (length docs))%Z ->
    (forall idx out st idx0 out0 st0,
        main fs w docs = Built idx out st ->
        main no_files w0 docs = Built idx0 out0 st0 ->
        length (vectors st) = length (vectors st0) /\
        length (vectors st) = length docs /\
        firstn (length vs) (vectors st) = vs /\
        aligned docs vs (length docs - length vs) st /\
        aligned docs [] (length docs) st0)
    /\ (forall st, result_state (main fs w docs) = Some st ->
                   Forall (fun e => (i < Z.of_nat (fst e))%Z /\
                                    exists dd, nth_error docs (fst e) = Some dd /\
                                               chunk_text dd = snd e)
                          (embeds (trace st)))
    /\ ((forall s, refresh_client s <> None) ->
        (forall s t v s', embed_text s t = (Embedding v, s') -> length v = 4096) ->
        Forall (fun v => length v = 4096) vs ->
        docs <> [] ->
        exists idx st idx0 st0,
          main fs w docs = Built idx docs st /\
          main no_files w0 docs = Built idx0 docs st0).
Proof.
  intros fs w w0 docs i vs Hload Hlen Hn.
  destruct (main_loop_aligned fs w docs Hload Hlen Hn) as [Hany Hbuilt].
  assert (Hn0 : (-1 + 1 <= Z.of_nat (length docs))%Z) by lia.
  destruct (@main_loop_aligned no_files w0 docs (-1)%Z [] eq_refl eq_refl Hn0)
    as [_ Hbuilt0].
  split; [|split].
  - intros idx out st idx0 out0 st0 Hst Hst0.
    destruct (Hbuilt idx out st Hst) as [_ Hal].
    destruct (Hbuilt0 idx0 out0 st0 Hst0) as [_ Hal0].
    rewrite Nat.sub_0_r in Hal0.
    rewrite (aligned_length Hal), (aligned_length Hal0).
    split; [simpl; lia|]. split; [lia|]. split; [|split; assumption].
    rewrite (al_vectors Hal), firstn_app, Nat.sub_diag, firstn_all; simpl.
    now rewrite app_nil_r.
  - intros st Hst. destruct (Hany st Hst) as [m Hal].
    eapply Forall_impl; [|exact (al_embeds Hal)].
    intros e [Hle Hex]. split; [lia|exact Hex].
  - intros Hr He Hdim Hne.
    destruct (@main_completes Hr He fs w docs i vs Hload Hlen Hn Hdim Hne)
      as (idx & st & E).
    destruct (@main_completes Hr He no_files w0 docs (-1)%Z [] eq_refl eq_refl Hn0
                (Forall_nil _) Hne) as (idx0 & st0 & E0).
    eauto 8.
Qed.

(** C3, as the code has it.  The first request for a chunk decides: on
    success its vector is appended; on openai.BadRequestError the session
    is refreshed and the same chunk is requested once more, exactly once
    (a refresh that raises stops the run there), and the retry's vector or,
    when the retry fails too, the zero vector is appended; on any other
    exception the zero vector is appended at once, with no refresh and no
    retry.  The placeholder has 4096 components, and a pass that ends
    appends exactly one vector: the chunk is never skipped. *)
Theorem embed_chunk_retry_policy :
  forall i dd (st : state),
    let t := chunk_text dd in
    match embed_text (svc st) t with
    | (Embedding v, w1) =>
        embed_chunk i dd st =
        Finished (mkState w1 (vectors st ++ [v]) (disk st)
                    (trace st ++ [EvEmbed i t; EvAppend i v]))
    | (BadRequestError _, w1) =>
        match refresh_client w1 with
        | Some w2 =>
            let (r2, w3) := embed_text w2 t in
            let v := match r2 with Embedding v => v | _ => zeros 4096 end in
            embed_chunk i dd st =
            Finished (mkState w3 (vectors st ++ [v]) (disk st)
                        (trace st ++ [EvEmbed i t; EvRefresh; EvEmbed i t;
                                      EvAppend i v]))
        | None =>
            embed_chunk i dd st =
            Crashed RefreshFailed
              (mkState w1 (vectors st) (disk st)
                 (trace st ++ [EvEmbed i t; EvRefresh]))
        end
    | (OtherException _, w1) =>
        embed_chunk i dd st =
        Finished (mkState w1 (vectors st ++ [zeros 4096]) (disk st)
                    (trace st ++ [EvEmbed i t; EvAppend i (zeros 4096)]))
    end
    /\ length (zeros 4096) = 4096.
Proof.
  intros i dd st t. split; [|apply zeros_length].
  unfold EmbedChunks.embed_chunk, call_embed, do_refresh, append, log, with_svc.
  fold t.
  destruct (embed_text (svc st) t) as [[v|m|m] w1]; simpl.
  - now rewrite <- app_assoc.
  - destruct (refresh_client w1) as [w2|]; simpl.
    + destruct (embed_text w2 t) as [[v|m'|m'] w3]; simpl;
        now rewrite <- !app_assoc.
    + now rewrite <- app_assoc.
  - now rewrite <- app_assoc.
Qed.

(** *** Resuming reproduces the uninterrupted run *)

Lemma same_outcome_bind (oa ob : outcome exn state) f g :
  same_outcome oa ob ->
  (forall a b, same_progress a b -> same_outcome (f a) (g b)) ->
  same_outcome (oa >>= f) (ob >>= g).
Proof.
  destruct oa, ob; simpl; auto; tauto.
Qed.

Lemma iteration_same_progress i dd (a b : state) :
  same_progress a b -> same_outcome (iteration i dd a) (iteration i dd b).
Proof.
  intros Hab. unfold EmbedChunks.iteration.
  assert (Hrefresh : forall a b : state, same_progress a b ->
            same_outcome (do_refresh refresh_client a) (do_refresh refresh_client b)).
  { intros a0 b0 [Hs Hv]. unfold do_refresh. rewrite Hs.
    destruct (refresh_client (svc b0)); simpl; unfold same_progress; simpl; auto. }
  repeat apply same_outcome_bind.
  - destruct ((0 <? i) && (i mod 500 =? 0))%bool; auto.
  - intros a0 b0 [Hs Hv]. unfold EmbedChunks.embed_chunk, call_embed. rewrite Hs.
    destruct (embed_text (svc b0) (chunk_text dd)) as [[v|m|m] w1].
    + simpl. unfold same_progress. simpl. now rewrite Hv.
    + apply same_outcome_bind.
      * apply Hrefresh. split; simpl; auto.
      * intros a1 b1 [Hs1 Hv1]. rewrite Hs1.
        destruct (embed_text (svc b1) (chunk_text dd)) as [[v|m'|m'] w3];
          simpl; unfold same_progress; simpl; now rewrite Hv1.
    + simpl. unfold same_progress. simpl. now rewrite Hv.
  - intros a0 b0 [Hs Hv].
    destruct ((i + 1) mod 10 =? 0); [|simpl; split; auto].
    unfold save_checkpoint. cbv zeta. rewrite Hv.
    destruct (vectors b0) eqn:V; [simpl; split; auto|].
    destruct (vstack (v :: l)); simpl; unfold same_progress; simpl; auto.
Qed.

Lemma embed_loop_same_progress start start' rest :
  forall i (a b : state),
    (start < Z.of_nat i)%Z -> (start' < Z.of_nat i)%Z ->
    same_progress a b ->
    same_outcome (embed_loop start i rest a) (embed_loop start' i rest b).
Proof.
  induction rest as [|dd rest IH]; intros i a b H1 H2 Hab; simpl; auto.
  destruct (Z.leb_spec (Z.of_nat i) start); [lia|].
  destruct (Z.leb_spec (Z.of_nat i) start'); [lia|].
  apply same_outcome_bind.
  - now apply iteration_same_progress.
  - intros a1 b1 Hab1. apply IH; auto; lia.
Qed.

Lemma embed_loop_app start pre :
  forall post i (st : state),
    embed_loop start i (pre ++ post) st =
    embed_loop start i pre st >>= embed_loop start (i + length pre) post.
Proof.
  induction pre as [|dd pre IH]; intros post i st; simpl.
  - now rewrite Nat.add_0_r.
  - replace (i + S (length pre)) with (S i + length pre) by lia.
    destruct (Z.of_nat i <=? start)%Z; [apply IH|].
    destruct (iteration i dd st); simpl; auto.
Qed.

Lemma embed_loop_skips start pre :
  forall i (st : state),
    (Z.of_nat (i + length pre) <= start + 1)%Z ->
    embed_loop start i pre st = Finished st.
Proof.
  induction pre as [|dd pre IH]; intros i st Hle; simpl in *; auto.
  destruct (Z.leb_spec (Z.of_nat i) start); [|lia].
  apply IH. lia.
Qed.

(** Resuming an uninterrupted run at the point it had reached after the
    chunks [pre] (its session and vectors there, stored as a checkpoint
    with last_index = len(pre) - 1) ends as the uninterrupted run does:
    the same vectors and the same index, or the same exception. *)
Lemma resume_reproduces_uninterrupted_run :
  forall (w0 : service) pre post smid fs,
    embed_loop (-1) 0 pre (mkState w0 [] no_files []) = Finished smid ->
    load_checkpoint fs = ((Z.of_nat (length pre) - 1)%Z, vectors smid) ->
    match main no_files w0 (pre ++ post), main fs (svc smid) (pre ++ post) with
    | Built idx0 _ st0, Built idx _ st => idx = idx0 /\ vectors st = vectors st0
    | Failed e0 st0, Failed e st => e = e0 /\ vectors st = vectors st0
    | NoChunks _ _, NoChunks _ _ => True
    | _, _ => False
    end.
Proof.
  intros w0 pre post smid fs Hmid Hload.
  unfold EmbedChunks.main. rewrite Hload.
  change (load_checkpoint no_files) with ((-1)%Z, @nil vector).
  destruct (pre ++ post) as [|d0 rest] eqn:Hdocs; [exact I|].
  rewrite <- Hdocs.
  assert (Hsim : same_outcome
            (embed_loop (-1) 0 (pre ++ post) (mkState w0 [] no_files []))
            (embed_loop (Z.of_nat (length pre) - 1) 0 (pre ++ post)
               (mkState (svc smid) (vectors smid) fs []))).
  { rewrite !embed_loop_app, Hmid.
    rewrite embed_loop_skips by (simpl; lia).
    cbn [and_then]. apply embed_loop_same_progress; simpl; try lia.
    split; reflexivity. }
  destruct (embed_loop (-1) 0 (pre ++ post) (mkState w0 [] no_files []))
    as [a|e a];
  destruct (embed_loop (Z.of_nat (length pre) - 1) 0 (pre ++ post)
               (mkState (svc smid) (vectors smid) fs [])) as [b|e' b];
    simpl in Hsim; try contradiction.
  - destruct Hsim as [_ Hv]. simpl. rewrite Hv.
    destruct (vstack (vectors b)); auto.
  - destruct Hsim as [-> [_ Hv]]. auto.
Qed.

End BuilderProofs.
(** C3, the counterexample: the request for a chunk fails with an exception
    other than BadRequestError; the placeholder is inserted although the
    session was not refreshed and the chunk was requested only once. *)
Lemma placeholder_without_refresh_or_retry :
  let dd := Demo.chunk_of 0 "wafer sort" in
  fst (Demo.always_timeout 0 (EmbedChunks.chunk_text dd))
    = EmbedChunks.OtherException (lit "timed out") /\
  (forall e st,
      EmbedChunks.embed_chunk Demo.always_timeout Demo.refresh_client 0 dd
        Demo.fresh_state <> Crashed e st) /\
  EmbedChunks.trace
    (final_state
       (EmbedChunks.embed_chunk Demo.always_timeout Demo.refresh_client 0 dd
          Demo.fresh_state))
  = [ EmbedChunks.EvEmbed 0 (lit "wafer sort");
      EmbedChunks.EvAppend 0 (Numpy.zeros 4096) ].
Proof.
  cbv zeta. split; [reflexivity|]. split; [|reflexivity].
  intros e st. discriminate.
Qed.


(** What that run writes and holds: one checkpoint record, (9, 10), and
    twelve vectors. *)
Example ex_checkpoint_after_ten :
  option_map
    (fun st => (EmbedChunks.checkpoints (EmbedChunks.trace st),
                length (EmbedChunks.vectors st)))
    (EmbedChunks.result_state
       (EmbedChunks.main Demo.embed_text Demo.refresh_client Demo.normalize_L2
          EmbedChunks.no_files 0 Cases.twelve_docs))
  = Some ([(9%Z, 10%Z)], 12).
Proof. vm_compute. reflexivity. Qed.


(** The hypotheses of C1 hold for the checkpoint of the first of three
    chunks. *)
Lemma resume_aligned_with_uninterrupted_run_witness :
  (forall idx out st idx0 out0 st0,
      EmbedChunks.main Demo.embed_text Demo.refresh_client Demo.normalize_L2
        Demo.checkpoint 5 Demo.docs = EmbedChunks.Built idx out st ->
      EmbedChunks.main Demo.embed_text Demo.refresh_client Demo.normalize_L2
        EmbedChunks.no_files 0 Demo.docs = EmbedChunks.Built idx0 out0 st0 ->
      length (EmbedChunks.vectors st) = length (EmbedChunks.vectors st0) /\
      length (EmbedChunks.vectors st) = length Demo.docs /\
      firstn (length [Demo.unit_vector]) (EmbedChunks.vectors st)
        = [Demo.unit_vector] /\
      EmbedChunks.aligned Demo.docs [Demo.unit_vector]
        (length Demo.docs - length [Demo.unit_vector]) st /\
      EmbedChunks.aligned Demo.docs [] (length Demo.docs) st0)
  /\ (forall st,
         EmbedChunks.result_state
           (EmbedChunks.main Demo.embed_text Demo.refresh_client Demo.normalize_L2
              Demo.checkpoint 5 Demo.docs) = Some st ->
         Forall (fun e => (0 < Z.of_nat (fst e))%Z /\
                          exists dd, nth_error Demo.docs (fst e) = Some dd /\
                                     EmbedChunks.chunk_text dd = snd e)
                (EmbedChunks.embeds (EmbedChunks.trace st)))
  /\ ((forall s, Demo.refresh_client s <> None) ->
      (forall s t v s',
          Demo.embed_text s t = (EmbedChunks.Embedding v, s') -> length v = 4096) ->
      Forall (fun v => length v = 4096) [Demo.unit_vector] ->
      Demo.docs <> [] ->
      exists idx st idx0 st0,
        EmbedChunks.main Demo.embed_text Demo.refresh_client Demo.normalize_L2
          Demo.checkpoint 5 Demo.docs = EmbedChunks.Built idx Demo.docs st /\
        EmbedChunks.main Demo.embed_text Demo.refresh_client Demo.normalize_L2
          EmbedChunks.no_files 0 Demo.docs = EmbedChunks.Built idx0 Demo.docs st0).
Proof.
  apply (@resume_aligned_with_uninterrupted_run nat Demo.embed_text
           Demo.refresh_client Demo.normalize_L2 Demo.checkpoint 5 0 Demo.docs
           0%Z [Demo.unit_vector]).
  - reflexivity.
  - reflexivity.
  - simpl. lia.
Defined.

(** The two runs of that example, evaluated: both build the index, from
    three vectors each. *)
Example ex_resumed_run :
  match EmbedChunks.main Demo.embed_text Demo.refresh_client Demo.normalize_L2
          Demo.checkpoint 5 Demo.docs,
        EmbedChunks.main Demo.embed_text Demo.refresh_client Demo.normalize_L2
          EmbedChunks.no_files 0 Demo.docs
  with
  | EmbedChunks.Built _ _ st, EmbedChunks.Built _ _ st0 =>
      length (EmbedChunks.vectors st) = 3 /\ length (EmbedChunks.vectors st0) = 3
  | _, _ => False
  end.
Proof. vm_compute. split; reflexivity. Qed.

(* ================================================================== *)
(** * Facts about the string operations *)
(* ================================================================== *)

Section SubstringFacts.

Lemma startswith_spec (p s : str) :
  startswith p s = true <-> exists rest, s = p ++ rest.
Proof.
  revert s. induction p as [|a p IH]; intros s; simpl.
  - split; eauto.
  - destruct s as [|b s].
    + split; [discriminate|]. intros [rest H]. discriminate.
    + rewrite andb_true_iff, Ascii.eqb_eq, IH. split.
      * intros [-> [rest ->]]. eauto.
      * intros [rest [= -> ->]]. eauto.
Qed.

Lemma contains_spec (sub s : str) :
  contains sub s = true <-> substring sub s.
Proof.
  unfold substring. induction s as [|c s IH]; simpl.
  - rewrite orb_false_r, startswith_spec. split.
    + intros [rest H]. exists [], rest. exact H.
    + intros (pre & post & H). destruct pre; [|discriminate]. eauto.
  - rewrite orb_true_iff, IH, startswith_spec. split.
    + intros [[rest H]|(pre & post & H)].
      * exists [], rest. exact H.
      * exists (c :: pre), post. simpl. now rewrite H.
    + intros (pre & post & H). destruct pre as [|c' pre]; simpl in H.
      * left. eauto.
      * right. injection H as _ H. eauto.
Qed.

Lemma contains_false_iff (sub s : str) :
  contains sub s = false <-> ~ substring sub s.
Proof.
  rewrite <- contains_spec. destruct (contains sub s); split; intros; auto;
    congruence.
Qed.

Lemma substring_trans (a b c : str) :
  substring a b -> substring b c -> substring a c.
Proof.
  intros (p1 & q1 & ->) (p2 & q2 & ->).
  exists (p2 ++ p1), (q1 ++ q2). now rewrite <- !app_assoc.
Qed.

Lemma substring_app_l (h a b : str) : substring h a -> substring h (a ++ b).
Proof.
  intros (p & q & ->). exists p, (q ++ b). now rewrite <- !app_assoc.
Qed.

Lemma substring_app_r (h a b : str) : substring h b -> substring h (a ++ b).
Proof.
  intros (p & q & ->). exists (a ++ p), q. now rewrite <- !app_assoc.
Qed.

Lemma substring_lower (a b : str) :
  substring a b -> substring (lower a) (lower b).
Proof.
  intros (p & q & ->). exists (lower p), (lower q).
  unfold lower. now rewrite !map_app.
Qed.

(** An occurrence of [h] in [a ++ c :: b], where [c] is not a character of
    [h], lies within [a] or within [b]. *)
Lemma substring_split_at (h a b : str) (c : ascii) :
  ~ In c h -> substring h (a ++ c :: b) -> substring h a \/ substring h b.
Proof.
  intros Hc (pre & post & H).
  symmetry in H. apply app_eq_app in H.
  destruct H as [l [[-> H]|[-> H]]].
  - (* the occurrence starts at or after the end of [a] *)
    destruct l as [|c' l]; simpl in H.
    + destruct h as [|h0 h]; simpl in H.
      * left. exists a, []. now rewrite app_nil_r.
      * injection H as <- _. exfalso. apply Hc. now left.
    + injection H as _ ->. right. exists l, post. reflexivity.
  - (* the occurrence starts inside [a] *)
    apply app_eq_app in H.
    destruct H as [l' [[-> H]|[-> H]]].
    + destruct l' as [|c' l']; simpl in H.
      * left. exists pre, []. now rewrite !app_nil_r.
      * injection H as <- _. exfalso. apply Hc.
        apply in_or_app. right. now left.
    + left. exists pre, l'. reflexivity.
Qed.

(** An occurrence of [h] in [p ++ s], where the first character of [h] is
    not a character of [p], lies within [s]. *)
Lemma substring_after_prefix (h0 : ascii) (h p s : str) :
  ~ In h0 p -> substring (h0 :: h) (p ++ s) -> substring (h0 :: h) s.
Proof.
  induction p as [|c p IH]; intros Hc Hs; simpl in *; auto.
  apply IH; [tauto|].
  destruct Hs as (pre & post & H).
  destruct pre as [|c' pre]; simpl in H.
  - injection H as -> _. tauto.
  - injection H as _ ->. exists pre, post. reflexivity.
Qed.

End SubstringFacts.

(* ================================================================== *)
(** * The intent classifier *)
(* ================================================================== *)

Section RegexFacts.
Import Regex.

Lemma last_app_default (A : Type) (l1 l2 : list A) (d : A) :
  last (l1 ++ l2) d = last l2 (last l1 d).
Proof.
  destruct l2 as [|x l2 _] using rev_ind.
  - now rewrite app_nil_r.
  - now rewrite app_assoc, !last_last.
Qed.

Lemma prev_after_app (c1 c2 : str) (prev : option ascii) :
  prev_after (c1 ++ c2) prev = prev_after c2 (prev_after c1 prev).
Proof.
  unfold prev_after. now rewrite map_app, last_app_default.
Qed.

(** The matcher succeeds exactly when the pattern can consume a prefix of
    the input after which the continuation succeeds. *)
Lemma matches_spec (r : re) :
  forall prev s k,
    matches r prev s k = true <->
    exists c rest, s = c ++ rest /\ denotes r prev c rest /\
                   k (prev_after c prev) rest = true.
Proof.
  induction r as [l| |r1 IH1 r2 IH2|r1 IH1 r2 IH2|r1 IH1]; intros prev s k; simpl.
  - destruct (startswith l s) eqn:E.
    + apply startswith_spec in E. destruct E as [rest ->].
      rewrite skipn_app, Nat.sub_diag, skipn_all. simpl. split.
      * intros H. exists l, rest. auto.
      * intros (c & rest' & H & -> & Hk). apply app_inv_head in H. now subst.
    + split; [discriminate|]. intros (c & rest & -> & -> & _).
      assert (startswith l (l ++ rest) = true) by (apply startswith_spec; eauto).
      congruence.
  - rewrite andb_true_iff. split.
    + intros [Hb Hk]. exists [], s. auto.
    + intros (c & rest & -> & [-> Hb] & Hk). auto.
  - rewrite IH1. split.
    + intros (c1 & rest1 & -> & H1 & H2). apply IH2 in H2.
      destruct H2 as (c2 & rest & -> & H2 & Hk).
      exists (c1 ++ c2), rest. rewrite <- app_assoc, prev_after_app. eauto 8.
    + intros (c & rest & -> & (c1 & c2 & -> & H1 & H2) & Hk).
      exists c1, (c2 ++ rest). rewrite <- app_assoc. repeat split; auto.
      apply IH2. rewrite prev_after_app in Hk. eauto.
  - rewrite orb_true_iff, IH1, IH2. split.
    + intros [(c & rest & H)|(c & rest & H)]; exists c, rest; tauto.
    + intros (c & rest & H & [Hd|Hd] & Hk); [left|right]; eauto.
  - rewrite orb_true_iff, IH1. split.
    + intros [(c & rest & H)|Hk]; [exists c, rest; tauto|].
      exists [], s. auto.
    + intros (c & rest & H & [Hd|Hd] & Hk); [left; eauto|].
      right. subst. exact Hk.
Qed.

(** [re.search] finds a match exactly when the pattern can consume some
    stretch of the input. *)
Lemma search_from_spec (r : re) (s : str) :
  forall prev,
    search_from r prev s = true <->
    exists pre c rest, s = pre ++ c ++ rest /\
                       denotes r (prev_after pre prev) c rest.
Proof.
  induction s as [|a s IH]; intros prev; simpl.
  - rewrite orb_false_r, matches_spec. split.
    + intros (c & rest & H & Hd & _). exists [], c, rest. auto.
    + intros (pre & c & rest & H & Hd).
      destruct pre; [|discriminate]. exists c, rest. auto.
  - rewrite orb_true_iff, matches_spec, IH. split.
    + intros [(c & rest & H & Hd & _)|(pre & c & rest & H & Hd)].
      * exists [], c, rest. auto.
      * exists (a :: pre), c, rest. split; [simpl; now rewrite H|].
        change (a :: pre) with ([a] ++ pre). now rewrite prev_after_app.
    + intros (pre & c & rest & H & Hd). destruct pre as [|b pre].
      * left. exists c, rest. auto.
      * right. simpl in H. injection H as <- ->. exists pre, c, rest.
        split; auto.
        change (a :: pre) with ([a] ++ pre) in Hd.
        now rewrite prev_after_app in Hd.
Qed.

(** What r'\bbin(?:s|ned|ning)?\b' consumes: a form of "bin" with a
    non-word neighbour, or none, on each side. *)
Lemma bin_pattern_denotes (prev : option ascii) (c rest : str) :
  denotes IntentClassifier.bin_pattern prev c rest <->
  In c IntentClassifier.bin_forms /\
  word_before prev = false /\ word_after rest = false.
Proof.
  unfold IntentClassifier.bin_pattern, IntentClassifier.bin_forms. simpl. split.
  - intros (c1 & c2 & -> & [-> Hb] & c3 & c4 & -> & -> & c5 & c6 & -> & H5 & [-> Hb']).
    rewrite app_nil_r in *. simpl in Hb.
    unfold at_boundary in Hb. simpl in Hb.
    assert (Hp : word_before prev = false) by (destruct (word_before prev); auto).
    unfold at_boundary in Hb'.
    destruct (word_after rest) eqn:Hr;
      destruct H5 as [[->| [->| ->]]| ->];
      try (vm_compute in Hb'; discriminate Hb');
      (split; [simpl; tauto|]); split; auto.
  - intros (Hin & Hp & Hr).
    assert (Hcases : c = lit "bin" ++ [] \/ c = lit "bin" ++ lit "s" \/
                     c = lit "bin" ++ lit "ned" \/ c = lit "bin" ++ lit "ning").
    { simpl in Hin. simpl. intuition. }
    exists [], c. split; [reflexivity|]. split.
    { split; [reflexivity|]. unfold at_boundary. rewrite Hp.
      destruct Hcases as [->|[->|[->| ->]]]; reflexivity. }
    exists (lit "bin"). 
    destruct Hcases as [->|[->|[->| ->]]];
      eexists; (split; [reflexivity|]); (split; [reflexivity|]);
      eexists; exists [];
      (split; [now rewrite app_nil_r|]);
      (split; [simpl; tauto|]);
      (split; [reflexivity|]);
      unfold at_boundary; rewrite Hr; reflexivity.
Qed.

Lemma search_bin_pattern_spec (q : str) :
  search IntentClassifier.bin_pattern q = true <->
  IntentClassifier.standalone_bin_token q.
Proof.
  unfold search, IntentClassifier.standalone_bin_token.
  rewrite search_from_spec. split.
  - intros (pre & c & rest & H & Hd). apply bin_pattern_denotes in Hd.
    exists pre, c, rest. tauto.
  - intros (pre & c & rest & H & Hin & Hp & Hr).
    exists pre, c, rest. split; auto. apply bin_pattern_denotes. tauto.
Qed.

End RegexFacts.

Section ClassifierProofs.
Import Regex IntentClassifier.

(** The classifier answers True exactly when the lower-cased question
    contains a strong phrase or has a form of "bin" as a token of its own. *)
Lemma is_binning_question_spec (question : str) :
  is_binning_question question = true <->
  (exists w, In w strong /\ substring w (lower question)) \/
  standalone_bin_token (lower question).
Proof.
  unfold is_binning_question. cbv zeta.
  destruct (existsb (fun w => contains w (lower question)) strong) eqn:E.
  - split; auto. intros _. left.
    apply existsb_exists in E. destruct E as (w & Hin & Hw).
    exists w. split; auto. now apply contains_spec.
  - rewrite <- search_bin_pattern_spec.
    destruct (search bin_pattern (lower question)); split; auto.
    intros [(w & Hin & Hw)|H]; [|discriminate].
    assert (existsb (fun w => contains w (lower question)) strong = true);
      [|congruence].
    apply existsb_exists. exists w. split; auto. now apply contains_spec.
Qed.

(** C6, as the code has it.  A query whose lower-case form has no form of
    "bin" as a token of its own and contains none of the strong phrases is
    answered False; "Combine the results" is such a query. *)
Theorem no_token_no_phrase_is_not_binning :
  forall question,
    ~ standalone_bin_token (lower question) ->
    (forall w, In w strong -> ~ substring w (lower question)) ->
    is_binning_question question = false /\
    is_binning_question (lit "Combine the results") = false.
Proof.
  intros question Htok Hphrase. split; [|reflexivity].
  destruct (is_binning_question question) eqn:E; auto.
  apply is_binning_question_spec in E.
  destruct E as [(w & Hin & Hw)|H]; [|contradiction].
  exfalso. exact (Hphrase w Hin Hw).
Qed.

End ClassifierProofs.

(** C6, the counterexample: in "Run the test binary" the term "bin" occurs
    only inside the longer word "binary", never as a token of its own, and
    the classifier answers True: the strong phrase "test bin" is matched as
    a substring. *)
Lemma test_binary_is_classified_as_binning :
  ~ IntentClassifier.standalone_bin_token (lower (lit "Run the test binary")) /\
  IntentClassifier.is_binning_question (lit "Run the test binary") = true.
Proof.
  split; [|reflexivity].
  intros H. apply search_bin_pattern_spec in H. vm_compute in H. discriminate.
Qed.

(** The hypotheses of C6, as the code has it, hold for "Combine the
    results". *)
Lemma no_token_no_phrase_is_not_binning_witness :
  IntentClassifier.is_binning_question (lit "Combine the results") = false /\
  IntentClassifier.is_binning_question (lit "Combine the results") = false.
Proof.
  apply (@no_token_no_phrase_is_not_binning (lit "Combine the results")).
  - intros H. apply search_bin_pattern_spec in H. vm_compute in H. discriminate.
  - intros w Hin. apply contains_false_iff.
    simpl in Hin.
    repeat (destruct Hin as [<-|Hin]; [vm_compute; reflexivity|]).
    contradiction.
Defined.

(* ================================================================== *)
(** * Properties of the fusion engine *)
(* ================================================================== *)

Section CompressProofs.
Import FusionQuery.

Lemma slice_to_length (A : Type) (n : Z) (l : list A) :
  (0 <= n)%Z -> (Z.of_nat (length (slice_to n l)) <= n)%Z.
Proof.
  intros Hn. unfold slice_to.
  destruct (Z.leb_spec 0 n); [|lia].
  rewrite length_firstn. lia.
Qed.

Lemma slice_to_prefix (A : Type) (n : Z) (l : list A) :
  exists rest, l = slice_to n l ++ rest.
Proof.
  unfold slice_to. destruct (0 <=? n)%Z; eexists; symmetry; apply firstn_skipn.
Qed.

Lemma slice_to_incl (A : Type) (n : Z) (l : list A) :
  incl (slice_to n l) l.
Proof.
  destruct (slice_to_prefix n l) as [rest H].
  intros x Hx. rewrite H. apply in_or_app. now left.
Qed.

(** The fragments kept for one result: at most ten, none with the
    redundant pattern, all of them fragments of the context, and in the
    order of the context. *)
Lemma kept_parts_spec (r : retrieved) :
  length (kept_parts r) <= 10 /\
  Forall (fun p => contains (lit "subClassOf") p = false) (kept_parts r) /\
  incl (kept_parts r) (split_sep (lit " | ") (context r)) /\
  kept_parts r =
    firstn 10 (filter (fun p => negb (contains (lit "subClassOf") p))
                      (split_sep (lit " | ") (context r))).
Proof.
  unfold kept_parts.
  split; [apply firstn_le_length|]. split; [|split; [|reflexivity]].
  - apply Forall_forall. intros p Hp.
    apply slice_to_incl, filter_In in Hp. destruct Hp as [_ Hp].
    now apply negb_true_iff in Hp.
  - intros p Hp. apply slice_to_incl, filter_In in Hp. tauto.
Qed.

(** C8. For every list of retrieved primary results and every character
    budget (a non-negative integer; 1200 by default), compress_sct returns
    the first max_chars characters of the blocks joined by blank lines: at
    most max_chars characters, cut without regard to words.  The block of a
    result is its label in square brackets, a newline, and its kept
    fragments joined by " | "; the kept fragments are the first ten
    fragments of the context that do not contain "subClassOf". *)
Theorem compress_sct_within_budget :
  forall (retrieved_list : list retrieved) (max_chars : Z),
    (0 <= max_chars)%Z ->
    let out := compress_sct retrieved_list max_chars in
    let full :=
      join (nl ++ nl)
        (map (fun r => lit "[" ++ label r ++ lit "]" ++ nl
                       ++ join (lit " | ") (kept_parts r))
             retrieved_list) in
    (Z.of_nat (length out) <= max_chars)%Z /\
    out = firstn (Z.to_nat max_chars) full /\
    (exists rest, full = out ++ rest) /\
    (forall r, In r retrieved_list ->
       length (kept_parts r) <= 10 /\
       Forall (fun p => contains (lit "subClassOf") p = false) (kept_parts r) /\
       incl (kept_parts r) (split_sep (lit " | ") (context r)) /\
       kept_parts r =
         firstn 10 (filter (fun p => negb (contains (lit "subClassOf") p))
                           (split_sep (lit " | ") (context r)))) /\
    (Z.of_nat (length (compress_sct retrieved_list default_max_chars)) <= 1200)%Z.
Proof.
  intros rl max_chars Hn out full.
  split; [apply slice_to_length; exact Hn|].
  split.
  { unfold out, compress_sct, slice_to.
    destruct (Z.leb_spec 0 max_chars); [reflexivity|lia]. }
  split; [apply slice_to_prefix|].
  split; [intros r _; apply kept_parts_spec|].
  apply slice_to_length. unfold default_max_chars. lia.
Qed.

End CompressProofs.

(** The hypothesis of C8 holds for the default budget. *)
Lemma compress_sct_within_budget_witness :
  let out := FusionQuery.compress_sct Demo.retrieved_list 1200 in
  let full :=
    join (FusionQuery.nl ++ FusionQuery.nl)
      (map (fun r => lit "[" ++ FusionQuery.label r ++ lit "]" ++ FusionQuery.nl
                     ++ join (lit " | ") (FusionQuery.kept_parts r))
           Demo.retrieved_list) in
  (Z.of_nat (length out) <= 1200)%Z /\
  out = firstn (Z.to_nat 1200) full /\
  (exists rest, full = out ++ rest) /\
  (forall r, In r Demo.retrieved_list ->
     length (FusionQuery.kept_parts r) <= 10 /\
     Forall (fun p => contains (lit "subClassOf") p = false) (FusionQuery.kept_parts r) /\
     incl (FusionQuery.kept_parts r) (split_sep (lit " | ") (FusionQuery.context r)) /\
     FusionQuery.kept_parts r =
       firstn 10 (filter (fun p => negb (contains (lit "subClassOf") p))
                         (split_sep (lit " | ") (FusionQuery.context r)))) /\
  (Z.of_nat (length (FusionQuery.compress_sct Demo.retrieved_list
                       FusionQuery.default_max_chars)) <= 1200)%Z.
Proof.
  apply (@compress_sct_within_budget Demo.retrieved_list 1200%Z).
  lia.
Defined.

Example ex_compress_sct :
  FusionQuery.compress_sct Demo.retrieved_list 1200 =
    lit "[Wafer]" ++ FusionQuery.nl ++ lit "hasProcess Lithography | hasTest WaferSort"
    ++ FusionQuery.nl ++ FusionQuery.nl ++ lit "[Lot]" ++ FusionQuery.nl
    ++ lit "Lot hasPart Wafer" /\
  FusionQuery.compress_sct Demo.retrieved_list 10 = lit "[Wafer]" ++ FusionQuery.nl ++ lit "ha".
Proof. split; reflexivity. Qed.

Section FusionProofs.
Import FusionQuery.

Variable retrieve_sct_context : str -> Z -> list retrieved.
Variable retrieve_binning_chunks : str -> Z -> list str.
Variable chat_create : request -> str.

Lemma substring_join_lines (h : str) (ls : list str) :
  ~ In "010"%char h -> h <> [] ->
  substring h (join nl ls) -> Exists (substring h) ls.
Proof.
  intros Hc Hne. induction ls as [|x ls IH]; simpl.
  - intros (pre & post & H). destruct pre, h; try discriminate. congruence.
  - destruct ls as [|y ls]; [now constructor|].
    intros H. change (x ++ nl ++ join nl (y :: ls))
                with (x ++ "010"%char :: join nl (y :: ls)) in H.
    apply substring_split_at in H; [|exact Hc].
    destruct H as [H|H]; [now constructor|].
    apply Exists_cons_tl. now apply IH.
Qed.

(** A question the classifier sends past the secondary index does not
    contain the heading: the heading, in lower case, contains "binning". *)
Lemma heading_not_in_question (question : str) :
  IntentClassifier.is_binning_question question = false ->
  ~ substring rag_heading question.
Proof.
  unfold IntentClassifier.is_binning_question. cbv zeta.
  destruct (existsb _ IntentClassifier.strong) eqn:E; [discriminate|].
  intros _ Hsub.
  simpl in E. apply orb_false_elim in E. destruct E as [E _].
  apply contains_false_iff in E. apply E.
  apply substring_trans with (lower rag_heading).
  - apply contains_spec. vm_compute. reflexivity.
  - now apply substring_lower.
Qed.

(** C7, as the code has it.  For every query the classifier answers False
    for, fused_reasoning returns the empty string as the secondary context
    and sends a prompt whose secondary block is empty: the preamble, the
    compressed primary context, and the question.  The heading occurs in
    that prompt exactly when the compressed primary context itself
    contains it; the template contributes none. *)
Theorem non_binning_prompt_omits_secondary_block :
  forall question,
    IntentClassifier.is_binning_question question = false ->
    let sct_text :=
      compress_sct (retrieve_sct_context question TOP_K_SCT) default_max_chars in
    let prompt :=
      nl ++ RULES ++ nl ++ nl
      ++ lit "Digital Reference Context:" ++ nl
      ++ sct_text ++ nl ++ nl ++ nl ++ nl
      ++ lit "Question: " ++ question ++ nl ++ nl
      ++ lit "Provide a clear, technically correct, concise answer." ++ nl in
    fused_reasoning retrieve_sct_context retrieve_binning_chunks chat_create question
      = (strip (chat_create (mkRequest MODEL_LLM TEMPERATURE prompt)),
         sct_text, [], false) /\
    prompt_sent retrieve_sct_context retrieve_binning_chunks chat_create question
      = prompt /\
    contains rag_heading prompt = contains rag_heading sct_text.
Proof.
  intros question Hbin sct_text prompt.
  assert (Hfused :
    fused_reasoning retrieve_sct_context retrieve_binning_chunks chat_create question
    = (strip (chat_create (mkRequest MODEL_LLM TEMPERATURE prompt)),
       sct_text, [], false)).
  { unfold fused_reasoning. rewrite Hbin. reflexivity. }
  split; [exact Hfused|]. split.
  { unfold prompt_sent. rewrite Hfused. reflexivity. }
  apply eq_true_iff_eq. rewrite !contains_spec. split.
  - intros Hsub.
    assert (Hlines : prompt =
      join nl [ []; RULES; []; lit "Digital Reference Context:"; sct_text;
                []; []; []; lit "Question: " ++ question; [];
                lit "Provide a clear, technically correct, concise answer."; [] ]).
    { unfold prompt. cbn [join]. rewrite !app_nil_r. reflexivity. }
    rewrite Hlines in Hsub.
    apply substring_join_lines in Hsub;
      [| vm_compute; intuition discriminate | discriminate ].
    repeat match goal with
           | H : Exists _ (_ :: _) |- _ =>
               apply Exists_cons in H; destruct H as [H|H]
           | H : Exists _ [] |- _ => inversion H
           | H : substring rag_heading [] |- _ =>
               apply contains_spec in H; discriminate H
           end; auto.
    + apply contains_spec in Hsub. vm_compute in Hsub. discriminate.
    + apply contains_spec in Hsub. vm_compute in Hsub. discriminate.
    + exfalso. apply (heading_not_in_question Hbin).
      apply (@substring_after_prefix _ _ (lit "Question: ") question);
        [vm_compute; intuition discriminate | exact Hsub].
    + apply contains_spec in Hsub. vm_compute in Hsub. discriminate.
  - intros Hsub. unfold prompt.
    do 6 apply substring_app_r. now apply substring_app_l.
Qed.

End FusionProofs.

(** C7, the counterexample: the classifier answers False for the question,
    the secondary context is empty, and yet the prompt contains the
    heading, because the label of a retrieved primary result carries it. *)
Lemma heading_from_primary_context :
  let question := lit "What is a wafer?" in
  IntentClassifier.is_binning_question question = false /\
  snd (fst (FusionQuery.fused_reasoning Demo.heading_in_index Demo.no_chunks
              Demo.echo question)) = [] /\
  contains FusionQuery.rag_heading
    (FusionQuery.prompt_sent Demo.heading_in_index Demo.no_chunks Demo.echo question)
  = true.
Proof. vm_compute. repeat split; reflexivity. Qed.

(** The hypothesis of C7, as the code has it, holds for a plain question. *)
Lemma non_binning_prompt_omits_secondary_block_witness :
  let question := lit "What is a wafer?" in
  let sct_text :=
    FusionQuery.compress_sct (Demo.plain_index question FusionQuery.TOP_K_SCT)
      FusionQuery.default_max_chars in
  let prompt :=
    FusionQuery.nl ++ FusionQuery.RULES ++ FusionQuery.nl ++ FusionQuery.nl
    ++ lit "Digital Reference Context:" ++ FusionQuery.nl
    ++ sct_text ++ FusionQuery.nl ++ FusionQuery.nl ++ FusionQuery.nl ++ FusionQuery.nl
    ++ lit "Question: " ++ question ++ FusionQuery.nl ++ FusionQuery.nl
    ++ lit "Provide a clear, technically correct, concise answer." ++ FusionQuery.nl in
  FusionQuery.fused_reasoning Demo.plain_index Demo.no_chunks Demo.echo question
    = (strip (Demo.echo (FusionQuery.mkRequest FusionQuery.MODEL_LLM
                           FusionQuery.TEMPERATURE prompt)),
       sct_text, [], false) /\
  FusionQuery.prompt_sent Demo.plain_index Demo.no_chunks Demo.echo question = prompt /\
  contains FusionQuery.rag_heading prompt = contains FusionQuery.rag_heading sct_text.
Proof.
  apply (@non_binning_prompt_omits_secondary_block Demo.plain_index Demo.no_chunks
           Demo.echo (lit "What is a wafer?")).
  vm_compute. reflexivity.
Defined.

(* ================================================================== *)
(** * The answer orchestrator *)
(* ================================================================== *)

Section SplitFacts.

Lemma split_ws_from_word (w : str) :
  Forall (fun c => isspace c = false) w ->
  forall cur s, split_ws_from cur (w ++ s) = split_ws_from (rev w ++ cur) s.
Proof.
  induction 1 as [|c w Hc _ IH]; intros cur s; simpl; auto.
  rewrite Hc, IH, <- app_assoc. reflexivity.
Qed.

Lemma join_cons (sep x y : str) (l : list str) :
  join sep (x :: y :: l) = x ++ sep ++ join sep (y :: l).
Proof. reflexivity. Qed.

Lemma split_ws_from_space (cur s : str) :
  cur <> [] ->
  split_ws_from cur (lit " " ++ s) = rev cur :: split_ws_from [] s.
Proof. destruct cur; [congruence|reflexivity]. Qed.

(** Splitting what [" ".join] made of words gives the words back. *)
Lemma split_ws_join (ws : list str) :
  Forall is_word_of_split ws -> split_ws (join (lit " ") ws) = ws.
Proof.
  unfold split_ws.
  induction 1 as [|w ws [Hne Hw] Hws IH]; auto.
  assert (Hrev : rev w <> []).
  { intros E. apply Hne. rewrite <- (rev_involutive w), E. reflexivity. }
  destruct ws as [|w' ws].
  - cbn [join]. rewrite <- (app_nil_r w) at 1.
    rewrite split_ws_from_word, app_nil_r by exact Hw. simpl.
    destruct (rev w) eqn:E; [congruence|]. now rewrite <- E, rev_involutive.
  - rewrite join_cons, split_ws_from_word, app_nil_r by exact Hw.
    rewrite split_ws_from_space by exact Hrev.
    rewrite rev_involutive. f_equal. exact IH.
Qed.

(** What [" ".join(words) + marker] is, word by word. *)
Lemma join_marker (sep marker : str) (ws : list str) (d : str) :
  ws <> [] ->
  join sep ws ++ marker = join sep (removelast ws ++ [last ws d ++ marker]).
Proof.
  induction ws as [|w ws IH]; intros Hne; [congruence|].
  destruct ws as [|w' ws]; [reflexivity|].
  change (removelast (w :: w' :: ws)) with (w :: removelast (w' :: ws)).
  change (last (w :: w' :: ws) d) with (last (w' :: ws) d).
  rewrite join_cons, <- app_comm_cons.
  destruct (removelast (w' :: ws) ++ [last (w' :: ws) d ++ marker]) eqn:E.
  - destruct (removelast (w' :: ws)); discriminate.
  - rewrite join_cons, <- IH by discriminate. now rewrite <- !app_assoc.
Qed.

Lemma split_ws_from_words (s : str) :
  forall cur,
    Forall (fun c => isspace c = false) cur ->
    Forall is_word_of_split (split_ws_from cur s).
Proof.
  assert (Hrev : forall cur : str, cur <> [] ->
            Forall (fun c => isspace c = false) cur -> is_word_of_split (rev cur)).
  { intros cur Hne Hall. split.
    - intros E. apply Hne. rewrite <- (rev_involutive cur), E. reflexivity.
    - apply Forall_forall. intros c Hc. apply in_rev in Hc.
      rewrite Forall_forall in Hall. auto. }
  induction s as [|c s IH]; intros cur Hcur; simpl.
  - destruct cur; constructor; auto. apply Hrev; [discriminate|exact Hcur].
  - destruct (isspace c) eqn:Hc.
    + destruct cur; auto. constructor; auto. apply Hrev; [discriminate|exact Hcur].
    + apply IH. constructor; auto.
Qed.

Lemma split_ws_words (s : str) : Forall is_word_of_split (split_ws s).
Proof. apply split_ws_from_words. constructor. Qed.

(** [" ".join(words[:n]) + "..."] has as many words as [words[:n]], when
    there is at least one: the marker attaches to the last of them. *)
Lemma truncated_word_count (ws : list str) :
  Forall is_word_of_split ws -> ws <> [] ->
  length (split_ws (join (lit " ") ws ++ lit "...")) = length ws.
Proof.
  intros Hws Hne.
  rewrite (join_marker (lit " ") (lit "...") [] Hne).
  rewrite split_ws_join.
  - rewrite length_app. simpl.
    destruct ws; [congruence|]. rewrite (app_removelast_last [] (l:=s :: ws)) at 2
      by discriminate.
    rewrite length_app. reflexivity.
  - apply Forall_app. split.
    + rewrite Forall_forall in *. intros w Hin. apply Hws.
      rewrite (app_removelast_last [] Hne). apply in_or_app. now left.
    + constructor; [|constructor].
      assert (Hlast : is_word_of_split (last ws [])).
      { rewrite Forall_forall in Hws. apply Hws.
        rewrite (app_removelast_last [] Hne) at 2.
        apply in_or_app. right. now left. }
      destruct Hlast as [Hl1 Hl2]. split.
      * destruct (last ws []); [congruence|discriminate].
      * apply Forall_app. split; [exact Hl2|].
        repeat constructor.
Qed.

End SplitFacts.

Section AskProofs.
Import GptClient.

Variable backend : Type.
Variable create : backend -> call -> reply * backend.
Variable self : GPTClient.

(** C4. With a generation stub that answers every call with more than 200
    words, ask with max_retries = 2 issues two calls: the first with the
    rules and the query, the second with, appended to them, the first
    answer as the assistant's turn and the instruction that states its word
    count.  It returns the first 200 whitespace-split words of the second
    answer joined by single spaces, followed by "..."; that text has 200
    words, the marker attached to the last one. *)
Theorem ask_truncates_after_two_attempts :
  forall (query : str) (b : backend),
    (forall b0 c, exists content b',
        create b0 c = (Completion content, b') /\
        200 < length (split_ws (strip content))) ->
    exists content1 b1 content2 b2,
      let messages0 :=
        [ mkMessage (lit "system") (rules self); mkMessage (lit "user") query ] in
      let call1 := mkCall (client self) (model self) messages0 (temperature self) 10 in
      let text1 := strip content1 in
      let messages1 :=
        messages0 ++
        [ mkMessage (lit "assistant") text1;
          mkMessage (lit "user")
            (lit "Please provide a shorter response (under 200 words). Current response has "
             ++ str_of_nat (length (split_ws text1)) ++ lit " words.") ] in
      let call2 := mkCall (client self) (model self) messages1 (temperature self) 10 in
      let words := split_ws (strip content2) in
      let answer := join (lit " ") (firstn 200 words) ++ lit "..." in
      create b call1 = (Completion content1, b1) /\
      create b1 call2 = (Completion content2, b2) /\
      ask create self query 2 b = (answer, b2, [call1; call2]) /\
      length (firstn 200 words) = 200 /\
      length (split_ws answer) = 200.
Proof.
  intros query b Hstub.
  set (messages0 :=
         [ mkMessage (lit "system") (rules self); mkMessage (lit "user") query ]).
  destruct (Hstub b (mkCall (client self) (model self) messages0 (temperature self) 10))
    as (content1 & b1 & E1 & Hlong1).
  set (messages1 :=
         messages0 ++
         [ mkMessage (lit "assistant") (strip content1);
           mkMessage (lit "user")
             (shorter_please (length (split_ws (strip content1)))) ]).
  destruct (Hstub b1 (mkCall (client self) (model self) messages1 (temperature self) 10))
    as (content2 & b2 & E2 & Hlong2).
  exists content1, b1, content2, b2. cbv zeta.
  fold messages0. unfold shorter_please in messages1. fold messages1.
  split; [exact E1|]. split; [exact E2|].
  assert (Hlen : length (firstn 200 (split_ws (strip content2))) = 200).
  { rewrite length_firstn. lia. }
  split; [|split; [exact Hlen|]].
  - unfold ask. change (Z.to_nat 2) with 2.
    fold messages0. cbn [ask_loop]. rewrite E1.
    unfold WORD_LIMIT.
    destruct (Nat.ltb_spec 200 (length (split_ws (strip content1)))); [|lia].
    change (1 <? 2)%Z with true. cbv iota.
    unfold shorter_please. fold messages1. rewrite E2.
    destruct (Nat.ltb_spec 200 (length (split_ws (strip content2)))); [|lia].
    change (1 + 1 <? 2)%Z with false. cbv iota.
    reflexivity.
  - rewrite truncated_word_count; [exact Hlen| |].
    + pose proof (split_ws_words (strip content2)) as Hw.
      rewrite Forall_forall in *. intros w Hin. apply Hw.
      rewrite <- (firstn_skipn 200 (split_ws (strip content2))).
      apply in_or_app. now left.
    + intros E. rewrite E in Hlen. discriminate.
Qed.

End AskProofs.

(** The hypothesis of C4 holds for a stub that always answers with the same
    250 words. *)
Lemma ask_truncates_after_two_attempts_witness :
  exists content1 b1 content2 b2,
    let messages0 :=
      [ GptClient.mkMessage (lit "system") (GptClient.rules Demo.gpt);
        GptClient.mkMessage (lit "user") (lit "What is binning?") ] in
    let call1 :=
      GptClient.mkCall (GptClient.client Demo.gpt) (GptClient.model Demo.gpt)
        messages0 (GptClient.temperature Demo.gpt) 10 in
    let text1 := strip content1 in
    let messages1 :=
      messages0 ++
      [ GptClient.mkMessage (lit "assistant") text1;
        GptClient.mkMessage (lit "user")
          (lit "Please provide a shorter response (under 200 words). Current response has "
           ++ str_of_nat (length (split_ws text1)) ++ lit " words.") ] in
    let call2 :=
      GptClient.mkCall (GptClient.client Demo.gpt) (GptClient.model Demo.gpt)
        messages1 (GptClient.temperature Demo.gpt) 10 in
    let words := split_ws (strip content2) in
    let answer := join (lit " ") (firstn 200 words) ++ lit "..." in
    Demo.verbose_stub 0 call1 = (GptClient.Completion content1, b1) /\
    Demo.verbose_stub b1 call2 = (GptClient.Completion content2, b2) /\
    GptClient.ask Demo.verbose_stub Demo.gpt (lit "What is binning?") 2 0
      = (answer, b2, [call1; call2]) /\
    length (firstn 200 words) = 200 /\
    length (split_ws answer) = 200.
Proof.
  apply (@ask_truncates_after_two_attempts nat Demo.verbose_stub Demo.gpt
           (lit "What is binning?") 0).
  intros b0 c. exists Demo.long_answer, (S b0).
  split; [reflexivity|]. vm_compute. lia.
Defined.

Example ex_ask_250_words :
  fst (fst (GptClient.ask Demo.verbose_stub Demo.gpt (lit "What is binning?") 2 0))
  = join (lit " ") (repeat (lit "yield") 200) ++ lit "..." /\
  length (GptClient.call_messages
            (last (snd (GptClient.ask Demo.verbose_stub Demo.gpt
                          (lit "What is binning?") 2 0))
                  (GptClient.mkCall (GptClient.DefaultClient []) [] [] 0%float 0)))
  = 4 /\
  GptClient.shorter_please 250 =
    lit "Please provide a shorter response (under 200 words). Current response has 250 words.".
Proof. vm_compute. repeat split; reflexivity. Qed.

(* ================================================================== *)
(** * Index builds from zero entries *)
(* ================================================================== *)

Section EmptyBuilds.

Lemma try_batch_all_fail (service : Type)
      (embed_batch : service -> list str -> option (list Numpy.vector) * service) :
  (forall w b, fst (embed_batch w b) = None) ->
  forall n w b, fst (BuildFaissIndex.try_batch embed_batch n w b) = [].
Proof.
  intros Hfail n. induction n as [|n IH]; intros w b; simpl; auto.
  specialize (Hfail w b). destruct (embed_batch w b) as [[vs|] w']; simpl in *.
  - discriminate.
  - apply IH.
Qed.

Lemma embed_all_all_fail (service : Type)
      (embed_batch : service -> list str -> option (list Numpy.vector) * service) :
  (forall w b, fst (embed_batch w b) = None) ->
  forall bs w, fst (BuildFaissIndex.embed_all embed_batch w bs []) = [].
Proof.
  intros Hfail bs. induction bs as [|b bs IH]; intros w; [reflexivity|].
  cbn [BuildFaissIndex.embed_all].
  pose proof (try_batch_all_fail embed_batch Hfail 3 w b) as H.
  destruct (BuildFaissIndex.try_batch embed_batch 3 w b) as [vs w'].
  cbn [fst] in H. subst vs. apply IH.
Qed.

(** C5. None of the three index builds produces an index from zero
    entries.  build_faiss_index.py exits with "[ERROR] No embeddings
    generated..." on an empty corpus (and whenever every batch fails);
    the load of SCT_fusion_query.py stops at np.vstack's ValueError when
    the file has no non-blank line; embed_chunks.py prints "[ERROR] No
    chunks found..." and returns before the loop, whatever the checkpoint
    files hold. *)
Theorem zero_entries_build_no_index :
  (forall (service : Type)
          (embed_batch : service -> list str -> option (list Numpy.vector) * service)
          (normalize_L2 : Numpy.matrix -> Numpy.matrix) (w : service),
      BuildFaissIndex.build embed_batch normalize_L2 w []
      = BuildFaissIndex.SystemExit
          (lit "[ERROR] No embeddings generated. Check credentials or network/VPN.")
      /\ forall corpus,
           (forall w' b, fst (embed_batch w' b) = None) ->
           BuildFaissIndex.build embed_batch normalize_L2 w corpus
           = BuildFaissIndex.SystemExit
               (lit "[ERROR] No embeddings generated. Check credentials or network/VPN."))
  /\ (forall (parse_line : str -> FusionQuery.condition)
             (normalize_L2 : Numpy.matrix -> Numpy.matrix) (lines : list str),
         FusionQuery.load_semantic_conditions parse_line normalize_L2 []
         = FusionQuery.LoadRaisedValueError
         /\ (Forall (fun line => strip line = []) lines ->
             FusionQuery.load_semantic_conditions parse_line normalize_L2 lines
             = FusionQuery.LoadRaisedValueError))
  /\ (forall (service : Type)
             (embed_text : service -> str -> EmbedChunks.embed_reply * service)
             (refresh_client : service -> option service)
             (normalize_L2 : Numpy.matrix -> Numpy.matrix)
             (fs : EmbedChunks.files) (w : service),
         EmbedChunks.main embed_text refresh_client normalize_L2 fs w []
         = EmbedChunks.NoChunks service
             (lit "[ERROR] No chunks found. Run load_pdfs.py first to generate chunks.")).
Proof.
  split; [|split].
  - intros service embed_batch normalize_L2 w. split; [reflexivity|].
    intros corpus Hfail. unfold BuildFaissIndex.build.
    pose proof (embed_all_all_fail embed_batch Hfail
                  (BuildFaissIndex.batches
                     (length (map BuildFaissIndex.entry_text corpus))
                     (map BuildFaissIndex.entry_text corpus)) w) as H.
    destruct (BuildFaissIndex.embed_all embed_batch w _ []) as [vs w'].
    simpl in H. now subst vs.
  - intros parse_line normalize_L2 lines. split; [reflexivity|].
    intros Hblank. unfold FusionQuery.load_semantic_conditions.
    replace (filter (fun line => match strip line with [] => false | _ => true end) lines)
      with (@nil str); [reflexivity|].
    induction Hblank as [|l ls Hl _ IH]; simpl; auto.
    now rewrite Hl.
  - intros service embed_text refresh_client normalize_L2 fs w.
    unfold EmbedChunks.main. now destruct (EmbedChunks.load_checkpoint fs).
Qed.

End EmptyBuilds.

(* ================================================================== *)
(** * Parsing the follow-up suggestions *)
(* ================================================================== *)

Section FollowupProofs.
Import App.

Lemma find_sep_char_absent (c : ascii) (s : str) :
  ~ In c s -> find_sep [c] s = None.
Proof.
  induction s as [|a s IH]; intros Hc; [reflexivity|].
  cbn [find_sep startswith].
  destruct (Ascii.eqb_spec c a) as [->|Hne]; [exfalso; apply Hc; now left|].
  cbn [andb]. rewrite IH; [reflexivity|]. intros H. apply Hc. now right.
Qed.

Lemma find_sep_char_first (c : ascii) (a b : str) :
  ~ In c a -> find_sep [c] (a ++ c :: b) = Some (a, b).
Proof.
  induction a as [|x a IH]; intros Hc.
  - cbn [app find_sep startswith]. rewrite Ascii.eqb_refl. reflexivity.
  - cbn [app find_sep startswith].
    destruct (Ascii.eqb_spec c x) as [->|Hne]; [exfalso; apply Hc; now left|].
    cbn [andb]. rewrite IH; [reflexivity|]. intros H. apply Hc. now right.
Qed.

(** What the parser does get right: a line numbered 1 to 9 whose text has
    no closing parenthesis (after "<n>. ") or no full stop (after "<n>) ")
    is recognised, and the prefix is removed. *)
Lemma followup_line_without_delimiters (n : nat) (text : str) :
  1 <= n <= 9 ->
  (~ In ")"%char text ->
   numbered (str_of_nat n ++ lit ". " ++ text) = true /\
   remove_prefix (str_of_nat n ++ lit ". " ++ text) = strip text) /\
  (~ In "."%char text ->
   numbered (str_of_nat n ++ lit ") " ++ text) = true /\
   remove_prefix (str_of_nat n ++ lit ") " ++ text) = strip text).
Proof.
  intros Hn.
  assert (Hdigit : exists dd, str_of_nat n = [dd] /\ dd <> "."%char /\ dd <> ")"%char
                              /\ numbered (dd :: lit ". " ++ text) = true
                              /\ numbered (dd :: lit ") " ++ text) = true).
  { destruct n as [|[|[|[|[|[|[|[|[|[|n]]]]]]]]]]; try lia;
      eexists; (split; [reflexivity|]); repeat split; try discriminate. }
  destruct Hdigit as (dd & -> & Hdot & Hpar & Hnum1 & Hnum2).
  split; intros Hc.
  - split; [exact Hnum1|]. unfold remove_prefix, last_item.
    change ([dd] ++ lit ". " ++ text) with ([dd] ++ "."%char :: " "%char :: text).
    cbn [split_max]. change (lit ".") with ["."%char].
    rewrite find_sep_char_first by (simpl; intuition congruence).
    cbn [last]. change (lit ")") with [")"%char].
    rewrite find_sep_char_absent by (simpl; intuition discriminate).
    reflexivity.
  - split; [exact Hnum2|]. unfold remove_prefix, last_item.
    change ([dd] ++ lit ") " ++ text) with ([dd] ++ ")"%char :: " "%char :: text).
    cbn [split_max]. change (lit ".") with ["."%char].
    rewrite find_sep_char_absent by (simpl; intuition (congruence || discriminate)).
    cbn [last]. change (lit ")") with [")"%char].
    rewrite find_sep_char_first by (simpl; intuition congruence).
    reflexivity.
Qed.

End FollowupProofs.

(** C9, at the failing inputs: a text with a closing parenthesis after
    "1. ", and a text with a full stop after "2) ", lose everything up to
    that character. *)
Lemma followup_text_is_cut_at_inner_delimiter :
  App.parse_followups (lit "1. What is yield (Y)?") = [lit "?"] /\
  App.parse_followups (lit "2) What is e.g. Cpk?") = [lit "g. Cpk?"] /\
  App.parse_followups (lit "3. How is Cpk (process capability) computed?")
  = [lit "computed?"].
Proof. repeat split; reflexivity. Qed.

(* ================================================================== *)
(** * Construction of the GPT client *)
(* ================================================================== *)

Section ClientProofs.
Import GptClient.

(** Whenever the token request fails, _setup_gpt4ifx_client prints the
    failure and calls OpenAI(): the result is that constructor's. *)
Lemma setup_falls_back (env : environment) :
  auth_failed (auth env) ->
  exists msg,
    _setup_gpt4ifx_client env =
    (match default_openai env with
     | Some c => Returned c
     | None => Raised OpenAIError
     end,
     [lit "Failed to setup GPT4IFX client: " ++ msg]).
Proof.
  unfold _setup_gpt4ifx_client, auth_failed.
  destruct (auth env) as [sc tok|msg]; intros H; [|eauto].
  destruct (Z.eqb_spec sc 200); [|eauto].
  destruct H as [H|[->| ->]]; [contradiction| |]; eauto.
Qed.

Variable backend : Type.
Variable create : backend -> call -> reply * backend.

Lemma ask_loop_calls (self : GPTClient) (remaining : nat) :
  forall attempt max_retries messages b calls,
    Forall (fun c => call_client c = client self) calls ->
    Forall (fun c => call_client c = client self)
           (snd (ask_loop create self remaining attempt max_retries messages b calls)).
Proof.
  induction remaining as [|k IH]; intros attempt max_retries messages b calls Hc;
    cbn [ask_loop]; [exact Hc|].
  destruct (create b _) as [[content|e] b1].
  - cbv zeta.
    assert (Hc1 : Forall (fun c => call_client c = client self)
                    (calls ++ [mkCall (client self) (model self) messages
                                 (temperature self) 10])).
    { apply Forall_app. split; [exact Hc|]. repeat constructor. }
    destruct (WORD_LIMIT <? _); [|exact Hc1].
    destruct (attempt <? max_retries)%Z; [|exact Hc1].
    apply IH. exact Hc1.
  - assert (Hc1 : Forall (fun c => call_client c = client self)
                    (calls ++ [mkCall (client self) (model self) messages
                                 (temperature self) 10])).
    { apply Forall_app. split; [exact Hc|]. repeat constructor. }
    destruct (attempt >=? max_retries)%Z; [exact Hc1|].
    apply IH. exact Hc1.
Qed.

(** When OpenAI() returns a client, a failed token request does not stop
    the construction: the GPTClient holds that fallback client and every
    call of ask goes through it. *)
Lemma init_with_fallback_client (env : environment) model0 temperature0 content c :
  sdk_available env = true ->
  rules_file env = Some content ->
  auth_failed (auth env) ->
  default_openai env = Some c ->
  init env model0 temperature0
    = Returned (mkClient (strip content) model0 temperature0 c) /\
  forall query max_retries b,
    Forall (fun cl => call_client cl = c)
           (snd (ask create (mkClient (strip content) model0 temperature0 c)
                   query max_retries b)).
Proof.
  intros Hsdk Hrules Hauth Hdef. split.
  - unfold init. rewrite Hsdk, Hrules. cbn [negb].
    destruct (setup_falls_back env Hauth) as [msg ->].
    now rewrite Hdef.
  - intros query max_retries b. unfold ask.
    apply (ask_loop_calls (mkClient (strip content) model0 temperature0 c)).
    constructor.
Qed.

End ClientProofs.

(** C10, at the failing input: the token request is answered with status
    401 and no API key is configured, so the OpenAI() of the except branch
    raises and the construction raises with it. *)
Lemma fallback_constructor_error_leaves_init :
  GptClient._setup_gpt4ifx_client Demo.env_without_api_key
    = (GptClient.Raised GptClient.OpenAIError,
       [lit "Failed to setup GPT4IFX client: Authentication failed with status 401"]) /\
  GptClient.init Demo.env_without_api_key (lit "gpt-4o") 0.4%float
    = GptClient.Raised GptClient.OpenAIError.
Proof. split; reflexivity. Qed.

(* ================================================================== *)
(** * The supplementary lemmas at concrete inputs *)
(* ================================================================== *)

(** The run over the three chunks, uninterrupted and resumed after the
    first: the same vectors and the same index. *)
Lemma resume_reproduces_uninterrupted_run_witness :
  match EmbedChunks.main Demo.embed_text Demo.refresh_client Demo.normalize_L2
          EmbedChunks.no_files 0
          ([Demo.chunk_of 0 "wafer sort"]
           ++ [Demo.chunk_of 1 "bin map"; Demo.chunk_of 2 "yield loss"]),
        EmbedChunks.main Demo.embed_text Demo.refresh_client Demo.normalize_L2
          Demo.checkpoint (EmbedChunks.svc Demo.after_first_chunk)
          ([Demo.chunk_of 0 "wafer sort"]
           ++ [Demo.chunk_of 1 "bin map"; Demo.chunk_of 2 "yield loss"])
  with
  | EmbedChunks.Built idx0 _ st0, EmbedChunks.Built idx _ st =>
      idx = idx0 /\ EmbedChunks.vectors st = EmbedChunks.vectors st0
  | EmbedChunks.Failed e0 st0, EmbedChunks.Failed e st =>
      e = e0 /\ EmbedChunks.vectors st = EmbedChunks.vectors st0
  | EmbedChunks.NoChunks _ _, EmbedChunks.NoChunks _ _ => True
  | _, _ => False
  end.
Proof.
  apply (@resume_reproduces_uninterrupted_run nat Demo.embed_text
           Demo.refresh_client Demo.normalize_L2 0
           [Demo.chunk_of 0 "wafer sort"]
           [Demo.chunk_of 1 "bin map"; Demo.chunk_of 2 "yield loss"]
           Demo.after_first_chunk Demo.checkpoint).
  - reflexivity.
  - reflexivity.
Defined.

(** What the uninterrupted run over the three chunks requests: the second
    chunk twice (bad request, refresh, retry), the others once. *)
Example ex_uninterrupted_requests :
  option_map (fun st => map fst (EmbedChunks.embeds (EmbedChunks.trace st)))
    (EmbedChunks.result_state
       (EmbedChunks.main Demo.embed_text Demo.refresh_client Demo.normalize_L2
          EmbedChunks.no_files 0 Demo.docs))
  = Some [0; 1; 1; 2].
Proof. vm_compute. reflexivity. Qed.

Lemma followup_line_without_delimiters_witness :
  (~ In ")"%char (lit "What is yield?") ->
   App.numbered (str_of_nat 1 ++ lit ". " ++ lit "What is yield?") = true /\
   App.remove_prefix (str_of_nat 1 ++ lit ". " ++ lit "What is yield?")
   = strip (lit "What is yield?")) /\
  (~ In "."%char (lit "What is yield?") ->
   App.numbered (str_of_nat 1 ++ lit ") " ++ lit "What is yield?") = true /\
   App.remove_prefix (str_of_nat 1 ++ lit ") " ++ lit "What is yield?")
   = strip (lit "What is yield?")).
Proof.
  apply (@followup_line_without_delimiters 1 (lit "What is yield?")). lia.
Defined.

Lemma init_with_fallback_client_witness :
  GptClient.init Demo.env_with_api_key (lit "gpt-4o") 0.4%float
    = GptClient.Returned
        (GptClient.mkClient (strip (lit "Answer as an Infineon assistant."))
           (lit "gpt-4o") 0.4%float (GptClient.DefaultClient (lit "sk-unrelated"))) /\
  forall query max_retries b,
    Forall (fun cl => GptClient.call_client cl
                      = GptClient.DefaultClient (lit "sk-unrelated"))
           (snd (GptClient.ask Demo.verbose_stub
                   (GptClient.mkClient (strip (lit "Answer as an Infineon assistant."))
                      (lit "gpt-4o") 0.4%float
                      (GptClient.DefaultClient (lit "sk-unrelated")))
                   query max_retries b)).
Proof.
  apply (@init_with_fallback_client nat Demo.verbose_stub Demo.env_with_api_key
           (lit "gpt-4o") 0.4%float (lit "Answer as an Infineon assistant.")
           (GptClient.DefaultClient (lit "sk-unrelated"))).
  - reflexivity.
  - reflexivity.
  - cbv. left. discriminate.
  - reflexivity.
Defined.

(* ================================================================== *)
(** * Chunking of the extracted text *)
(* ================================================================== *)

Section ChunkingProofs.
Import LoadPdfs.

Lemma clamp_index_inside (n : nat) (i : Z) :
  (0 <= i <= Z.of_nat n)%Z -> clamp_index n i = Z.to_nat i.
Proof.
  intros H. unfold clamp_index. cbv zeta.
  destruct (Z.ltb_spec i 0); [lia|]. f_equal. lia.
Qed.

Lemma slice_inside (A : Type) (a b : Z) (l : list A) :
  (0 <= a <= b)%Z -> (b <= Z.of_nat (length l))%Z ->
  slice a b l = firstn (Z.to_nat (b - a)) (skipn (Z.to_nat a) l).
Proof.
  intros H1 H2. unfold slice. cbv zeta.
  rewrite !clamp_index_inside by lia. f_equal. lia.
Qed.

Lemma skipn_app_short (A : Type) (n : nat) (l1 l2 : list A) :
  n <= length l1 -> skipn n (l1 ++ l2) = skipn n l1 ++ l2.
Proof.
  intros H. rewrite skipn_app. replace (n - length l1) with 0 by lia.
  reflexivity.
Qed.

Section Window.

Variable text : str.
Variables max_len overlap : Z.
Hypothesis overlap_fits : (0 <= overlap < max_len)%Z.

Let len := Z.of_nat (length text).
Let ov := Z.to_nat overlap.
Let width := Z.to_nat max_len.

(** The loop from a position [start] that leaves more than [overlap]
    characters: it ends, and its chunks are the windows of the rest of the
    text. *)
Lemma chunk_loop_windows (fuel : nat) :
  forall start,
    (0 <= start < len)%Z ->
    (len - start <= Z.of_nat fuel)%Z ->
    (overlap < len - start)%Z ->
    exists cs,
      chunk_loop fuel text max_len overlap start = Some cs /\
      hd [] cs = firstn width (skipn (Z.to_nat start) text) /\
      reassemble ov cs = skipn (Z.to_nat start) text /\
      Forall (fun c => ov < length c <= width) cs /\
      chained ov cs.
Proof.
  induction fuel as [|f IH]; intros start Hs Hfuel Hov; [lia|].
  cbn [chunk_loop]. fold len.
  destruct (Z.ltb_spec start len); [|lia].
  assert (Hrest : length (skipn (Z.to_nat start) text) = Z.to_nat (len - start)).
  { rewrite length_skipn. unfold len. lia. }
  destruct (Z.geb_spec (Z.min (start + max_len) len) len) as [Hend|Hend].
  - (* the last window *)
    assert (Hmin : Z.min (start + max_len) len = len) by lia.
    rewrite Hmin.
    assert (Hc : slice start len text = skipn (Z.to_nat start) text).
    { rewrite slice_inside by (unfold len; lia).
      apply firstn_all2. rewrite Hrest. lia. }
    rewrite Hc. eexists. split; [reflexivity|].
    cbn [hd reassemble map concat]. rewrite app_nil_r.
    split; [symmetry; apply firstn_all2; rewrite Hrest; unfold width; lia|].
    split; [reflexivity|]. split; [|exact I].
    constructor; [|constructor]. rewrite Hrest. unfold ov, width. lia.
  - (* a full window, and the loop goes on [overlap] characters back *)
    assert (Hmin : Z.min (start + max_len) len = (start + max_len)%Z) by lia.
    rewrite Hmin.
    assert (Hc : slice start (start + max_len) text
                 = firstn width (skipn (Z.to_nat start) text)).
    { rewrite slice_inside by (unfold len in *; lia).
      f_equal. unfold width. f_equal. lia. }
    rewrite Hc.
    destruct (IH (start + max_len - overlap)%Z) as (cs & E & Hhd & Hre & Hall & Hch);
      try lia.
    rewrite E. eexists. split; [reflexivity|].
    assert (Hwidth : length (firstn width (skipn (Z.to_nat start) text)) = width).
    { rewrite length_firstn, Hrest. unfold width. lia. }
    assert (Hnext : Z.to_nat (start + max_len - overlap) = Z.to_nat start + width - ov)
      by (unfold width, ov; lia).
    destruct cs as [|c' rest]; [discriminate Hre || (cbn in Hre;
      assert (length (skipn (Z.to_nat (start + max_len - overlap)) text) = 0)
        by (now rewrite <- Hre); rewrite length_skipn in *; unfold len in *; lia)|].
    cbn [hd] in Hhd.
    pose proof (Forall_inv Hall) as Hc'. cbn beta in Hc'.
    split; [reflexivity|]. split; [|split].
    + cbn [reassemble map concat].
      cbn [reassemble] in Hre.
      rewrite <- skipn_app_short by lia.
      rewrite Hre, skipn_skipn, Hnext.
      replace (ov + (Z.to_nat start + width - ov)) with (width + Z.to_nat start)
        by (unfold ov, width; lia).
      rewrite <- skipn_skipn. apply firstn_skipn.
    + constructor; [rewrite Hwidth; unfold ov, width; lia|exact Hall].
    + cbn [chained]. split; [|exact Hch].
      rewrite Hwidth, Hhd, skipn_firstn_comm, firstn_firstn, skipn_skipn, Hnext.
      replace (width - (width - ov)) with ov by (unfold ov, width; lia).
      replace (Nat.min ov width) with ov by (unfold ov, width; lia).
      replace (width - ov + Z.to_nat start) with (Z.to_nat start + width - ov)
        by (unfold ov, width; lia).
      reflexivity.
Qed.

End Window.

End ChunkingProofs.

Section SplitIntoChunks.
Import LoadPdfs.

Lemma normalize_whitespace_plain (text : str) :
  Forall (fun ch => isspace ch = true -> ch = " "%char) (normalize_whitespace text).
Proof.
  unfold normalize_whitespace.
  pose proof (split_ws_words text) as Hw.
  induction (split_ws text) as [|w ws IH]; [constructor|].
  assert (Hword : Forall (fun ch => isspace ch = true -> ch = " "%char) w).
  { apply Forall_inv in Hw. destruct Hw as [_ Hw].
    eapply Forall_impl; [|exact Hw]. intros ch H1 H2. congruence. }
  apply Forall_inv_tail in Hw.
  destruct ws as [|w' ws]; [exact Hword|].
  rewrite join_cons. apply Forall_app. split; [exact Hword|].
  constructor; [reflexivity|]. now apply IH.
Qed.

Lemma slice_incl (A : Type) (a b : Z) (l : list A) : incl (slice a b l) l.
Proof.
  unfold slice. cbv zeta. intros x Hx.
  rewrite <- (firstn_skipn (clamp_index (length l) a) l).
  apply in_or_app. right.
  rewrite <- (firstn_skipn (clamp_index (length l) b - clamp_index (length l) a)
                (skipn (clamp_index (length l) a) l)).
  apply in_or_app. now left.
Qed.

(** Whatever the parameters, a chunk is made of characters of the text. *)
Lemma chunk_loop_incl (text : str) (max_len overlap : Z) (fuel : nat) :
  forall start cs,
    chunk_loop fuel text max_len overlap start = Some cs ->
    Forall (fun c => incl c text) cs.
Proof.
  induction fuel as [|f IH]; intros start cs; cbn [chunk_loop].
  - destruct (start <? _)%Z; [discriminate|]. intros [= <-]. constructor.
  - destruct (start <? _)%Z; [|intros [= <-]; constructor].
    destruct (_ >=? _)%Z.
    + intros [= <-]. constructor; [apply slice_incl|constructor].
    + destruct (chunk_loop f text max_len overlap _) as [cs'|] eqn:E;
        [|discriminate].
      intros [= <-]. constructor; [apply slice_incl|]. eapply IH. exact E.
Qed.

(** With an overlap smaller than the chunk size the loop ends.  The result
    has at least one chunk and no chunk longer than max_len; a text that
    fits (a text without words too) is returned as the one chunk, and
    otherwise every chunk is longer than the overlap and the first one has
    exactly max_len characters. *)
Theorem split_into_chunks_ends_with_bounded_chunks :
  forall (text : str) (max_len overlap : Z),
    (0 <= overlap < max_len)%Z ->
    exists chunks,
      split_into_chunks text max_len overlap = Some chunks /\
      chunks <> [] /\
      Forall (fun c => (Z.of_nat (length c) <= max_len)%Z) chunks /\
      ((Z.of_nat (length (normalize_whitespace text)) <= max_len)%Z ->
       chunks = [normalize_whitespace text]) /\
      ((max_len < Z.of_nat (length (normalize_whitespace text)))%Z ->
       Forall (fun c => (overlap < Z.of_nat (length c))%Z) chunks /\
       Z.of_nat (length (hd [] chunks)) = max_len).
Proof.
  intros text max_len overlap H. unfold split_into_chunks. cbv zeta.
  set (t := normalize_whitespace text).
  destruct (Z.leb_spec (Z.of_nat (length t)) max_len) as [Hfit|Hlong].
  - exists [t]. split; [reflexivity|]. split; [discriminate|].
    split; [repeat constructor; exact Hfit|]. split; [reflexivity|lia].
  - destruct (@chunk_loop_windows t max_len overlap H (length t) 0%Z)
      as (cs & E & Hhd & Hre & Hall & Hch); try lia.
    exists cs. split; [exact E|].
    assert (Hne : cs <> []).
    { intros ->. cbn in Hre. rewrite <- Hre in Hlong. simpl in Hlong. lia. }
    split; [exact Hne|]. split; [|split; [lia|]].
    + eapply Forall_impl; [|exact Hall]. intros c Hc. cbn beta in Hc. lia.
    + intros _. split.
      * eapply Forall_impl; [|exact Hall]. intros c Hc. cbn beta in Hc. lia.
      * rewrite Hhd. change (Z.to_nat 0) with 0. rewrite skipn_O, length_firstn. lia.
Qed.

(** Nothing of the normalised text is lost or reordered: the first chunk
    followed by every later chunk without its first [overlap] characters is
    the normalised text, and those [overlap] characters repeat the end of
    the chunk before. *)
Theorem split_into_chunks_reassembles :
  forall (text : str) (max_len overlap : Z) (chunks : list str),
    (0 <= overlap < max_len)%Z ->
    split_into_chunks text max_len overlap = Some chunks ->
    reassemble (Z.to_nat overlap) chunks = normalize_whitespace text /\
    chained (Z.to_nat overlap) chunks.
Proof.
  intros text max_len overlap chunks H. unfold split_into_chunks. cbv zeta.
  set (t := normalize_whitespace text).
  destruct (Z.leb_spec (Z.of_nat (length t)) max_len) as [Hfit|Hlong].
  - intros [= <-]. cbn. now rewrite app_nil_r.
  - destruct (@chunk_loop_windows t max_len overlap H (length t) 0%Z)
      as (cs & E & Hhd & Hre & Hall & Hch); try lia.
    rewrite E. intros [= <-]. split; [|exact Hch].
    rewrite Hre. reflexivity.
Qed.

(** With an overlap of max_len or more, a text that does not fit in one
    chunk keeps the loop running for ever: no number of passes ends it. *)
Theorem split_into_chunks_never_ends :
  forall (text : str) (max_len overlap : Z),
    (max_len <= overlap)%Z ->
    (max_len < Z.of_nat (length (normalize_whitespace text)))%Z ->
    (0 < length (normalize_whitespace text)) ->
    (forall fuel,
        chunk_loop fuel (normalize_whitespace text) max_len overlap 0 = None) /\
    split_into_chunks text max_len overlap = None.
Proof.
  intros text max_len overlap Hov Hlong Hpos.
  set (t := normalize_whitespace text) in *.
  assert (Hloop : forall fuel start, (start <= 0)%Z ->
             chunk_loop fuel t max_len overlap start = None).
  { induction fuel as [|f IH]; intros start Hs; cbn [chunk_loop];
      (destruct (Z.ltb_spec start (Z.of_nat (length t))); [|lia]); [reflexivity|].
    destruct (Z.geb_spec (Z.min (start + max_len) (Z.of_nat (length t)))
                (Z.of_nat (length t))); [lia|].
    rewrite IH; [reflexivity|lia]. }
  split; [intros fuel; apply Hloop; lia|].
  unfold split_into_chunks. cbv zeta. fold t.
  destruct (Z.leb_spec (Z.of_nat (length t)) max_len); [lia|].
  apply Hloop. lia.
Qed.

(** The only whitespace a chunk holds is the plain space: newlines, tabs
    and the like of the extracted text do not reach a chunk. *)
Theorem chunks_hold_plain_spaces_only :
  forall (text : str) (max_len overlap : Z) (chunks : list str),
    split_into_chunks text max_len overlap = Some chunks ->
    Forall (fun c => Forall (fun ch => isspace ch = true -> ch = " "%char) c) chunks.
Proof.
  intros text max_len overlap chunks. unfold split_into_chunks. cbv zeta.
  pose proof (normalize_whitespace_plain text) as Hplain.
  set (t := normalize_whitespace text) in *.
  destruct (_ <=? _)%Z.
  - intros [= <-]. constructor; [exact Hplain|constructor].
  - intros E. apply chunk_loop_incl in E.
    eapply Forall_impl; [|exact E]. intros c Hc.
    rewrite Forall_forall in *. auto.
Qed.

(** Normalising first changes nothing: the chunks depend on the words of
    the text only. *)
Theorem split_into_chunks_of_normalized :
  forall (text : str) (max_len overlap : Z),
    normalize_whitespace (normalize_whitespace text) = normalize_whitespace text /\
    split_into_chunks (normalize_whitespace text) max_len overlap
    = split_into_chunks text max_len overlap.
Proof.
  intros text max_len overlap.
  assert (H : normalize_whitespace (normalize_whitespace text)
              = normalize_whitespace text).
  { unfold normalize_whitespace.
    now rewrite (split_ws_join (split_ws_words text)). }
  split; [exact H|]. unfold split_into_chunks. now rewrite H.
Qed.

End SplitIntoChunks.

Lemma split_into_chunks_ends_with_bounded_chunks_witness :
  exists chunks,
    LoadPdfs.split_into_chunks Cases.page_text 1200 200 = Some chunks /\
    chunks <> [] /\
    Forall (fun c => (Z.of_nat (length c) <= 1200)%Z) chunks /\
    ((Z.of_nat (length (LoadPdfs.normalize_whitespace Cases.page_text)) <= 1200)%Z ->
     chunks = [LoadPdfs.normalize_whitespace Cases.page_text]) /\
    ((1200 < Z.of_nat (length (LoadPdfs.normalize_whitespace Cases.page_text)))%Z ->
     Forall (fun c => (200 < Z.of_nat (length c))%Z) chunks /\
     Z.of_nat (length (hd [] chunks)) = 1200%Z).
Proof.
  apply (@split_into_chunks_ends_with_bounded_chunks Cases.page_text 1200 200).
  lia.
Defined.

Lemma split_into_chunks_reassembles_witness :
  LoadPdfs.reassemble (Z.to_nat 4)
    [ lit "wafer sort"; lit "sort data "; lit "ata for lo"; lit "r lot seve";
      lit "seven of t"; lit "of the bin"; lit " bin map" ]
  = LoadPdfs.normalize_whitespace Cases.page_text /\
  LoadPdfs.chained (Z.to_nat 4)
    [ lit "wafer sort"; lit "sort data "; lit "ata for lo"; lit "r lot seve";
      lit "seven of t"; lit "of the bin"; lit " bin map" ].
Proof.
  apply (@split_into_chunks_reassembles Cases.page_text 10 4).
  - lia.
  - reflexivity.
Defined.

Lemma split_into_chunks_never_ends_witness :
  (forall fuel,
      LoadPdfs.chunk_loop fuel (LoadPdfs.normalize_whitespace Cases.page_text)
        10 10 0 = None) /\
  LoadPdfs.split_into_chunks Cases.page_text 10 10 = None.
Proof.
  apply (@split_into_chunks_never_ends Cases.page_text 10 10).
  - lia.
  - vm_compute. reflexivity.
  - vm_compute. lia.
Defined.

Lemma chunks_hold_plain_spaces_only_witness :
  Forall (fun c => Forall (fun ch => isspace ch = true -> ch = " "%char) c)
    [ lit "wafer sort"; lit "sort data "; lit "ata for lo"; lit "r lot seve";
      lit "seven of t"; lit "of the bin"; lit " bin map" ].
Proof.
  apply (@chunks_hold_plain_spaces_only Cases.page_text 10 4).
  reflexivity.
Defined.

(* ================================================================== *)
(** * Decimal numerals and chunk identifiers *)
(* ================================================================== *)

Section DecimalFacts.

(** The number a string of decimal digits denotes. *)
Let digit_of (c : ascii) : nat := nat_of_ascii c - 48.
Let value_from (a : nat) (s : str) : nat :=
  fold_left (fun a c => 10 * a + digit_of c) s a.

Lemma value_from_shift (s : str) :
  forall a, value_from a s = a * 10 ^ length s + value_from 0 s.
Proof.
  unfold value_from.
  induction s as [|c s IH]; intros a; cbn [fold_left length].
  - simpl. lia.
  - rewrite IH, (IH (10 * 0 + digit_of c)). rewrite Nat.pow_succ_r'. lia.
Qed.

Lemma digit_of_digit_char (d : nat) : d < 10 -> digit_of (digit_char d) = d.
Proof.
  intros H. unfold digit_of, digit_char.
  rewrite nat_ascii_embedding by lia. lia.
Qed.

Lemma digits_fuel_value (fuel : nat) :
  forall n acc,
    n < fuel ->
    value_from 0 (digits_fuel fuel n acc)
    = n * 10 ^ length acc + value_from 0 acc.
Proof.
  induction fuel as [|f IH]; intros n acc Hn; [lia|].
  cbn [digits_fuel].
  assert (Hd : n mod 10 < 10) by (apply Nat.mod_upper_bound; lia).
  pose proof (Nat.div_mod_eq n 10) as Hdm.
  assert (Hcons : value_from 0 (digit_char (n mod 10) :: acc)
                  = n mod 10 * 10 ^ length acc + value_from 0 acc).
  { unfold value_from at 1. cbn [fold_left]. fold (value_from (10 * 0 + digit_of (digit_char (n mod 10))) acc).
    rewrite value_from_shift, digit_of_digit_char by exact Hd. lia. }
  destruct (Nat.eqb_spec (n / 10) 0) as [Hz|Hnz].
  - rewrite Hcons. nia.
  - rewrite IH by (assert (n / 10 < n) by (apply Nat.div_lt; lia); lia).
    rewrite Hcons. cbn [length]. rewrite Nat.pow_succ_r'. nia.
Qed.

(** str(n) is read back as n: two numbers with the same numeral are
    equal. *)
Lemma str_of_nat_injective (n m : nat) :
  str_of_nat n = str_of_nat m -> n = m.
Proof.
  intros H. unfold str_of_nat in H.
  assert (Hn := @digits_fuel_value (S n) n [] (Nat.lt_succ_diag_r n)).
  assert (Hm := @digits_fuel_value (S m) m [] (Nat.lt_succ_diag_r m)).
  rewrite H in Hn. rewrite Hn in Hm. simpl in Hm. lia.
Qed.

Lemma digits_fuel_no_underscore (fuel : nat) :
  forall n acc,
    ~ In "_"%char acc -> ~ In "_"%char (digits_fuel fuel n acc).
Proof.
  induction fuel as [|f IH]; intros n acc Hacc; cbn [digits_fuel]; [exact Hacc|].
  assert (Hd : n mod 10 < 10) by (apply Nat.mod_upper_bound; lia).
  assert (Hcons : ~ In "_"%char (digit_char (n mod 10) :: acc)).
  { intros [H|H]; [|contradiction].
    apply (f_equal nat_of_ascii) in H. unfold digit_char in H.
    rewrite nat_ascii_embedding in H by lia.
    change (nat_of_ascii "_") with 95 in H. lia. }
  destruct (n / 10 =? 0); [exact Hcons|]. now apply IH.
Qed.

Lemma str_of_nat_no_underscore (n : nat) : ~ In "_"%char (str_of_nat n).
Proof. apply digits_fuel_no_underscore. simpl. tauto. Qed.

(** The first occurrence of a character splits a string in one way. *)
Lemma split_at_first (A : Type) (x : A) (l1 l2 r1 r2 : list A) :
  ~ In x l1 -> ~ In x l2 ->
  l1 ++ x :: r1 = l2 ++ x :: r2 -> l1 = l2 /\ r1 = r2.
Proof.
  revert l2. induction l1 as [|a l1 IH]; intros l2 H1 H2 E.
  - destruct l2 as [|b l2]; simpl in E.
    + injection E as ->. auto.
    + injection E as <- _. exfalso. apply H2. now left.
  - destruct l2 as [|b l2]; simpl in E.
    + injection E as -> _. exfalso. apply H1. now left.
    + injection E as <- E. destruct (IH l2) as [-> ->]; auto.
      * intros H. apply H1. now right.
      * intros H. apply H2. now right.
Qed.

(** A chunk identifier names its file and its position: two identifiers
    are equal only for the same file and the same position. *)
Lemma chunk_id_injective (name1 name2 : str) (i j : nat) :
  name1 ++ lit "::chunk_" ++ str_of_nat i = name2 ++ lit "::chunk_" ++ str_of_nat j ->
  name1 = name2 /\ i = j.
Proof.
  intros E. apply (f_equal (@rev ascii)) in E.
  rewrite !rev_app_distr in E.
  change (rev (lit "::chunk_")) with ("_"%char :: rev (lit "::chunk")) in E.
  rewrite <- !app_assoc in E. cbn [app] in E.
  apply split_at_first in E;
    try (rewrite <- in_rev; apply str_of_nat_no_underscore).
  destruct E as [Ed En].
  apply (f_equal (@rev ascii)) in Ed. rewrite !rev_involutive in Ed.
  apply str_of_nat_injective in Ed.
  apply app_inv_head in En.
  apply (f_equal (@rev ascii)) in En. rewrite !rev_involutive in En.
  auto.
Qed.

End DecimalFacts.

Section LoadPdfsMain.
Import LoadPdfs.

Lemma records_from_spec (name : str) (chunks : list str) :
  forall i,
    map EmbedChunks.chunk_text (records_from name i chunks) = chunks /\
    map EmbedChunks.chunk_index (records_from name i chunks)
    = map Z.of_nat (seq i (length chunks)) /\
    map EmbedChunks.chunk_id (records_from name i chunks)
    = map (fun j => name ++ lit "::chunk_" ++ str_of_nat j) (seq i (length chunks)) /\
    Forall (fun r => EmbedChunks.chunk_source r = name) (records_from name i chunks).
Proof.
  induction chunks as [|c chunks IH]; intros i; cbn [records_from map seq length].
  - repeat split; constructor.
  - destruct (IH (S i)) as (H1 & H2 & H3 & H4).
    rewrite H1, H2, H3. repeat split; auto.
Qed.

Lemma split_into_chunks_default (raw : str) :
  exists chunks,
    split_into_chunks raw DEFAULT_MAX_LEN DEFAULT_OVERLAP = Some chunks /\
    chunks <> [] /\
    Forall (fun c => length c <= 1200) chunks /\
    (split_ws raw = [] -> chunks = [[]]).
Proof.
  unfold split_into_chunks, DEFAULT_MAX_LEN, DEFAULT_OVERLAP. cbv zeta.
  set (t := normalize_whitespace raw).
  destruct (Z.leb_spec (Z.of_nat (length t)) 1200) as [Hfit|Hlong].
  - exists [t]. split; [reflexivity|]. split; [discriminate|].
    split; [constructor; [lia|constructor]|].
    intros Hblank. unfold t, normalize_whitespace. now rewrite Hblank.
  - assert (Hdef : (0 <= 200 < 1200)%Z) by lia.
    destruct (@chunk_loop_windows t 1200 200 Hdef (length t) 0%Z)
      as (cs & E & Hhd & Hre & Hall & Hch); try lia.
    exists cs. split; [exact E|]. split; [|split].
    + intros ->. cbn in Hre. rewrite <- Hre in Hlong. simpl in Hlong. lia.
    + eapply Forall_impl; [|exact Hall]. intros c Hc. cbn beta in Hc. lia.
    + intros Hblank. exfalso.
      assert (t = []) by (unfold t, normalize_whitespace; now rewrite Hblank).
      rewrite H in Hlong. simpl in Hlong. lia.
Qed.

(** What main writes for one PDF.  A file that can be read gives at least
    one record, also when no page has any text (one record with the empty
    text); the records carry the chunks in order with chunk_index 0, 1, ...
    and the file name as source, and no text is longer than 1200
    characters.  A file that cannot be read gives no record. *)
Theorem records_of_pdf :
  forall (name : str) (pages : list page),
    (exists chunks raw,
        extract_text (Some pages) = Text raw /\
        split_into_chunks raw DEFAULT_MAX_LEN DEFAULT_OVERLAP = Some chunks /\
        chunks <> [] /\
        map EmbedChunks.chunk_text (records_of name (Some pages)) = chunks /\
        map EmbedChunks.chunk_index (records_of name (Some pages))
        = map Z.of_nat (seq 0 (length chunks)) /\
        Forall (fun r => EmbedChunks.chunk_source r = name /\
                         length (EmbedChunks.chunk_text r) <= 1200)
               (records_of name (Some pages)) /\
        (split_ws raw = [] -> records_of name (Some pages)
                              = [EmbedChunks.mkChunk (name ++ lit "::chunk_0") name 0 []]))
    /\ records_of name None = [].
Proof.
  intros name pages. split; [|reflexivity].
  unfold records_of. cbn [extract_text].
  set (raw := join ["010"%char] _).
  destruct (split_into_chunks_default raw) as (chunks & E & Hne & Hlen & Hfit).
  exists chunks, raw. rewrite E.
  destruct (records_from_spec name chunks 0) as (H1 & H2 & H3 & H4).
  repeat split; auto.
  - apply Forall_forall. intros r Hr. split.
    + rewrite Forall_forall in H4. auto.
    + assert (Hin : In (EmbedChunks.chunk_text r) chunks).
      { rewrite <- H1. now apply in_map. }
      rewrite Forall_forall in Hlen. exact (Hlen _ Hin).
  - intros Hblank. rewrite (Hfit Hblank). reflexivity.
Qed.

Lemma records_of_ids (name : str) (pdf : option (list page)) :
  exists n,
    map EmbedChunks.chunk_id (records_of name pdf)
    = map (fun j => name ++ lit "::chunk_" ++ str_of_nat j) (seq 0 n).
Proof.
  unfold records_of.
  destruct (extract_text pdf) as [raw|]; [|exists 0; reflexivity].
  destruct (split_into_chunks raw DEFAULT_MAX_LEN DEFAULT_OVERLAP) as [chunks|];
    [|exists 0; reflexivity].
  exists (length chunks). apply records_from_spec.
Qed.

(** The identifiers main writes are pairwise different, when the file
    names are. *)
Theorem chunk_ids_are_unique :
  forall (pdfs : list (str * option (list page))),
    NoDup (map fst pdfs) ->
    NoDup (map EmbedChunks.chunk_id (main pdfs)).
Proof.
  intros pdfs. unfold main.
  induction pdfs as [|[name pdf] pdfs IH]; intros Hnames; [constructor|].
  cbn [flat_map map fst snd] in *. rewrite map_app.
  apply NoDup_cons_iff in Hnames. destruct Hnames as [Hnew Hrest].
  apply NoDup_app.
  - destruct (records_of_ids name pdf) as [n ->].
    apply NoDup_map_NoDup_ForallPairs; [|apply seq_NoDup].
    intros i j _ _ E. now apply chunk_id_injective in E.
  - now apply IH.
  - intros id Hin1 Hin2.
    destruct (records_of_ids name pdf) as [n Hn]. rewrite Hn in Hin1.
    apply in_map_iff in Hin1. destruct Hin1 as (i & <- & _).
    apply in_map_iff in Hin2. destruct Hin2 as (r & Hid & Hr).
    apply in_flat_map in Hr. destruct Hr as ([name' pdf'] & Hf & Hr).
    cbn [fst snd] in Hr.
    destruct (records_of_ids name' pdf') as [n' Hn'].
    assert (Hin : In (EmbedChunks.chunk_id r)
                     (map EmbedChunks.chunk_id (records_of name' pdf')))
      by now apply in_map.
    rewrite Hn' in Hin. apply in_map_iff in Hin. destruct Hin as (j & Hj & _).
    rewrite Hid in Hj. apply chunk_id_injective in Hj. destruct Hj as [<- _].
    apply Hnew. apply in_map_iff. exists (name', pdf'). auto.
Qed.

End LoadPdfsMain.

(* ================================================================== *)
(** * The word limit of the orchestrator, for every service *)
(* ================================================================== *)

Section WordCounts.

Lemma split_ws_from_length_cur (s : str) :
  forall cur cur',
    cur <> [] -> cur' <> [] ->
    length (split_ws_from cur s) = length (split_ws_from cur' s).
Proof.
  induction s as [|c s IH]; intros cur cur' H H'; cbn [split_ws_from].
  - destruct cur, cur'; try congruence; reflexivity.
  - destruct (isspace c).
    + destruct cur, cur'; try congruence; reflexivity.
    + apply IH; discriminate.
Qed.

Lemma split_ws_from_length_le (s : str) :
  forall cur, length (split_ws_from cur s) <= 1 + length (split_ws_from [] s).
Proof.
  induction s as [|c s IH]; intros cur; cbn [split_ws_from].
  - destruct cur; simpl; lia.
  - destruct (isspace c).
    + destruct cur; simpl; lia.
    + destruct cur as [|a cur]; [lia|].
      rewrite (@split_ws_from_length_cur s (c :: a :: cur) [c]) by discriminate.
      lia.
Qed.

(** Joining two texts never makes more words than the two have. *)
Lemma word_count_app (a b : str) :
  length (split_ws (a ++ b)) <= length (split_ws a) + length (split_ws b).
Proof.
  unfold split_ws.
  enough (H : forall cur,
             length (split_ws_from cur (a ++ b))
             <= length (split_ws_from cur a) + length (split_ws_from [] b))
    by apply H.
  induction a as [|c a IH]; intros cur; cbn [app split_ws_from].
  - pose proof (split_ws_from_length_le b cur).
    destruct cur.
    + simpl. lia.
    + simpl. lia.
  - destruct (isspace c).
    + destruct cur; cbn [length]; specialize (IH []); lia.
    + apply IH.
Qed.

Lemma word_count_le_length (s : str) :
  forall cur, length (split_ws_from cur s) <= (match cur with [] => 0 | _ => 1 end) + length s.
Proof.
  induction s as [|c s IH]; intros cur; cbn [split_ws_from length].
  - destruct cur; simpl; lia.
  - destruct (isspace c).
    + destruct cur; cbn [length]; specialize (IH []); simpl in IH; lia.
    + specialize (IH (c :: cur)). simpl in IH. destruct cur; lia.
Qed.

Lemma word_count_no_space (s : str) :
  Forall (fun c => isspace c = false) s ->
  forall cur, length (split_ws_from cur s) <= 1.
Proof.
  induction 1 as [|c s Hc _ IH]; intros cur; cbn [split_ws_from].
  - destruct cur; simpl; lia.
  - rewrite Hc. apply IH.
Qed.

Lemma digits_fuel_no_space (fuel : nat) :
  forall n acc,
    Forall (fun c => isspace c = false) acc ->
    Forall (fun c => isspace c = false) (digits_fuel fuel n acc).
Proof.
  induction fuel as [|f IH]; intros n acc Hacc; cbn [digits_fuel]; [exact Hacc|].
  assert (Hd : n mod 10 < 10) by (apply Nat.mod_upper_bound; lia).
  assert (Hcons : Forall (fun c => isspace c = false) (digit_char (n mod 10) :: acc)).
  { constructor; [|exact Hacc].
    revert Hd. generalize (n mod 10) as d. intros d Hd.
    do 10 (destruct d as [|d]; [reflexivity|]). lia. }
  destruct (n / 10 =? 0); [exact Hcons|]. now apply IH.
Qed.

Lemma str_of_Z_no_space (z : Z) : Forall (fun c => isspace c = false) (str_of_Z z).
Proof.
  unfold str_of_Z, str_of_nat.
  destruct (z <? 0)%Z.
  - constructor; [reflexivity|]. apply digits_fuel_no_space. constructor.
  - apply digits_fuel_no_space. constructor.
Qed.

End WordCounts.

Section AskForEveryService.
Import GptClient.

Variable backend : Type.
Variable create : backend -> call -> reply * backend.
Variable self : GPTClient.

(** Whatever the generation service does, and for every number of
    attempts, the text ask returns has at most 200 whitespace-separated
    words: an answer within the limit, a truncated one, the error text, or
    the fallback text. *)
Theorem ask_result_within_word_limit :
  forall (query : str) (max_retries : Z) (b : backend),
    length (split_ws (fst (fst (ask create self query max_retries b)))) <= 200.
Proof.
  intros query max_retries b. unfold ask.
  generalize (Z.to_nat max_retries) as remaining.
  generalize 1%Z as attempt.
  generalize [mkMessage (lit "system") (rules self); mkMessage (lit "user") query]
    as messages.
  generalize (@nil call) as calls.
  intros calls messages attempt remaining.
  revert calls messages attempt b.
  induction remaining as [|k IH]; intros calls messages attempt b; cbn [ask_loop].
  - vm_compute. lia.
  - destruct (create b _) as [[content|e] b1]; cbv zeta.
    + unfold WORD_LIMIT.
      destruct (Nat.ltb_spec 200 (length (split_ws (strip content)))) as [Hlong|Hok].
      * destruct (attempt <? max_retries)%Z; [apply IH|].
        cbn [fst]. change (slice_to 200 ?l) with (firstn 200 l).
        rewrite truncated_word_count.
        -- apply firstn_le_length.
        -- pose proof (split_ws_words (strip content)) as Hw.
           rewrite Forall_forall in *. intros w Hin. apply Hw.
           rewrite <- (firstn_skipn 200 (split_ws (strip content))).
           apply in_or_app. now left.
        -- intros E. apply (f_equal (@length str)) in E.
           rewrite length_firstn in E. cbn [length] in E. lia.
      * cbn [fst]. exact Hok.
    + destruct (attempt >=? max_retries)%Z; [|apply IH].
      cbn [fst].
      pose proof (word_count_app (lit "API Error after ")
                    (str_of_Z max_retries ++ lit " attempts: "
                     ++ slice_to 100 e ++ lit "...")) as H1.
      pose proof (word_count_app (str_of_Z max_retries)
                    (lit " attempts: " ++ slice_to 100 e ++ lit "...")) as H2.
      pose proof (word_count_app (lit " attempts: ")
                    (slice_to 100 e ++ lit "...")) as H3.
      pose proof (word_count_app (slice_to 100 e) (lit "...")) as H4.
      pose proof (word_count_no_space (str_of_Z_no_space max_retries) []) as H5.
      pose proof (word_count_le_length (slice_to 100 e) []) as H6.
      assert (H7 : length (slice_to 100 e) <= 100)
        by (change (slice_to 100 e) with (firstn 100 e); apply firstn_le_length).
      change (length (split_ws (lit "API Error after "))) with 3 in H1.
      change (length (split_ws (lit " attempts: "))) with 1 in H3.
      change (length (split_ws (lit "..."))) with 1 in H4.
      unfold split_ws in *. lia.
Qed.

(** ask issues at most max_retries requests, each through the client's
    own OpenAI client with a message list that starts with the rules and
    the query; with max_retries of zero or less it issues none and returns
    the "No response received" text. *)
Theorem ask_issues_at_most_max_retries_calls :
  forall (query : str) (max_retries : Z) (b : backend),
    length (snd (ask create self query max_retries b)) <= Z.to_nat max_retries /\
    Forall (fun c =>
              firstn 2 (call_messages c)
              = [mkMessage (lit "system") (rules self); mkMessage (lit "user") query])
           (snd (ask create self query max_retries b)) /\
    ((max_retries <= 0)%Z ->
     ask create self query max_retries b = (no_response, b, [])).
Proof.
  intros query max_retries b. split; [|split].
  - unfold ask.
    assert (H : forall remaining attempt messages b calls,
               length (snd (ask_loop create self remaining attempt max_retries
                              messages b calls)) <= length calls + remaining).
    { induction remaining as [|k IH]; intros attempt messages b0 calls;
        cbn [ask_loop]; [simpl; lia|].
      destruct (create b0 _) as [[content|e] b1]; cbv zeta.
      - destruct (WORD_LIMIT <? _).
        + destruct (attempt <? max_retries)%Z.
          * etransitivity; [apply IH|]. rewrite length_app. simpl. lia.
          * cbn [snd]. rewrite length_app. simpl. lia.
        + cbn [snd]. rewrite length_app. simpl. lia.
      - destruct (attempt >=? max_retries)%Z.
        + cbn [snd]. rewrite length_app. simpl. lia.
        + etransitivity; [apply IH|]. rewrite length_app. simpl. lia. }
    apply (H (Z.to_nat max_retries) 1%Z _ b []).
  - unfold ask.
    set (head := [mkMessage (lit "system") (rules self); mkMessage (lit "user") query]).
    assert (H : forall remaining attempt messages b calls,
               firstn 2 messages = head ->
               Forall (fun c => firstn 2 (call_messages c) = head) calls ->
               Forall (fun c => firstn 2 (call_messages c) = head)
                 (snd (ask_loop create self remaining attempt max_retries
                         messages b calls))).
    { induction remaining as [|k IH]; intros attempt messages b0 calls Hm Hc;
        cbn [ask_loop]; [exact Hc|].
      assert (Hc1 : Forall (fun c => firstn 2 (call_messages c) = head)
                      (calls ++ [mkCall (client self) (model self) messages
                                   (temperature self) 10])).
      { apply Forall_app. split; [exact Hc|]. constructor; [exact Hm|constructor]. }
      destruct (create b0 _) as [[content|e] b1]; cbv zeta.
      - destruct (WORD_LIMIT <? _); [|exact Hc1].
        destruct (attempt <? max_retries)%Z; [|exact Hc1].
        apply IH; [|exact Hc1].
        rewrite firstn_app.
        destruct messages as [|m1 [|m2 ms]]; try discriminate Hm.
        cbn [firstn length Nat.sub app]. cbn [firstn] in Hm.
        rewrite Hm. reflexivity.
      - destruct (attempt >=? max_retries)%Z; [exact Hc1|].
        apply IH; [exact Hm|exact Hc1]. }
    apply H; [reflexivity|constructor].
  - intros Hle. unfold ask.
    replace (Z.to_nat max_retries) with 0 by lia. reflexivity.
Qed.

(** When every call raises, ask makes exactly max_retries calls, all with
    the same two messages (an exception adds nothing to the history), each
    to the service as the call before left it, and returns the error text
    with the attempt count and the first 100 characters of the exception
    the last of these calls raised. *)
Theorem ask_reports_error_after_all_attempts_fail :
  forall (query : str) (max_retries : Z) (b : backend) (e : str) (b' : backend),
    let c0 :=
      mkCall (client self) (model self)
        [mkMessage (lit "system") (rules self); mkMessage (lit "user") query]
        (temperature self) 10 in
    (forall b0 c, exists e0 b1, create b0 c = (Raises e0, b1)) ->
    (1 <= max_retries)%Z ->
    create (Nat.iter (Z.to_nat max_retries - 1) (fun x => snd (create x c0)) b) c0
    = (Raises e, b') ->
    ask create self query max_retries b
    = (lit "API Error after " ++ str_of_Z max_retries ++ lit " attempts: "
       ++ firstn 100 e ++ lit "...",
       b',
       repeat c0 (Z.to_nat max_retries)).
Proof.
  intros query max_retries b e b' c0 Hraise Hpos Hlast. unfold ask.
  set (messages := [mkMessage (lit "system") (rules self); mkMessage (lit "user") query]).
  fold messages in c0.
  assert (H : forall remaining attempt b0 calls,
             1 <= remaining ->
             (attempt + Z.of_nat remaining = max_retries + 1)%Z ->
             create (Nat.iter (remaining - 1) (fun x => snd (create x c0)) b0) c0
             = (Raises e, b') ->
             ask_loop create self remaining attempt max_retries messages b0 calls
             = (lit "API Error after " ++ str_of_Z max_retries
                ++ lit " attempts: " ++ firstn 100 e ++ lit "...",
                b', calls ++ repeat c0 remaining)).
  { induction remaining as [|k IH]; intros attempt b0 calls Hrem Hatt Hl; [lia|].
    cbn [ask_loop]. fold c0.
    destruct (Z.geb_spec attempt max_retries) as [Hend|Hmore].
    - assert (k = 0) by lia. subst k.
      change (create b0 c0 = (Raises e, b')) in Hl.
      rewrite Hl. reflexivity.
    - destruct (Hraise b0 c0) as (e1 & b1 & E1). rewrite E1.
      rewrite (IH (attempt + 1)%Z b1 (calls ++ [c0])); try lia.
      + rewrite <- app_assoc. reflexivity.
      + replace (S k - 1) with (S (k - 1)) in Hl by lia.
        rewrite Nat.iter_succ_r in Hl. rewrite E1 in Hl. exact Hl. }
  rewrite (H (Z.to_nat max_retries) 1%Z b []); try lia; [reflexivity|exact Hlast].
Qed.

End AskForEveryService.


Lemma ask_reports_error_after_all_attempts_fail_witness :
  GptClient.ask Cases.failing_stub Demo.gpt (lit "What is a bin?") 3 0
  = (lit "API Error after " ++ str_of_Z 3 ++ lit " attempts: "
     ++ firstn 100 (lit "connection refused, request " ++ str_of_nat 2)
     ++ lit "...",
     3,
     repeat (GptClient.mkCall (GptClient.client Demo.gpt) (GptClient.model Demo.gpt)
               [GptClient.mkMessage (lit "system") (GptClient.rules Demo.gpt);
                GptClient.mkMessage (lit "user") (lit "What is a bin?")]
               (GptClient.temperature Demo.gpt) 10)
            (Z.to_nat 3)).
Proof.
  apply (@ask_reports_error_after_all_attempts_fail nat Cases.failing_stub Demo.gpt
           (lit "What is a bin?") 3%Z 0
           (lit "connection refused, request " ++ str_of_nat 2) 3).
  - intros b0 c. eexists. eexists. reflexivity.
  - lia.
  - reflexivity.
Defined.

Lemma chunk_ids_are_unique_witness :
  NoDup (map EmbedChunks.chunk_id (LoadPdfs.main Cases.pdfs)).
Proof.
  apply (@chunk_ids_are_unique Cases.pdfs).
  repeat constructor; simpl; intuition discriminate.
Defined.

(* ================================================================== *)
(** * The checkpoint a stopped run leaves behind *)
(* ================================================================== *)

Section CheckpointOnDisk.
Import Numpy Faiss EmbedChunks Checkpoint.

Variable service : Type.
Variable embed_text : service -> str -> embed_reply * service.
Variable refresh_client : service -> option service.
Variable normalize_L2 : matrix -> matrix.

Hypothesis embedding_dimension :
  forall w t v w', embed_text w t = (Embedding v, w') -> length v = 4096.

Variable start : Z.
Variable n : nat.

#[local] Abbreviation state := (state service).
#[local] Abbreviation ok := (@checkpoint_ok service start n).

Lemma checkpoint_ok_extend (st st' : state) :
  disk st' = disk st ->
  (exists r, vectors st' = vectors st ++ r) ->
  Forall (fun v => length v = 4096) (vectors st') ->
  ok st -> ok st'.
Proof.
  intros Hd [r Hr] Hdim [_ H]. split; [exact Hdim|].
  rewrite Hd. destruct (load_checkpoint (disk st)) as [j vs].
  destruct H as (H1 & H2 & H3 & rest & H4).
  repeat split; auto. exists (rest ++ r). rewrite Hr, H4. now rewrite app_assoc.
Qed.

Lemma do_refresh_resumable (st : state) :
  ok st -> stops_resumable start n (do_refresh refresh_client st).
Proof.
  intros H. unfold do_refresh.
  destruct (refresh_client (svc st)); cbn [stops_resumable];
    [|split; [reflexivity|]];
    (apply (@checkpoint_ok_extend st); [reflexivity| |apply H|exact H];
     exists []; symmetry; apply app_nil_r).
Qed.

Lemma append_resumable i v (st : state) :
  length v = 4096 -> ok st ->
  ok (append i v st) /\ length (vectors (append i v st)) = S (length (vectors st)).
Proof.
  intros Hv H. split.
  - apply (@checkpoint_ok_extend st); [reflexivity| | |exact H].
    + exists [v]. reflexivity.
    + cbn [append log vectors]. apply Forall_app. split; [apply H|].
      constructor; [exact Hv|constructor].
  - cbn [append log vectors]. rewrite length_app. simpl. lia.
Qed.

Lemma embed_chunk_resumable i dd (st : state) :
  ok st ->
  match embed_chunk embed_text refresh_client i dd st with
  | Finished st' => ok st' /\ length (vectors st') = S (length (vectors st))
  | Crashed e st' => e = RefreshFailed /\ ok st'
  end.
Proof.
  intros H. unfold embed_chunk, call_embed.
  assert (Hlog : forall w, ok (with_svc w (log (EvEmbed i (chunk_text dd)) st))).
  { intros w. apply (@checkpoint_ok_extend st); [reflexivity| |apply H|exact H].
    exists []. symmetry. apply app_nil_r. }
  destruct (embed_text (svc st) (chunk_text dd)) as [[v|m|m] w1] eqn:E1.
  - exact (@append_resumable i v _ (embedding_dimension E1) (Hlog w1)).
  - pose proof (do_refresh_resumable (Hlog w1)) as Hr.
    destruct (do_refresh refresh_client _) as [s2|e s2] eqn:E2; cbn [and_then];
      [|exact Hr].
    cbn [stops_resumable] in Hr.
    assert (Hv2 : vectors s2 = vectors st).
    { unfold do_refresh in E2.
      destruct (refresh_client _); inversion E2. reflexivity. }
    assert (Hlog2 : forall w, ok (with_svc w (log (EvEmbed i (chunk_text dd)) s2))).
    { intros w. apply (@checkpoint_ok_extend s2); [reflexivity| |apply Hr|exact Hr].
      exists []. symmetry. apply app_nil_r. }
    rewrite <- Hv2.
    destruct (embed_text (svc s2) (chunk_text dd)) as [[v|m'|m'] w3] eqn:E3.
    + exact (@append_resumable i v _ (embedding_dimension E3) (Hlog2 w3)).
    + exact (@append_resumable i _ _ (zeros_length 4096) (Hlog2 w3)).
    + exact (@append_resumable i _ _ (zeros_length 4096) (Hlog2 w3)).
  - exact (@append_resumable i _ _ (zeros_length 4096) (Hlog w1)).
Qed.

Lemma save_checkpoint_resumable i (st : state) :
  ok st ->
  length (vectors st) = S i ->
  (start <= Z.of_nat i)%Z ->
  i < n ->
  exists st', save_checkpoint (Z.of_nat i) st = Finished st' /\
              ok st' /\ vectors st' = vectors st.
Proof.
  intros H Hlen Hs Hn. unfold save_checkpoint. cbv zeta.
  assert (Hne : vectors st <> []) by (intros E; rewrite E in Hlen; discriminate).
  rewrite (vstack_same_length Hne (proj1 H)).
  pose proof (proj1 H) as Hd.
  destruct (vectors st) as [|v l] eqn:V; [congruence|].
  eexists. split; [reflexivity|]. split; [|reflexivity].
  split; [exact Hd|].
  cbn [disk log load_checkpoint checkpoint_json checkpoint_npy vectors].
  rewrite Hlen. repeat split; try lia.
  exists []. symmetry. apply app_nil_r.
Qed.

Lemma iteration_resumable i dd (st : state) :
  ok st ->
  length (vectors st) = i ->
  (start < Z.of_nat i)%Z ->
  i < n ->
  match iteration embed_text refresh_client i dd st with
  | Finished st' => ok st' /\ length (vectors st') = S i
  | Crashed e st' => e = RefreshFailed /\ ok st'
  end.
Proof.
  intros H Hlen Hs Hn. unfold iteration.
  assert (Hpre : match (if ((0 <? i) && (i mod 500 =? 0))%bool
                        then do_refresh refresh_client st else Finished st) with
                 | Finished s1 => ok s1 /\ vectors s1 = vectors st
                 | Crashed e s1 => e = RefreshFailed /\ ok s1
                 end).
  { destruct ((0 <? i) && (i mod 500 =? 0))%bool; [|now split].
    pose proof (do_refresh_resumable H) as Hr.
    unfold do_refresh in *. destruct (refresh_client (svc st)); [|exact Hr].
    split; [exact Hr|reflexivity]. }
  destruct (if ((0 <? i) && (i mod 500 =? 0))%bool then _ else _) as [s1|e s1];
    cbn [and_then]; [|exact Hpre].
  destruct Hpre as [H1 Hv1].
  pose proof (embed_chunk_resumable i dd H1) as Hc.
  destruct (embed_chunk embed_text refresh_client i dd s1) as [s2|e s2];
    cbn [and_then]; [|exact Hc].
  destruct Hc as [H2 Hl2]. rewrite Hv1, Hlen in Hl2.
  destruct ((i + 1) mod 10 =? 0); [|now split].
  destruct (@save_checkpoint_resumable i s2 H2 Hl2) as (s3 & -> & H3 & Hv3);
    try lia.
  split; [exact H3|]. now rewrite Hv3.
Qed.

Lemma embed_loop_resumable (rest : list chunk) :
  forall i (st : state),
    ok st ->
    i + length rest <= n ->
    Z.of_nat (length (vectors st)) = Z.max (Z.of_nat i) (start + 1) ->
    match embed_loop embed_text refresh_client start i rest st with
    | Finished st' =>
        ok st' /\
        Z.of_nat (length (vectors st'))
        = Z.max (Z.of_nat (i + length rest)) (start + 1)
    | Crashed e st' => e = RefreshFailed /\ ok st'
    end.
Proof.
  induction rest as [|dd rest IH]; intros i st H Hn Hlen; cbn [embed_loop].
  - split; [exact H|]. rewrite Nat.add_0_r. exact Hlen.
  - cbn [length] in Hn.
    replace (i + length (dd :: rest)) with (S i + length rest)
      by (cbn [length]; lia).
    destruct (Z.leb_spec (Z.of_nat i) start) as [Hskip|Hrun].
    + apply IH; [exact H|lia|lia].
    + assert (Hl : length (vectors st) = i) by lia.
      pose proof (@iteration_resumable i dd st H Hl) as Hi.
      destruct (iteration embed_text refresh_client i dd st) as [s1|e s1];
        cbn [and_then]; [|apply Hi; lia].
      destruct Hi as [H1 Hl1]; try lia.
      apply IH; [exact H1|lia|lia].
Qed.

End CheckpointOnDisk.

Section StoppedRuns.
Import Numpy Faiss EmbedChunks Checkpoint.

Variable service : Type.
Variable embed_text : service -> str -> embed_reply * service.
Variable refresh_client : service -> option service.
Variable normalize_L2 : matrix -> matrix.

(** What a run that an exception of the model stops leaves behind. *)
Lemma failed_run_checkpoint :
  forall fs (w : service) docs start vs e (st : state service),
    (forall s t v s', embed_text s t = (Embedding v, s') -> length v = 4096) ->
    load_checkpoint fs = (start, vs) ->
    Z.of_nat (length vs) = (start + 1)%Z ->
    (start + 1 <= Z.of_nat (length docs))%Z ->
    Forall (fun v => length v = 4096) vs ->
    main embed_text refresh_client normalize_L2 fs w docs = Failed e st ->
    e = RefreshFailed /\
    exists j vs',
      load_checkpoint (disk st) = (j, vs') /\
      Z.of_nat (length vs') = (j + 1)%Z /\
      (start <= j)%Z /\
      (j + 1 <= Z.of_nat (length docs))%Z /\
      Forall (fun v => length v = 4096) vs' /\
      firstn (length vs') (vectors st) = vs'.
Proof.
  intros fs w docs start vs e st Hdim Hload Hlen Hn Hvs.
  unfold main. rewrite Hload.
  destruct docs as [|d0 docs']; [discriminate|].
  set (ds := d0 :: docs') in *.
  assert (H0 : checkpoint_ok start (length ds) (mkState w vs fs [])).
  { split; [exact Hvs|]. cbn [disk vectors]. rewrite Hload.
    repeat split; try lia. exists []. symmetry. apply app_nil_r. }
  pose proof (@embed_loop_resumable service embed_text refresh_client Hdim
                start (length ds) ds 0 (mkState w vs fs []) H0) as Hloop.
  assert (Hfinal : forall s : state service,
             checkpoint_ok start (length ds) s ->
             exists j vs',
               load_checkpoint (disk s) = (j, vs') /\
               Z.of_nat (length vs') = (j + 1)%Z /\
               (start <= j)%Z /\
               (j + 1 <= Z.of_nat (length ds))%Z /\
               Forall (fun v => length v = 4096) vs' /\
               firstn (length vs') (vectors s) = vs').
  { intros s [Hd Hs]. destruct (load_checkpoint (disk s)) as [j vs'].
    destruct Hs as (H1 & H2 & H3 & rest & H4).
    exists j, vs'. repeat split; auto.
    - rewrite H4 in Hd. apply Forall_app in Hd. apply Hd.
    - rewrite H4, firstn_app, Nat.sub_diag, firstn_all. cbn [firstn].
      apply app_nil_r. }
  destruct (embed_loop embed_text refresh_client start 0 ds _) as [s1|e1 s1].
  - destruct Hloop as [[Hd1 _] Hl1]; [cbn; lia|cbn [vectors]; lia|].
    assert (Hne : vectors (delete_checkpoint s1) <> []).
    { cbn [delete_checkpoint vectors]. intros E. rewrite E in Hl1.
      cbn [length ds] in Hl1. lia. }
    cbv zeta. rewrite (vstack_same_length Hne Hd1). discriminate.
  - intros [= <- <-].
    destruct Hloop as [-> H1]; [cbn; lia|cbn [vectors]; lia|].
    split; [reflexivity|]. apply Hfinal, H1.
Qed.

(** A run that refresh_client() stops can be resumed.  When the service
    returns vectors of the model's dimension and the run starts from
    nothing or from a checkpoint with last_index + 1 vectors of that
    dimension, np.vstack raises nowhere in the run, and when an exception
    of refresh_client() stops main, the files it leaves are again such a
    checkpoint: load_checkpoint reads a last_index j, not before the one
    the run started from and inside the chunk list, with exactly j + 1
    vectors, and these are the first j + 1 vectors the stopped run held.
    A stop by an error of the file system or by an interrupt, which can
    fall between the two writes of save_checkpoint, is not covered. *)
Theorem stopped_run_leaves_resumable_checkpoint :
  forall fs (w : service) docs start vs,
    (forall s t v s', embed_text s t = (Embedding v, s') -> length v = 4096) ->
    load_checkpoint fs = (start, vs) ->
    Z.of_nat (length vs) = (start + 1)%Z ->
    (start + 1 <= Z.of_nat (length docs))%Z ->
    Forall (fun v => length v = 4096) vs ->
    (forall st : state service,
        main embed_text refresh_client normalize_L2 fs w docs
        <> Failed ValueError st) /\
    (forall st : state service,
        main embed_text refresh_client normalize_L2 fs w docs
        = Failed RefreshFailed st ->
        exists j vs',
          load_checkpoint (disk st) = (j, vs') /\
          Z.of_nat (length vs') = (j + 1)%Z /\
          (start <= j)%Z /\
          (j + 1 <= Z.of_nat (length docs))%Z /\
          Forall (fun v => length v = 4096) vs' /\
          firstn (length vs') (vectors st) = vs').
Proof.
  intros fs w docs start vs Hdim Hload Hlen Hn Hvs. split.
  - intros st E.
    destruct (@failed_run_checkpoint fs w docs start vs ValueError st
                Hdim Hload Hlen Hn Hvs E) as [Habs _].
    discriminate Habs.
  - intros st E.
    exact (proj2 (@failed_run_checkpoint fs w docs start vs RefreshFailed st
                    Hdim Hload Hlen Hn Hvs E)).
Qed.

End StoppedRuns.

Lemma stopped_run_leaves_resumable_checkpoint_witness :
  (forall st : EmbedChunks.state nat,
      EmbedChunks.main Cases.expires_after_ten Cases.refresh_fails Demo.normalize_L2
        EmbedChunks.no_files 0 Cases.twelve_docs
      <> EmbedChunks.Failed EmbedChunks.ValueError st) /\
  exists st,
    EmbedChunks.main Cases.expires_after_ten Cases.refresh_fails Demo.normalize_L2
      EmbedChunks.no_files 0 Cases.twelve_docs
    = EmbedChunks.Failed EmbedChunks.RefreshFailed st /\
    exists j vs',
      EmbedChunks.load_checkpoint (EmbedChunks.disk st) = (j, vs') /\
      Z.of_nat (length vs') = (j + 1)%Z /\
      (-1 <= j)%Z /\
      (j + 1 <= Z.of_nat (length Cases.twelve_docs))%Z /\
      Forall (fun v => length v = 4096) vs' /\
      firstn (length vs') (EmbedChunks.vectors st) = vs'.
Proof.
  destruct (@stopped_run_leaves_resumable_checkpoint nat Cases.expires_after_ten
              Cases.refresh_fails Demo.normalize_L2 EmbedChunks.no_files 0
              Cases.twelve_docs (-1)%Z []) as [Hno Hres].
  - intros s t v s'. unfold Cases.expires_after_ten.
    destruct (s <? 10); intros [= <- _]. apply repeat_length.
  - reflexivity.
  - reflexivity.
  - simpl. lia.
  - constructor.
  - split; [exact Hno|].
    eexists. split; [vm_compute; reflexivity|].
    apply Hres. vm_compute. reflexivity.
Defined.

(** The checkpoint that run leaves: last_index 9, ten vectors. *)
Example ex_stopped_after_ten :
  option_map
    (fun st => (fst (EmbedChunks.load_checkpoint (EmbedChunks.disk st)),
                length (snd (EmbedChunks.load_checkpoint (EmbedChunks.disk st))),
                length (EmbedChunks.vectors st)))
    (EmbedChunks.result_state
       (EmbedChunks.main Cases.expires_after_ten Cases.refresh_fails
          Demo.normalize_L2 EmbedChunks.no_files 0 Cases.twelve_docs))
  = Some (9%Z, 10, 10).
Proof. vm_compute. reflexivity. Qed.

(* ================================================================== *)
(** * build_faiss_index.py: batches, rows and ids *)
(* ================================================================== *)

Section Batches.
Import BuildFaissIndex.

Lemma batches_concat (fuel : nat) :
  forall texts, length texts <= fuel -> concat (batches fuel texts) = texts.
Proof.
  induction fuel as [|f IH]; intros texts Hlen.
  - destruct texts; [reflexivity|simpl in Hlen; lia].
  - cbn [batches]. destruct texts as [|t texts']; [reflexivity|].
    set (texts := t :: texts') in *. cbn [concat].
    rewrite IH; [apply firstn_skipn|].
    rewrite length_skipn. unfold BATCH_SIZE. lia.
Qed.

Lemma batches_sizes (fuel : nat) :
  forall texts,
    Forall (fun b => 1 <= length b <= BATCH_SIZE) (batches fuel texts).
Proof.
  induction fuel as [|f IH]; intros texts; cbn [batches]; [constructor|].
  destruct texts as [|t texts']; [constructor|].
  set (texts := t :: texts') in *. constructor; [|apply IH].
  rewrite length_firstn. unfold BATCH_SIZE, texts. cbn [length]. lia.
Qed.

Lemma batches_full_before_last (fuel : nat) :
  forall texts k,
    S k < length (batches fuel texts) ->
    length (nth k (batches fuel texts) []) = BATCH_SIZE.
Proof.
  induction fuel as [|f IH]; intros texts k; cbn [batches]; [simpl; lia|].
  destruct texts as [|t texts']; [simpl; lia|].
  set (texts := t :: texts') in *. cbn [length nth]. intros Hk.
  destruct k as [|k].
  - rewrite length_firstn.
    destruct (Nat.le_gt_cases BATCH_SIZE (length texts)) as [Hge|Hlt]; [lia|].
    exfalso. rewrite skipn_all2 in Hk by lia.
    destruct f; simpl in Hk; lia.
  - apply IH. lia.
Qed.

Lemma batches_cons (t : str) (texts' : list str) :
  batches (length (t :: texts')) (t :: texts')
  = firstn 128 (t :: texts') :: batches (length texts') (skipn BATCH_SIZE (t :: texts')).
Proof. reflexivity. Qed.

(** The batches of the embedding loop are the texts, in order, each text
    in exactly one batch; no batch is empty or longer than 128, and every
    batch before the last one has exactly 128 texts. *)
Theorem batches_partition_the_texts :
  forall texts : list str,
    concat (batches (length texts) texts) = texts /\
    Forall (fun b => 1 <= length b <= 128) (batches (length texts) texts) /\
    forall k, S k < length (batches (length texts) texts) ->
              length (nth k (batches (length texts) texts) []) = 128.
Proof.
  intros texts. split; [|split].
  - apply batches_concat. lia.
  - apply batches_sizes.
  - apply batches_full_before_last.
Qed.

End Batches.

Section RowsAndIds.
Import Numpy Faiss BuildFaissIndex.

Variable service : Type.
Variable embed_batch : service -> list str -> option (list vector) * service.
Variable normalize_L2 : matrix -> matrix.

(** The service returns one vector per text of the batch, and
    normalisation keeps the rows. *)
Hypothesis one_vector_per_text :
  forall w b vs w', embed_batch w b = (Some vs, w') -> length vs = length b.
Hypothesis normalize_keeps_rows : forall m, length (normalize_L2 m) = length m.

Lemma try_batch_rows (k : nat) :
  forall w b,
    length (fst (try_batch embed_batch k w b)) <= length b /\
    (fst (embed_batch w b) <> None ->
     0 < k -> length (fst (try_batch embed_batch k w b)) = length b).
Proof.
  induction k as [|k IH]; intros w b; cbn [try_batch].
  - split; [simpl; lia|lia].
  - destruct (embed_batch w b) as [[vs|] w'] eqn:E; cbn [fst].
    + rewrite (one_vector_per_text E). split; [lia|reflexivity].
    + split; [apply IH|congruence].
Qed.

Lemma embed_all_rows (bs : list (list str)) :
  forall w acc,
    length (fst (embed_all embed_batch w bs acc))
    <= length acc + length (concat bs) /\
    ((forall w' b, fst (embed_batch w' b) <> None) ->
     length (fst (embed_all embed_batch w bs acc))
     = length acc + length (concat bs)).
Proof.
  induction bs as [|b bs IH]; intros w acc; cbn [embed_all concat].
  - simpl. split; lia.
  - pose proof (try_batch_rows 3 w b) as [Hle Heq].
    destruct (try_batch embed_batch 3 w b) as [vs w'] eqn:E. cbn [fst] in *.
    destruct (IH w' (acc ++ vs)) as [IHle IHeq].
    rewrite length_app in *. split.
    + lia.
    + intros Hup. rewrite (IHeq Hup), Heq; [lia|apply Hup|lia].
Qed.

Lemma build_saved_rows (w : service) (corpus : list entry) index ids :
  build embed_batch normalize_L2 w corpus = Saved index ids ->
  ids = map entry_id corpus /\
  stored index
  = normalize_L2
      (fst (embed_all embed_batch w
              (batches (length (map entry_text corpus)) (map entry_text corpus))
              [])) /\
  fst (embed_all embed_batch w
         (batches (length (map entry_text corpus)) (map entry_text corpus)) [])
  <> [].
Proof.
  unfold build. cbv zeta.
  destruct (embed_all embed_batch w _ []) as [vectors w'] eqn:E. cbn [fst].
  destruct vectors as [|v vs]; [discriminate|].
  destruct (vstack (v :: vs)) as [m|] eqn:V; [|discriminate].
  intros [= <- <-]. cbn [stored].
  unfold vstack in V. destruct (forallb _ _); [|discriminate].
  injection V as <-. repeat split. discriminate.
Qed.

(** The ids file always lists every corpus entry, whatever was embedded.
    When the index is saved it has at least one row and never more rows
    than there are ids; it has one row per id when no request raises. *)
Theorem saved_index_rows_and_ids :
  forall (w : service) (corpus : list entry) index ids,
    build embed_batch normalize_L2 w corpus = Saved index ids ->
    ids = map entry_id corpus /\
    0 < length (stored index) <= length ids /\
    ((forall w' b, fst (embed_batch w' b) <> None) ->
     length (stored index) = length ids).
Proof.
  intros w corpus index ids Hb.
  destruct (build_saved_rows _ _ Hb) as (-> & -> & Hne).
  set (texts := map entry_text corpus) in *.
  destruct (embed_all_rows (batches (length texts) texts) w []) as [Hle Heq].
  rewrite batches_concat in * by lia.
  rewrite normalize_keeps_rows, length_map.
  assert (length texts = length corpus) by apply length_map.
  cbn [length] in *. repeat split.
  - destruct (fst (embed_all embed_batch w _ [])); [congruence|simpl; lia].
  - lia.
  - intros Hup. rewrite (Heq Hup). lia.
Qed.

(** A skipped batch shifts the index against the ids.  When the three
    attempts on the first batch all raise and the index is still saved,
    the index lacks one row per text of that batch: the row of position k
    belongs to the id of position k + min(128, number of entries) or
    later, without any sign of it in the files. *)
Theorem skipped_first_batch_misaligns_ids :
  forall (w w1 w2 w3 : service) (corpus : list entry) index ids,
    let first := firstn 128 (map entry_text corpus) in
    embed_batch w first = (None, w1) ->
    embed_batch w1 first = (None, w2) ->
    embed_batch w2 first = (None, w3) ->
    build embed_batch normalize_L2 w corpus = Saved index ids ->
    length ids = length corpus /\
    length (stored index) + Nat.min 128 (length corpus) <= length ids /\
    length (stored index) < length ids.
Proof.
  intros w w1 w2 w3 corpus index ids first H1 H2 H3 Hb.
  destruct (build_saved_rows _ _ Hb) as (-> & -> & Hne).
  rewrite normalize_keeps_rows, length_map.
  pose proof (length_map entry_text corpus) as Hlen.
  subst first.
  destruct (map entry_text corpus) as [|t texts'] eqn:Ht.
  { exfalso. apply Hne. reflexivity. }
  rewrite batches_cons in *. cbn [embed_all try_batch] in *.
  rewrite H1, H2, H3 in *. cbn [app] in *.
  destruct (embed_all_rows (batches (length texts') (skipn BATCH_SIZE (t :: texts')))
              w3 []) as [Hle _].
  rewrite batches_concat in Hle
    by (rewrite length_skipn; unfold BATCH_SIZE; cbn [length]; lia).
  rewrite length_skipn in Hle. unfold BATCH_SIZE in *. cbn [length] in *.
  repeat split; lia.
Qed.

End RowsAndIds.

Lemma saved_index_rows_and_ids_witness :
  exists index ids,
    BuildFaissIndex.build Cases.down_at_first Cases.keep_rows 0 Cases.corpus_130
    = BuildFaissIndex.Saved index ids /\
    ids = map BuildFaissIndex.entry_id Cases.corpus_130 /\
    0 < length (Faiss.stored index) <= length ids /\
    ((forall w' b, fst (Cases.down_at_first w' b) <> None) ->
     length (Faiss.stored index) = length ids).
Proof.
  assert (Hone : forall w b vs w',
             Cases.down_at_first w b = (Some vs, w') -> length vs = length b).
  { intros w b vs w'. unfold Cases.down_at_first.
    destruct (w <? 3); intros [= <- _]. apply length_map. }
  eexists. eexists. split; [vm_compute; reflexivity|].
  apply (@saved_index_rows_and_ids nat Cases.down_at_first Cases.keep_rows
           Hone (fun m => eq_refl) 0 Cases.corpus_130).
  vm_compute. reflexivity.
Defined.

Lemma skipped_first_batch_misaligns_ids_witness :
  exists index ids,
    BuildFaissIndex.build Cases.down_at_first Cases.keep_rows 0 Cases.corpus_130
    = BuildFaissIndex.Saved index ids /\
    length ids = length Cases.corpus_130 /\
    length (Faiss.stored index) + Nat.min 128 (length Cases.corpus_130)
    <= length ids /\
    length (Faiss.stored index) < length ids.
Proof.
  assert (Hone : forall w b vs w',
             Cases.down_at_first w b = (Some vs, w') -> length vs = length b).
  { intros w b vs w'. unfold Cases.down_at_first.
    destruct (w <? 3); intros [= <- _]. apply length_map. }
  eexists. eexists. split; [vm_compute; reflexivity|].
  apply (@skipped_first_batch_misaligns_ids nat Cases.down_at_first
           Cases.keep_rows Hone (fun m => eq_refl) 0 1 2 3 Cases.corpus_130).
  - reflexivity.
  - reflexivity.
  - reflexivity.
  - vm_compute. reflexivity.
Defined.

(** That build: 130 ids, two rows. *)
Example ex_skipped_batch :
  match BuildFaissIndex.build Cases.down_at_first Cases.keep_rows 0 Cases.corpus_130 with
  | BuildFaissIndex.Saved index ids => (length (Faiss.stored index), length ids) = (2, 130)
  | _ => False
  end.
Proof. vm_compute. reflexivity. Qed.

(* ================================================================== *)
(** * ontotune_detect.py: what is reported as new *)
(* ================================================================== *)

Section DetectFacts.
Import OntotuneDetect.

Lemma eqb_str_true (a b : str) : eqb_str a b = true <-> a = b.
Proof.
  unfold eqb_str. destruct (list_eq_dec ascii_dec a b); split; congruence.
Qed.

Lemma eqb_node_true (a b : node) : eqb_node a b = true <-> a = b.
Proof.
  destruct a, b; cbn [eqb_node]; try rewrite eqb_str_true;
    split; congruence.
Qed.

Lemma mem_In (u : str) (s : list str) : mem u s = true <-> In u s.
Proof.
  unfold mem. rewrite existsb_exists. split.
  - intros (x & Hx & E). apply eqb_str_true in E. now subst.
  - intros H. exists u. split; [exact H|now apply eqb_str_true].
Qed.

Lemma mem_false (u : str) (s : list str) : mem u s = false <-> ~ In u s.
Proof.
  rewrite <- mem_In. destruct (mem u s); split; congruence.
Qed.

Lemma add_In (u x : str) (s : list str) : In x (add u s) <-> x = u \/ In x s.
Proof.
  unfold add. destruct (mem u s) eqn:E.
  - apply mem_In in E. split; [auto|]. intros [->|H]; auto.
  - rewrite in_app_iff. simpl. intuition.
Qed.

Lemma add_NoDup (u : str) (s : list str) : NoDup s -> NoDup (add u s).
Proof.
  intros H. unfold add. destruct (mem u s) eqn:E; [exact H|].
  apply mem_false in E.
  induction H as [|x l Hx Hl IH]; simpl.
  - constructor; [intros []|constructor].
  - constructor.
    + rewrite in_app_iff. simpl. intros [H|[H|[]]]; [auto|].
      subst. apply E. now left.
    + apply IH. intros H. apply E. now right.
Qed.

Lemma set_of_from (l : list str) :
  forall acc x,
    In x (fold_left (fun s u => add u s) l acc) <-> In x acc \/ In x l.
Proof.
  induction l as [|u l IH]; intros acc x; cbn [fold_left].
  - simpl. intuition.
  - rewrite IH, add_In. simpl. intuition.
Qed.

Lemma set_of_In (l : list str) (x : str) : In x (set_of l) <-> In x l.
Proof. unfold set_of. rewrite set_of_from. simpl. intuition. Qed.

Lemma set_of_nil (l : list str) : set_of l = [] <-> l = [].
Proof.
  split; [|now intros ->].
  intros E. destruct l as [|u l]; [reflexivity|].
  assert (H : In u (set_of (u :: l))) by (apply set_of_In; now left).
  rewrite E in H. destruct H.
Qed.

Lemma insert_In (u x : str) (l : list str) :
  In x (insert u l) <-> x = u \/ In x l.
Proof.
  induction l as [|v l IH]; cbn [insert].
  - simpl. intuition.
  - destruct (str_leb u v); simpl; [intuition|].
    rewrite IH. intuition.
Qed.

Lemma sorted_In (s : list str) (x : str) : In x (sorted s) <-> In x s.
Proof.
  induction s as [|u s IH]; cbn [sorted fold_right]; [reflexivity|].
  fold (sorted s). rewrite insert_In, IH. simpl. intuition.
Qed.

Lemma insert_NoDup (u : str) (l : list str) :
  ~ In u l -> NoDup l -> NoDup (insert u l).
Proof.
  intros Hu Hl. induction Hl as [|v l Hv Hl IH]; cbn [insert].
  - constructor; [intros []|constructor].
  - destruct (str_leb u v).
    + constructor; [exact Hu|]. now constructor.
    + constructor.
      * rewrite insert_In. intros [->|H]; [apply Hu; now left|auto].
      * apply IH. intros H. apply Hu. now right.
Qed.

Lemma sorted_NoDup (s : list str) : NoDup s -> NoDup (sorted s).
Proof.
  induction 1 as [|u s Hu Hs IH]; cbn [sorted fold_right]; [constructor|].
  fold (sorted s). apply insert_NoDup; [|exact IH]. now rewrite sorted_In.
Qed.

Lemma collect_from (type : node) (cs : list node) :
  forall acc x,
    In x (fold_left
            (fun s c => let u := str_of_node c in if is_dr_uri u then add u s else s)
            cs acc)
    <-> In x acc \/ (is_dr_uri x = true /\ exists c, In c cs /\ str_of_node c = x).
Proof.
  induction cs as [|c cs IH]; intros acc x; cbn [fold_left].
  - simpl. split; [auto|]. intros [H|(_ & c & [] & _)]. exact H.
  - rewrite IH. cbv zeta. split.
    + intros [H|(Hd & c' & Hc' & E)].
      * destruct (is_dr_uri (str_of_node c)) eqn:D; [|now left].
        apply add_In in H. destruct H as [->|H]; [|now left].
        right. split; [exact D|]. exists c. split; [now left|reflexivity].
      * right. split; [exact Hd|]. exists c'. split; [now right|exact E].
    + intros [H|(Hd & c' & [->|Hc'] & E)].
      * left. destruct (is_dr_uri (str_of_node c)); [|exact H].
        apply add_In. now right.
      * left. rewrite E, Hd. apply add_In. now left.
      * right. split; [exact Hd|]. exists c'. split; [exact Hc'|exact E].
Qed.

Lemma collect_NoDup (g : graph) (type : node) : NoDup (collect g type).
Proof.
  unfold collect. generalize (subjects g RDF_type type) as cs.
  assert (H : NoDup (@nil str)) by constructor. revert H.
  generalize (@nil str) as acc. intros acc H cs. revert acc H.
  induction cs as [|c cs IH]; intros acc H; cbn [fold_left]; [exact H|].
  apply IH. cbv zeta. destruct (is_dr_uri (str_of_node c)); [|exact H].
  now apply add_NoDup.
Qed.

Lemma subjects_In (g : graph) (p o c : node) :
  In c (subjects g p o) <-> In (mkTriple c p o) g.
Proof.
  unfold subjects. rewrite in_map_iff. split.
  - intros ([s p' o'] & <- & H). apply filter_In in H. destruct H as [H E].
    cbn [predicate object subject] in *.
    apply andb_true_iff in E. destruct E as [E1 E2].
    apply eqb_node_true in E1, E2. now subst.
  - intros H. exists (mkTriple c p o). split; [reflexivity|].
    apply filter_In. split; [exact H|]. cbn [predicate object].
    apply andb_true_iff. split; now apply eqb_node_true.
Qed.

(** What one loop of collect_current_entities gathers. *)
Lemma collect_In (g : graph) (type : node) (u : str) :
  In u (collect g type) <-> declared g type u /\ is_dr_uri u = true.
Proof.
  unfold collect. rewrite (collect_from type). unfold declared. split.
  - intros [[]|(Hd & c & Hc & E)]. split; [|exact Hd].
    exists c. split; [now apply subjects_In|exact E].
  - intros [(c & Hc & E) Hd]. right. split; [exact Hd|].
    exists c. split; [now apply subjects_In|exact E].
Qed.

Lemma lesson_uris_from (lines : list lesson_line) :
  forall acc x,
    In x (fold_left
            (fun uris line =>
               match line with
               | LessonRecord (Some (c :: u)) => add (c :: u) uris
               | _ => uris
               end) lines acc)
    <-> In x acc \/ (x <> [] /\ In (LessonRecord (Some x)) lines).
Proof.
  induction lines as [|l lines IH]; intros acc x; cbn [fold_left].
  - simpl. split; [auto|]. intros [H|[_ []]]. exact H.
  - rewrite IH. split.
    + intros [H|[Hx H]]; [|right; split; [exact Hx|now right]].
      destruct l as [| |[[|c u]|]]; try (now left).
      apply add_In in H. destruct H as [->|H]; [|now left].
      right. split; [discriminate|now left].
    + intros [H|[Hx [->|H]]].
      * left. destruct l as [| |[[|c u]|]]; try exact H.
        apply add_In. now right.
      * left. destruct x as [|c u]; [congruence|]. apply add_In. now left.
      * right. split; [exact Hx|exact H].
Qed.

Lemma lesson_uris_In (file : option (list lesson_line)) (u : str) :
  In u (load_existing_lesson_uris file) <-> has_lesson file u.
Proof.
  unfold load_existing_lesson_uris, has_lesson. destruct file as [lines|].
  - rewrite lesson_uris_from. split.
    + intros [[]|[Hx H]]. split; [exact Hx|]. exists lines. now split.
    + intros (Hx & lines' & [= <-] & H). right. now split.
  - split; [intros []|]. intros (_ & lines & E & _). discriminate.
Qed.

Lemma unlearned_In (type ty : str) (new lesson_uris : list str) (u : str) :
  In (mkConcept ty u) (unlearned type new lesson_uris)
  <-> ty = type /\ In u new /\ ~ In u lesson_uris.
Proof.
  unfold unlearned. rewrite in_map_iff. split.
  - intros (x & [= <- <-] & H). apply filter_In in H. destruct H as [H E].
    apply negb_true_iff, mem_false in E. rewrite sorted_In in H. auto.
  - intros (-> & H & E). exists u. split; [reflexivity|].
    apply filter_In. split; [now rewrite sorted_In|].
    apply negb_true_iff. now apply mem_false.
Qed.

Lemma unlearned_NoDup (type : str) (new lesson_uris : list str) :
  NoDup new -> NoDup (unlearned type new lesson_uris).
Proof.
  intros H. unfold unlearned.
  assert (Hf : NoDup (filter (fun u => negb (mem u lesson_uris)) (sorted new)))
    by (apply NoDup_filter, sorted_NoDup, H).
  induction Hf as [|x l Hx Hl IH]; cbn [map]; constructor; [|exact IH].
  rewrite in_map_iff. intros (y & [= ->] & Hy). auto.
Qed.

Lemma difference_In (a b : list str) (u : str) :
  In u (difference a b) <-> In u a /\ ~ In u b.
Proof.
  unfold difference. rewrite filter_In, negb_true_iff, mem_false. reflexivity.
Qed.

Lemma difference_self (a b : list str) :
  (forall u, In u a -> In u b) -> difference a b = [].
Proof.
  intros H. destruct (difference a b) as [|u l] eqn:E; [reflexivity|].
  assert (Hu : In u (difference a b)) by (rewrite E; now left).
  apply difference_In in Hu. destruct Hu as [Ha Hb]. exfalso. auto.
Qed.

Lemma length_zero_nil (l : list str) : (length l =? 0) = true <-> l = [].
Proof. destruct l; simpl; split; congruence. Qed.

End DetectFacts.

Section Detect.
Import OntotuneDetect.

(** On a run that is not a first run (the baseline lists something),
    new_concepts.jsonl holds a record of a type for a URI exactly when the
    URI is in the Digital Reference namespace, is declared with that type
    in the graph, is not in the baseline list of that type and has no
    micro-lesson. *)
Theorem new_concepts_are_the_unseen_ones :
  forall (g : graph) (fs : files) (b : baseline),
    previous_entities fs = Some b ->
    classes b <> [] \/ object_properties b <> [] \/ datatype_properties b <> [] ->
    exists out,
      new_concepts (detect g fs) = Some out /\
      forall ty u,
        In (mkConcept ty u) out <->
        is_dr_uri u = true /\ ~ has_lesson (lessons fs) u /\
        ((ty = lit "Class" /\ declared g OWL_Class u /\ ~ In u (classes b)) \/
         (ty = lit "ObjectProperty" /\ declared g OWL_ObjectProperty u /\
          ~ In u (object_properties b)) \/
         (ty = lit "DatatypeProperty" /\ declared g OWL_DatatypeProperty u /\
          ~ In u (datatype_properties b))).
Proof.
  intros g fs b Hb Hne. unfold detect, collect_current_entities.
  rewrite Hb. cbn [load_previous_entities].
  assert (Hfirst : ((length (set_of (classes b)) =? 0)
                    && (length (set_of (object_properties b)) =? 0)
                    && (length (set_of (datatype_properties b)) =? 0))%bool = false).
  { apply not_true_is_false. intros H.
    apply andb_true_iff in H. destruct H as [H H3].
    apply andb_true_iff in H. destruct H as [H1 H2].
    rewrite length_zero_nil, set_of_nil in H1, H2, H3. tauto. }
  cbv zeta. rewrite Hfirst. cbn [new_concepts lessons].
  eexists. split; [reflexivity|]. intros ty u.
  rewrite !in_app_iff, !unlearned_In, !difference_In, !collect_In,
    !set_of_In, lesson_uris_In.
  tauto.
Qed.

(** No record is written twice to new_concepts.jsonl. *)
Theorem new_concepts_have_no_repetition :
  forall (g : graph) (fs : files) (out : list concept),
    new_concepts (detect g fs) = Some out -> NoDup out.
Proof.
  intros g fs out. unfold detect, collect_current_entities.
  destruct (load_previous_entities (previous_entities fs)) as [[pc po] pd].
  cbv zeta. destruct (_ && _ && _)%bool; cbn [new_concepts].
  - intros [= <-]. constructor.
  - intros [= <-].
    assert (Hd : forall a b, NoDup a -> NoDup (difference a b))
      by (intros a b; apply NoDup_filter).
    pose proof (collect_NoDup g OWL_Class) as H1.
    pose proof (collect_NoDup g OWL_ObjectProperty) as H2.
    pose proof (collect_NoDup g OWL_DatatypeProperty) as H3.
    assert (Happ : forall (l1 l2 : list concept),
               NoDup l1 -> NoDup l2 ->
               (forall x, In x l1 -> ~ In x l2) -> NoDup (l1 ++ l2)).
    { induction l1 as [|x l1 IH]; intros l2 N1 N2 Hx; [exact N2|].
      inversion N1; subst. cbn [app]. constructor.
      - rewrite in_app_iff. intros [H|H]; [auto|]. apply (Hx x); [now left|exact H].
      - apply IH; auto. intros y Hy. apply Hx. now right. }
    apply Happ; [apply unlearned_NoDup; auto|apply Happ|].
    + apply unlearned_NoDup; auto.
    + apply unlearned_NoDup; auto.
    + intros [ty u] Hx Hy. apply unlearned_In in Hx, Hy.
      destruct Hx as [-> _], Hy as [Hy _]. discriminate.
    + intros [ty u] Hx Hy. apply unlearned_In in Hx. destruct Hx as [-> _].
      apply in_app_iff in Hy. destruct Hy as [Hy|Hy];
        apply unlearned_In in Hy; destruct Hy as [Hy _]; discriminate.
Qed.

(** After a run, whatever the files were, the baseline lists exactly the
    Digital Reference URIs the graph declares, per type; so a second run
    on the same graph reports nothing. *)
Theorem second_run_reports_nothing :
  forall (g : graph) (fs : files),
    (exists b,
        previous_entities (detect g fs) = Some b /\
        (forall u, In u (classes b) <-> declared g OWL_Class u /\ is_dr_uri u = true) /\
        (forall u, In u (object_properties b)
                   <-> declared g OWL_ObjectProperty u /\ is_dr_uri u = true) /\
        (forall u, In u (datatype_properties b)
                   <-> declared g OWL_DatatypeProperty u /\ is_dr_uri u = true)) /\
    new_concepts (detect g (detect g fs)) = Some [].
Proof.
  intros g fs.
  assert (Hb : previous_entities (detect g fs)
               = Some (mkBaseline (sorted (collect g OWL_Class))
                         (sorted (collect g OWL_ObjectProperty))
                         (sorted (collect g OWL_DatatypeProperty)))).
  { unfold detect, collect_current_entities.
    destruct (load_previous_entities (previous_entities fs)) as [[pc po] pd].
    cbv zeta. destruct (_ && _ && _)%bool; reflexivity. }
  split.
  - eexists. split; [exact Hb|]. cbn [classes object_properties datatype_properties].
    split; [|split]; intros u; rewrite sorted_In; apply collect_In.
  - unfold detect at 1. unfold collect_current_entities. rewrite Hb.
    cbn [load_previous_entities classes object_properties datatype_properties].
    cbv zeta. destruct (_ && _ && _)%bool; cbn [new_concepts]; [reflexivity|].
    rewrite !difference_self;
      try (intros u Hu; rewrite set_of_In, sorted_In; exact Hu).
    reflexivity.
Qed.

(** A run that finds no baseline, or a baseline that lists nothing, reports
    nothing, whatever the graph declares; what the graph declares then is
    in the baseline and is not reported by the next run either, on any
    graph. *)
Theorem empty_baseline_reports_nothing :
  forall (g g' : graph) (fs : files),
    previous_entities fs = None \/
    previous_entities fs = Some (mkBaseline [] [] []) ->
    new_concepts (detect g fs) = Some [] /\
    forall out u ty,
      new_concepts (detect g' (detect g fs)) = Some out ->
      In (mkConcept ty u) out ->
      ~ (ty = lit "Class" /\ declared g OWL_Class u) /\
      ~ (ty = lit "ObjectProperty" /\ declared g OWL_ObjectProperty u) /\
      ~ (ty = lit "DatatypeProperty" /\ declared g OWL_DatatypeProperty u).
Proof.
  intros g g' fs Hprev.
  assert (Hb : detect g fs
               = mkFiles
                   (Some (mkBaseline (sorted (collect g OWL_Class))
                            (sorted (collect g OWL_ObjectProperty))
                            (sorted (collect g OWL_DatatypeProperty))))
                   (Some []) (lessons fs)).
  { unfold detect, collect_current_entities.
    destruct Hprev as [-> | ->]; reflexivity. }
  split; [now rewrite Hb|].
  intros out u ty. rewrite Hb. unfold detect, collect_current_entities.
  cbn [previous_entities load_previous_entities classes object_properties
         datatype_properties lessons].
  cbv zeta. destruct (_ && _ && _)%bool; cbn [new_concepts].
  - intros [= <-] [].
  - intros [= <-].
    rewrite !in_app_iff, !unlearned_In, !difference_In, !collect_In,
      !set_of_In, !sorted_In, !collect_In.
    intros H. repeat split; intros [-> Hd];
      destruct H as [(E & ? & ?)|[(E & ? & ?)|(E & ? & ?)]];
      try discriminate E; tauto.
Qed.

(** The blank-node test of is_dr_uri decides nothing: a string that
    starts with "_:" starts with none of the four prefixes. *)
Theorem blank_node_test_is_redundant :
  forall uri : str,
    is_dr_uri uri = existsb (fun p => startswith p uri) DR_PREFIXES.
Proof.
  intros uri. unfold is_dr_uri.
  destruct (startswith (lit "_:") uri) eqn:E; [|reflexivity].
  destruct uri as [|c uri]; [discriminate|].
  cbn [lit list_ascii_of_string startswith] in E.
  apply andb_true_iff in E. destruct E as [E _].
  apply Ascii.eqb_eq in E. subst c. reflexivity.
Qed.

End Detect.

Lemma new_concepts_are_the_unseen_ones_witness :
  exists out,
    OntotuneDetect.new_concepts (OntotuneDetect.detect Cases.dr_graph Cases.detect_files)
    = Some out /\
    forall ty u,
      In (OntotuneDetect.mkConcept ty u) out <->
      OntotuneDetect.is_dr_uri u = true /\
      ~ OntotuneDetect.has_lesson (OntotuneDetect.lessons Cases.detect_files) u /\
      ((ty = lit "Class" /\
        OntotuneDetect.declared Cases.dr_graph OntotuneDetect.OWL_Class u /\
        ~ In u (OntotuneDetect.classes Cases.known_wafer)) \/
       (ty = lit "ObjectProperty" /\
        OntotuneDetect.declared Cases.dr_graph OntotuneDetect.OWL_ObjectProperty u /\
        ~ In u (OntotuneDetect.object_properties Cases.known_wafer)) \/
       (ty = lit "DatatypeProperty" /\
        OntotuneDetect.declared Cases.dr_graph OntotuneDetect.OWL_DatatypeProperty u /\
        ~ In u (OntotuneDetect.datatype_properties Cases.known_wafer))).
Proof.
  apply (@new_concepts_are_the_unseen_ones Cases.dr_graph Cases.detect_files
           Cases.known_wafer).
  - reflexivity.
  - left. discriminate.
Defined.

Lemma new_concepts_have_no_repetition_witness :
  NoDup [OntotuneDetect.mkConcept (lit "Class") (lit "http://www.w3id.org/ecsel-dr/Lot")].
Proof.
  apply (@new_concepts_have_no_repetition Cases.dr_graph Cases.detect_files).
  vm_compute. reflexivity.
Defined.

Lemma empty_baseline_reports_nothing_witness :
  OntotuneDetect.new_concepts
    (OntotuneDetect.detect Cases.dr_graph
       (OntotuneDetect.mkFiles None None None)) = Some [] /\
  forall out u ty,
    OntotuneDetect.new_concepts
      (OntotuneDetect.detect Cases.dr_graph
         (OntotuneDetect.detect Cases.dr_graph
            (OntotuneDetect.mkFiles None None None))) = Some out ->
    In (OntotuneDetect.mkConcept ty u) out ->
    ~ (ty = lit "Class" /\
       OntotuneDetect.declared Cases.dr_graph OntotuneDetect.OWL_Class u) /\
    ~ (ty = lit "ObjectProperty" /\
       OntotuneDetect.declared Cases.dr_graph OntotuneDetect.OWL_ObjectProperty u) /\
    ~ (ty = lit "DatatypeProperty" /\
       OntotuneDetect.declared Cases.dr_graph OntotuneDetect.OWL_DatatypeProperty u).
Proof.
  apply (@empty_baseline_reports_nothing Cases.dr_graph Cases.dr_graph
           (OntotuneDetect.mkFiles None None None)).
  left. reflexivity.
Defined.

(** The run over that graph reports the class the baseline does not know;
    the property has a lesson, the third class is of another vocabulary. *)
Example ex_detect :
  OntotuneDetect.new_concepts (OntotuneDetect.detect Cases.dr_graph Cases.detect_files)
  = Some [OntotuneDetect.mkConcept (lit "Class") (lit "http://www.w3id.org/ecsel-dr/Lot")].
Proof. vm_compute. reflexivity. Qed.

(* ================================================================== *)
(** * SCT_semantic_graph.py: labels, requests and the update check *)
(* ================================================================== *)

Section SplitLast.

Lemma find_sep_char_spec (c : ascii) (s : str) :
  match find_sep [c] s with
  | Some (a, b) => s = a ++ c :: b /\ ~ In c a
  | None => ~ In c s
  end.
Proof.
  induction s as [|x s IH]; [intros []|].
  cbn [find_sep startswith length skipn].
  destruct (Ascii.eqb_spec c x) as [->|Hne]; cbn [andb].
  - split; [reflexivity|intros []].
  - destruct (find_sep [c] s) as [[a b]|].
    + destruct IH as [-> Ha]. split; [reflexivity|].
      intros [H|H]; [congruence|auto].
    + intros [H|H]; [congruence|auto].
Qed.

Lemma split_max_not_nil (k : nat) (sep s : str) : split_max k sep s <> [].
Proof.
  destruct k; cbn [split_max]; [discriminate|].
  destruct (find_sep sep s) as [[a b]|]; discriminate.
Qed.

Lemma last_cons_not_nil (A : Type) (x d : A) (l : list A) :
  l <> [] -> last (x :: l) d = last l d.
Proof. destruct l; [congruence|reflexivity]. Qed.

(** The last part of s.split(c) has no [c] in it and is the end of [s]. *)
Lemma last_of_split (c : ascii) (k : nat) :
  forall s,
    length s <= k ->
    ~ In c (last_item (split_max k [c] s) []) /\
    exists pre, s = pre ++ last_item (split_max k [c] s) [].
Proof.
  unfold last_item.
  induction k as [|k IH]; intros s Hk.
  - destruct s; [|simpl in Hk; lia]. split; [intros []|now exists []].
  - cbn [split_max]. pose proof (find_sep_char_spec c s) as Hf.
    destruct (find_sep [c] s) as [[a b]|].
    + destruct Hf as [-> Ha].
      rewrite last_cons_not_nil by apply split_max_not_nil.
      destruct (IH b) as [Hno [pre Hpre]].
      { rewrite length_app in Hk. simpl in Hk. lia. }
      split; [exact Hno|].
      exists (a ++ c :: pre). rewrite <- app_assoc. cbn [app].
      now rewrite <- Hpre.
    + split; [exact Hf|now exists []].
Qed.

End SplitLast.

Section SemanticLoop.
Import Numpy OntotuneDetect SemanticGraph.

Variable em_dash arrow : str.
Variable service : Type.
Variable create : service -> str -> option vector * service.

#[local] Abbreviation state := (SemanticGraph.state service).
#[local] Abbreviation safe_embed := (SemanticGraph.safe_embed create).
#[local] Abbreviation process := (SemanticGraph.process em_dash arrow create).
#[local] Abbreviation embed_entities :=
  (SemanticGraph.embed_entities em_dash arrow create).
#[local] Abbreviation triples_to_text := (SemanticGraph.triples_to_text em_dash arrow).

Lemma safe_embed_requests (k : nat) (t : str) :
  forall st : state,
    appended (snd (safe_embed k t st)) = appended st /\
    done_labels (snd (safe_embed k t st)) = done_labels st /\
    exists n,
      n <= k /\
      requests (snd (safe_embed k t st)) = requests st ++ repeat t n /\
      (fst (safe_embed k t st) = None -> n = k) /\
      (fst (safe_embed k t st) <> None -> 1 <= n).
Proof.
  induction k as [|k IH]; intros st; cbn [SemanticGraph.safe_embed].
  - cbn [fst snd]. repeat split. exists 0. cbn [repeat].
    rewrite app_nil_r. repeat split; auto. congruence.
  - destruct (create (svc st) t) as [[emb|] w].
    + cbn [fst snd appended done_labels requests]. repeat split.
      exists 1. repeat split; auto; [lia|]. discriminate.
    + destruct (IH (mkState w (appended st) (done_labels st) (requests st ++ [t])))
        as (Ha & Hd & n & Hn & Hr & Hnone & Hsome).
      cbn [appended done_labels requests] in *.
      repeat split; auto. exists (S n).
      rewrite Hr, <- app_assoc. repeat split; auto; lia.
Qed.

(** What one pass of the loop does to the state. *)
Lemma process_cases (g : graph) (x : node) (st : state) :
  exists n,
    n <= 5 /\
    requests (process g x st)
    = requests st ++ repeat (triples_to_text g (get_local_context g x)) n /\
    ((appended (process g x st) = appended st /\
      done_labels (process g x st) = done_labels st) \/
     (exists emb,
         1 <= n /\
         ~ In (get_label g x) (done_labels st) /\
         get_local_context g x <> [] /\
         appended (process g x st)
         = appended st
           ++ [mkCondition (str_of_node x) (get_label g x)
                 (triples_to_text g (get_local_context g x)) emb] /\
         done_labels (process g x st) = add (get_label g x) (done_labels st))).
Proof.
  unfold SemanticGraph.process. cbv zeta.
  destruct (mem (get_label g x) (done_labels st)) eqn:M.
  { exists 0. cbn [repeat]. rewrite app_nil_r. split; [lia|]. split; auto. }
  apply mem_false in M.
  destruct (get_local_context g x) as [|t0 ts] eqn:C.
  { exists 0. cbn [repeat]. rewrite app_nil_r. split; [lia|]. split; auto. }
  destruct (safe_embed_requests MAX_RETRIES (triples_to_text g (t0 :: ts)) st)
    as (Ha & Hd & n & Hn & Hr & Hnone & Hsome).
  destruct (safe_embed MAX_RETRIES (triples_to_text g (t0 :: ts)) st)
    as [[emb|] st1]; cbn [fst snd] in *.
  - exists n. split; [exact Hn|]. cbn [requests appended done_labels].
    split; [exact Hr|]. right. exists emb.
    rewrite Ha, Hd. repeat split; auto; [apply Hsome|]; discriminate.
  - exists n. split; [exact Hn|]. split; [exact Hr|]. left. auto.
Qed.

(** The loop over the entities: what it appends, and what it sends. *)
Lemma embed_entities_invariant (g : graph) (entities : list node) :
  forall st : state,
    exists new,
      appended (embed_entities g entities st) = appended st ++ new /\
      NoDup (map label new) /\
      (forall l, In l (done_labels (embed_entities g entities st)) <->
                 In l (done_labels st) \/ In l (map label new)) /\
      Forall (fun r =>
                ~ In (label r) (done_labels st) /\
                exists x, In x entities /\
                          entity_uri r = str_of_node x /\
                          label r = get_label g x /\
                          get_local_context g x <> [] /\
                          context_text r
                          = triples_to_text g (get_local_context g x))
             new /\
      length (requests st) + length new
      <= length (requests (embed_entities g entities st)) /\
      length (requests (embed_entities g entities st))
      <= length (requests st) + 5 * length entities.
Proof.
  induction entities as [|x entities IH]; intros st.
  - exists []. cbn [SemanticGraph.embed_entities fold_left map length].
    rewrite app_nil_r. split; [reflexivity|]. split; [constructor|].
    split; [intros l; simpl; intuition|]. split; [constructor|]. simpl. lia.
  - cbn [SemanticGraph.embed_entities fold_left].
    fold (embed_entities g entities (process g x st)).
    destruct (process_cases g x st) as (n & Hn & Hreq & Hcase).
    destruct (IH (process g x st))
      as (new & Happ & Hnd & Hdone & Hall & Hlen & Hbound).
    assert (Hreqlen : length (requests (process g x st))
                      = length (requests st) + n)
      by (rewrite Hreq, length_app, repeat_length; reflexivity).
    destruct Hcase as [[Ha Hd]|(emb & Hn1 & Hnew & Hctx & Ha & Hd)].
    + exists new. rewrite Happ, Ha. split; [reflexivity|].
      split; [exact Hnd|]. split; [|split; [|split]].
      * intros l. rewrite Hdone, Hd. reflexivity.
      * eapply Forall_impl; [|exact Hall]. cbn beta.
        intros r (Hr & y & Hy & H). rewrite Hd in Hr. split; [exact Hr|].
        exists y. split; [now right|exact H].
      * lia.
      * cbn [length]. lia.
    + set (r0 := mkCondition (str_of_node x) (get_label g x)
                   (triples_to_text g (get_local_context g x)) emb) in *.
      exists (r0 :: new). rewrite Happ, Ha, <- app_assoc.
      split; [reflexivity|].
      assert (Hfresh : ~ In (get_label g x) (map label new)).
      { intros Hin. apply in_map_iff in Hin. destruct Hin as (r & Hl & Hr).
        rewrite Forall_forall in Hall. destruct (Hall r Hr) as [Hno _].
        apply Hno. rewrite Hd, Hl. apply add_In. now left. }
      split; [|split; [|split; [|split]]].
      * cbn [map]. constructor; [exact Hfresh|exact Hnd].
      * intros l. rewrite Hdone, Hd, add_In. cbn [map In label r0].
        intuition.
      * constructor.
        -- split; [exact Hnew|]. exists x. cbn [r0 entity_uri label context_text].
           repeat split; auto. now left.
        -- eapply Forall_impl; [|exact Hall]. cbn beta.
           intros r (Hr & y & Hy & H). split.
           ++ intros Hin. apply Hr. rewrite Hd. apply add_In. now right.
           ++ exists y. split; [now right|exact H].
      * cbn [length]. lia.
      * cbn [length]. lia.
Qed.

(** A run of the loop writes no label twice and no label that is done
    already, so of the entities that share a label at most one is written;
    every record it appends is the record of one of the entities, with a
    local context that is not empty. *)
Theorem each_label_is_written_once :
  forall (g : graph) (entities : list node) (st : state),
    exists new,
      appended (embed_entities g entities st) = appended st ++ new /\
      NoDup (map label new) /\
      Forall (fun r =>
                ~ In (label r) (done_labels st) /\
                exists x, In x entities /\
                          entity_uri r = str_of_node x /\
                          label r = get_label g x /\
                          get_local_context g x <> [] /\
                          context_text r
                          = triples_to_text g (get_local_context g x))
             new.
Proof.
  intros g entities st.
  destruct (embed_entities_invariant g entities st)
    as (new & H1 & H2 & _ & H3 & _).
  exists new. auto.
Qed.

(** The loop sends at most five requests per entity, and at least one
    for every record it appends. *)
Theorem at_most_five_requests_per_entity :
  forall (g : graph) (entities : list node) (st : state),
    length (requests (embed_entities g entities st))
    <= length (requests st) + 5 * length entities /\
    length (requests st)
    + (length (appended (embed_entities g entities st)) - length (appended st))
    <= length (requests (embed_entities g entities st)).
Proof.
  intros g entities st.
  destruct (embed_entities_invariant g entities st)
    as (new & H1 & _ & _ & _ & H4 & H5).
  split; [exact H5|]. rewrite H1, length_app. lia.
Qed.

End SemanticLoop.

Section SemanticMain.
Import Numpy OntotuneDetect SemanticGraph.

Variable em_dash arrow : str.
Variable service : Type.
Variable create : service -> str -> option vector * service.
Variable sha256 : str -> str.

#[local] Abbreviation main := (SemanticGraph.main em_dash arrow create sha256).

Lemma load_done_labels_In (lines : list out_line) (l : str) :
  In l (load_done_labels (Some lines)) <-> In l (labels_of lines).
Proof.
  unfold load_done_labels, labels_of.
  assert (H : forall acc,
             In l (fold_left
                     (fun s line =>
                        match line with Line rec => add (label rec) s | BadLine => s end)
                     lines acc)
             <-> In l acc \/
                 In l (flat_map
                         (fun line =>
                            match line with Line rec => [label rec] | BadLine => [] end)
                         lines)).
  { induction lines as [|[r|] lines IH]; intros acc; cbn [fold_left flat_map].
    - simpl. intuition.
    - rewrite IH, add_In. cbn [app In]. intuition.
    - rewrite IH. cbn [app]. reflexivity. }
  rewrite H. simpl. intuition.
Qed.

Lemma labels_of_app (a b : list out_line) :
  labels_of (a ++ b) = labels_of a ++ labels_of b.
Proof. apply flat_map_app. Qed.

Lemma labels_of_lines (new : list condition) :
  labels_of (map Line new) = map label new.
Proof.
  induction new as [|r new IH]; [reflexivity|].
  cbn [map labels_of flat_map app]. f_equal. exact IH.
Qed.

(** A regeneration keeps the lines of semantic_conditions.jsonl and
    appends to them; when no label occurred twice in the file before, none
    does after; the service got at most five requests per entity. *)
Theorem regenerated_file_keeps_labels_unique :
  forall download choice (g : graph) (entities : list node) fs (w : service)
         fs' reqs w',
    main download choice g entities fs w = (Regenerated, fs', reqs, w') ->
    NoDup (labels_of (match out_file fs with Some lines => lines | None => [] end)) ->
    exists new,
      out_file fs'
      = Some (match out_file fs with Some lines => lines | None => [] end
              ++ map Line new) /\
      NoDup (labels_of (match out_file fs with Some lines => lines | None => [] end
                        ++ map Line new)) /\
      length new <= length reqs <= 5 * length entities.
Proof.
  intros download choice g entities fs w fs' reqs w'.
  unfold SemanticGraph.main.
  destruct (ttl_updated sha256 download fs) as [[[|] fs1]|] eqn:T;
    try discriminate.
  destruct (negb (eqb_str (lower (strip choice)) (lit "y"))); [discriminate|].
  assert (Hout : out_file fs1 = out_file fs).
  { unfold ttl_updated in T. destruct download as [content|]; [|discriminate].
    destruct (hash_file fs) as [stored|].
    - destruct (negb (eqb_str (sha256 content) (strip stored)));
        inversion T; reflexivity.
    - inversion T; reflexivity. }
  rewrite Hout. cbv zeta.
  set (old := match out_file fs with Some lines => lines | None => [] end).
  set (st0 := mkState w [] (load_done_labels (out_file fs)) []).
  intros [= <- <- <-] Hold.
  destruct (embed_entities_invariant em_dash arrow create g entities st0)
    as (new & Happ & Hnd & _ & Hall & Hlen & Hbound).
  cbn [appended requests app length st0] in Happ, Hlen, Hbound. fold st0 in Happ, Hlen, Hbound.
  exists new. cbn [out_file]. rewrite Happ. split; [reflexivity|].
  split; [|lia].
  rewrite labels_of_app, labels_of_lines.
  assert (Happ2 : forall (l1 l2 : list str),
             NoDup l1 -> NoDup l2 -> (forall x, In x l2 -> ~ In x l1) ->
             NoDup (l1 ++ l2)).
  { induction l1 as [|x l1 IH]; intros l2 N1 N2 Hx; [exact N2|].
    inversion N1; subst. cbn [app]. constructor.
    - rewrite in_app_iff. intros [H|H]; [auto|]. apply (Hx x H). now left.
    - apply IH; auto. intros y Hy Hy1. apply (Hx y Hy). now right. }
  apply Happ2; [exact Hold|exact Hnd|].
  intros l Hl Hin. apply in_map_iff in Hl. destruct Hl as (r & <- & Hr).
  rewrite Forall_forall in Hall. destruct (Hall r Hr) as [Hno _].
  apply Hno. cbn [done_labels st0]. unfold old in Hin.
  destruct (out_file fs) as [lines|]; [now apply load_done_labels_In|destruct Hin].
Qed.


(** Without an rdfs:label the label is the end of the URI, after the last
    '#' and the last '/': it holds neither character. *)
Theorem label_fallback_is_the_local_name :
  forall (g : graph) (x : node),
    find (fun t => (eqb_node (subject t) x
                    && eqb_node (predicate t) RDFS_label)%bool) g = None ->
    ~ In "/"%char (get_label g x) /\
    ~ In "#"%char (get_label g x) /\
    exists pre, str_of_node x = pre ++ get_label g x.
Proof.
  intros g x Hnone. unfold get_label. rewrite Hnone.
  unfold split_sep.
  set (s := str_of_node x).
  destruct (@last_of_split "#"%char (length s) s (le_n _)) as [Hhash [pre1 H1]].
  change (lit "#") with ["#"%char]. change (lit "/") with ["/"%char].
  set (a := last_item (split_max (length s) ["#"%char] s) []) in *.
  destruct (@last_of_split "/"%char (length a) a (le_n _)) as [Hslash [pre2 H2]].
  set (b := last_item (split_max (length a) ["/"%char] a) []) in *.
  split; [exact Hslash|]. split.
  - intros Hin. apply Hhash. rewrite H2. apply in_or_app. now right.
  - exists (pre1 ++ pre2). rewrite <- app_assoc, <- H2. exact H1.
Qed.

End SemanticMain.

Lemma regenerated_file_keeps_labels_unique_witness :
  exists new,
    SemanticGraph.out_file
      (snd (fst (fst (SemanticGraph.main (lit "-") (lit ">") Cases.every_second
                        Cases.digest (Some (lit "@prefix")) (lit " Y ")
                        Cases.lot_graph Cases.lot_entities
                        Cases.no_semantic_files 0))))
    = Some (match SemanticGraph.out_file Cases.no_semantic_files with
            | Some lines => lines
            | None => []
            end ++ map SemanticGraph.Line new) /\
    NoDup (SemanticGraph.labels_of
             (match SemanticGraph.out_file Cases.no_semantic_files with
              | Some lines => lines
              | None => []
              end ++ map SemanticGraph.Line new)) /\
    length new
    <= length (snd (fst (SemanticGraph.main (lit "-") (lit ">") Cases.every_second
                           Cases.digest (Some (lit "@prefix")) (lit " Y ")
                           Cases.lot_graph Cases.lot_entities
                           Cases.no_semantic_files 0)))
    <= 5 * length Cases.lot_entities.
Proof.
  apply (@regenerated_file_keeps_labels_unique (lit "-") (lit ">") nat
           Cases.every_second Cases.digest (Some (lit "@prefix")) (lit " Y ")
           Cases.lot_graph Cases.lot_entities Cases.no_semantic_files 0
           _ _ 2).
  - vm_compute. reflexivity.
  - constructor.
Defined.


Lemma label_fallback_is_the_local_name_witness :
  ~ In "/"%char
      (SemanticGraph.get_label Cases.lot_graph
         (OntotuneDetect.URIRef (lit "http://example.org/legacy#Lot"))) /\
  ~ In "#"%char
      (SemanticGraph.get_label Cases.lot_graph
         (OntotuneDetect.URIRef (lit "http://example.org/legacy#Lot"))) /\
  exists pre,
    OntotuneDetect.str_of_node
      (OntotuneDetect.URIRef (lit "http://example.org/legacy#Lot"))
    = pre ++ SemanticGraph.get_label Cases.lot_graph
               (OntotuneDetect.URIRef (lit "http://example.org/legacy#Lot")).
Proof.
  apply (@label_fallback_is_the_local_name Cases.lot_graph
           (OntotuneDetect.URIRef (lit "http://example.org/legacy#Lot"))).
  reflexivity.
Defined.

(** Two entities labelled "Lot": one record is written, here for the
    first one listed, whose embedding took two requests. *)
Example ex_same_label :
  let '(e, fs, reqs, w) :=
    SemanticGraph.main (lit "-") (lit ">") Cases.every_second Cases.digest
      (Some (lit "@prefix")) (lit " Y ") Cases.lot_graph Cases.lot_entities
      Cases.no_semantic_files 0 in
  (e,
   option_map (map (fun line => match line with
                                | SemanticGraph.Line r => SemanticGraph.entity_uri r
                                | SemanticGraph.BadLine => []
                                end))
              (SemanticGraph.out_file fs),
   length reqs)
  = (SemanticGraph.Regenerated, Some [lit "http://www.w3id.org/ecsel-dr/Lot"], 2).
Proof. vm_compute. reflexivity. Qed.

(* ================================================================== *)
(** * build_corpus.py: the ids of the corpus *)
(* ================================================================== *)

Section CorpusIds.
Import BuildCorpus.

Lemma NoDup_map_prefix (p : str) (l : list str) :
  NoDup (map (fun u => p ++ u) l) <-> NoDup l.
Proof.
  split; [apply NoDup_map_inv|].
  induction 1 as [|u l Hu Hl IH]; cbn [map]; constructor; [|exact IH].
  rewrite in_map_iff. intros (v & E & Hv). apply app_inv_head in E. now subst.
Qed.

Lemma NoDup_app_iff (A : Type) (l1 l2 : list A) :
  NoDup (l1 ++ l2) <->
  NoDup l1 /\ NoDup l2 /\ (forall a, In a l1 -> ~ In a l2).
Proof.
  split.
  - intros H. split; [now apply NoDup_app_remove_r in H|].
    split; [now apply NoDup_app_remove_l in H|].
    induction l1 as [|x l1 IH]; [intros a []|].
    cbn [app] in H. inversion H as [|? ? Hx Hrest]; subst.
    intros a [->|Ha] Hin.
    + apply Hx. apply in_or_app. now right.
    + exact (IH Hrest a Ha Hin).
  - intros (H1 & H2 & H3). now apply NoDup_app.
Qed.

(** The ids of DR_corpus.jsonl are pairwise different exactly when no URI
    occurs twice within one of the three input files; a URI that is in
    two of the files gets two different ids. *)
Theorem corpus_ids_unique_iff_uris_unique :
  forall (classes : list class_record) (obj_props data_props : list property_record),
    NoDup (map corpus_id (corpus classes obj_props data_props)) <->
    NoDup (map class_uri classes) /\
    NoDup (map property_uri obj_props) /\
    NoDup (map property_uri data_props).
Proof.
  intros classes obj_props data_props. unfold corpus.
  rewrite !map_app, !map_map.
  cbn [class_entry object_property_entry datatype_property_entry corpus_id].
  rewrite <- (map_map class_uri (fun u => lit "class::" ++ u)).
  rewrite <- (map_map property_uri (fun u => lit "objprop::" ++ u)).
  rewrite <- (map_map property_uri (fun u => lit "dataprop::" ++ u)).
  rewrite !NoDup_app_iff, !NoDup_map_prefix.
  assert (H1 : forall a,
             In a (map (fun u => lit "class::" ++ u) (map class_uri classes)) ->
             ~ In a (map (fun u => lit "objprop::" ++ u) (map property_uri obj_props)
                     ++ map (fun u => lit "dataprop::" ++ u)
                          (map property_uri data_props))).
  { intros a Ha Hb. apply in_map_iff in Ha. destruct Ha as (u & <- & _).
    apply in_app_iff in Hb. destruct Hb as [Hb|Hb];
      apply in_map_iff in Hb; destruct Hb as (v & E & _); discriminate E. }
  assert (H2 : forall a,
             In a (map (fun u => lit "objprop::" ++ u) (map property_uri obj_props)) ->
             ~ In a (map (fun u => lit "dataprop::" ++ u)
                       (map property_uri data_props))).
  { intros a Ha Hb. apply in_map_iff in Ha. destruct Ha as (u & <- & _).
    apply in_map_iff in Hb. destruct Hb as (v & E & _). discriminate E. }
  tauto.
Qed.

End CorpusIds.

(* ================================================================== *)
(** * app.py: what the follow-up parser returns *)
(* ================================================================== *)

Section StripFacts.

Lemma lstrip_head (s : str) :
  match lstrip s with c :: _ => isspace c = false | [] => True end.
Proof.
  induction s as [|c s IH]; cbn [lstrip]; [exact I|].
  destruct (isspace c) eqn:E; [exact IH|exact E].
Qed.

Lemma lstrip_fixed (c : ascii) (s : str) :
  isspace c = false -> lstrip (c :: s) = c :: s.
Proof. intros H. cbn [lstrip]. now rewrite H. Qed.

Lemma lstrip_idem (s : str) : lstrip (lstrip s) = lstrip s.
Proof.
  pose proof (lstrip_head s) as H.
  destruct (lstrip s) as [|c t]; [reflexivity|exact (@lstrip_fixed c t H)].
Qed.

Lemma lstrip_snoc (l : str) (c : ascii) :
  isspace c = false -> lstrip (l ++ [c]) = lstrip l ++ [c].
Proof.
  intros H. induction l as [|x l IH]; cbn [app lstrip].
  - now rewrite H.
  - destruct (isspace x); [exact IH|reflexivity].
Qed.

Lemma rstrip_cons (c : ascii) (t : str) :
  isspace c = false -> rstrip (c :: t) = c :: rstrip t.
Proof.
  intros H. unfold rstrip. cbn [rev].
  rewrite (@lstrip_snoc (rev t) c H), rev_app_distr. reflexivity.
Qed.

Lemma rstrip_idem (s : str) : rstrip (rstrip s) = rstrip s.
Proof. unfold rstrip. now rewrite rev_involutive, lstrip_idem. Qed.

(** strip() of a stripped string changes nothing. *)
Lemma strip_idem (s : str) : strip (strip s) = strip s.
Proof.
  unfold strip. pose proof (lstrip_head s) as H.
  destruct (lstrip s) as [|c t]; [reflexivity|].
  rewrite (@rstrip_cons c t H), (@lstrip_fixed c (rstrip t) H), <- (@rstrip_cons c t H).
  apply rstrip_idem.
Qed.

End StripFacts.

Section FollowupOutputs.
Import App.

Lemma flat_map_at_most_one (A B : Type) (f : A -> list B) (l : list A) :
  (forall x, length (f x) <= 1) -> length (flat_map f l) <= length l.
Proof.
  intros H. induction l as [|x l IH]; [apply le_n|].
  cbn [flat_map length]. rewrite length_app. specialize (H x). lia.
Qed.

(** Whatever text the model returns, every follow-up question the parser
    yields is non-empty and has no whitespace around it; it comes from a
    line that, stripped, starts with a digit 1 to 9 and '.' or ')'; and
    there are no more questions than lines. *)
Theorem parsed_followups_are_stripped_and_nonempty :
  forall followup_text : str,
    Forall (fun question =>
              question <> [] /\
              strip question = question /\
              exists raw,
                In raw (split_sep FusionQuery.nl followup_text) /\
                numbered (strip raw) = true /\
                question = remove_prefix (strip raw))
           (parse_followups followup_text) /\
    length (parse_followups followup_text)
    <= length (split_sep FusionQuery.nl followup_text).
Proof.
  intros followup_text. unfold parse_followups.
  generalize (split_sep FusionQuery.nl followup_text) as lines. intros lines.
  split.
  - apply Forall_forall. intros question Hq.
    apply in_flat_map in Hq. destruct Hq as (raw & Hraw & Hq).
    cbv zeta in Hq.
    destruct (strip raw) as [|c line] eqn:Hline; [destruct Hq|].
    destruct (numbered (c :: line)) eqn:Hn; [|destruct Hq].
    destruct (remove_prefix (c :: line)) as [|c' q'] eqn:Hr; [destruct Hq|].
    destruct Hq as [<-|[]].
    split; [discriminate|]. split.
    + rewrite <- Hr. unfold remove_prefix. apply strip_idem.
    + exists raw. rewrite Hline. auto.
  - apply flat_map_at_most_one. intros raw. cbv zeta.
    destruct (strip raw) as [|c line]; [cbn [length]; lia|].
    destruct (numbered (c :: line)); [|cbn [length]; lia].
    destruct (remove_prefix (c :: line)); cbn [length]; lia.
Qed.

End FollowupOutputs.

(* ================================================================== *)
(** * intent_classifier.py: a binning question inside a longer text *)
(* ================================================================== *)

Section ClassifierContext.
Import Regex IntentClassifier.

Lemma prev_after_nonempty (c : str) (p p' : option ascii) :
  c <> [] -> prev_after c p = prev_after c p'.
Proof.
  unfold prev_after. induction c as [|x c IH]; [congruence|]. intros _.
  destruct c as [|y c]; [reflexivity|].
  cbn [map last] in *. apply IH. discriminate.
Qed.

(** A question the classifier accepts is accepted with any text before
    and after it, set off by a space: the phrases are searched anywhere,
    and the space keeps the token a token. *)
Theorem binning_question_inside_longer_text :
  forall question before after : str,
    is_binning_question question = true ->
    is_binning_question (before ++ lit " " ++ question ++ lit " " ++ after) = true.
Proof.
  intros question before after H.
  apply is_binning_question_spec in H. apply is_binning_question_spec.
  assert (Hl : lower (before ++ lit " " ++ question ++ lit " " ++ after)
               = lower before ++ lit " " ++ lower question ++ lit " " ++ lower after).
  { unfold lower. rewrite !map_app. reflexivity. }
  rewrite Hl. destruct H as [(w & Hw & Hsub)|(pre & tok & post & E & Htok & Hp & Ha)].
  - left. exists w. split; [exact Hw|].
    apply substring_app_r, substring_app_r, substring_app_l. exact Hsub.
  - right. exists (lower before ++ lit " " ++ pre), tok, (post ++ lit " " ++ lower after).
    split; [rewrite E, <- !app_assoc; reflexivity|].
    split; [exact Htok|]. split.
    + rewrite app_assoc, prev_after_app.
      destruct pre as [|c pre].
      * cbn [prev_after map last]. rewrite prev_after_app. reflexivity.
      * rewrite (@prev_after_nonempty (c :: pre) _ None) by discriminate.
        exact Hp.
    + destruct post as [|c post]; [reflexivity|exact Ha].
Qed.

End ClassifierContext.

Lemma corpus_ids_unique_iff_uris_unique_witness :
  NoDup (map BuildCorpus.corpus_id
           (BuildCorpus.corpus [Cases.wafer_class] [Cases.wafer_property] [])).
Proof.
  apply (proj2 (@corpus_ids_unique_iff_uris_unique [Cases.wafer_class]
                  [Cases.wafer_property] [])).
  repeat split; repeat constructor; intros [].
Defined.

Lemma binning_question_inside_longer_text_witness :
  IntentClassifier.is_binning_question
    (lit "Please tell me:" ++ lit " " ++ lit "How many bins?" ++ lit " "
     ++ lit "Thanks.") = true.
Proof.
  apply (@binning_question_inside_longer_text (lit "How many bins?")
           (lit "Please tell me:") (lit "Thanks.")).
  reflexivity.
Defined.

(** The entry of the property: the newline of the comment is a space and
    the text has no space at its end. *)
Example ex_corpus_entry :
  BuildCorpus.corpus_text (BuildCorpus.object_property_entry Cases.wafer_property)
  = lit "ObjectProperty: Wafer (Domain: unknown, Range: unknown). Description: links a lot to its wafers".
Proof. reflexivity. Qed.

(** When the five requests for the first entity all fail, its label is not
    marked as done, and the record written is the one of the second. *)
Example ex_second_listed_written :
  let '(e, fs, reqs, w) :=
    SemanticGraph.main (lit "-") (lit ">") Cases.down_for_five Cases.digest
      (Some (lit "@prefix")) (lit "y") Cases.lot_graph Cases.lot_entities
      Cases.no_semantic_files 0 in
  (option_map (map (fun line => match line with
                                | SemanticGraph.Line r => SemanticGraph.entity_uri r
                                | SemanticGraph.BadLine => []
                                end))
              (SemanticGraph.out_file fs),
   length reqs)
  = (Some [lit "http://example.org/legacy#Lot"], 6).
Proof. vm_compute. reflexivity. Qed.
